(** * HI-VAE and novelty-score dispatch: a shallow embedding

    Embedded sources:
    - [uncertainty_estimation/models/hi_vae.py]  (encoder, per-feature decoders,
      objective assembler, type inference);
    - [src/models/novelty_estimator.py]          (training and scoring-function
      dispatch);
    - [uncertainty_estimation/utils/model_init.py] (model initialisation).

    Modelling conventions.
    - A float tensor entry is a real number ([R]); the only non-number that
      the code tests for, NaN, appears in raw input cells and is [None] of
      [cell := option R].  Rounding, overflow and NaN produced by arithmetic
      (0/0 on an empty reduction) are outside the model.  The conversions of
      a float to a fixed-width integer ([t.int()], [astype(int)]) truncate
      when the value fits the width and return the least integer of the
      width otherwise.
    - A 2-D tensor is the list of its rows; a 1-D tensor is a list; a 0-dim
      tensor is a single number.  Shapes are checked where PyTorch checks them
      and a failed check is a raised [error].
    - Random draws ([torch.randn], the Gumbel noise of [F.gumbel_softmax]) are
      explicit arguments.
    - State that the Python code mutates (the tensor object handed to
      [normalize], the buffers of the batch-norm layer, the estimator's
      [model] attribute) is passed in and returned explicitly, also when
      the call raises.
    - A Python set is the duplicate-free list of its members; the order in
      which it is iterated is a parameter. *)

From Stdlib Require Import String.
From Stdlib Require Import Reals Lra Lia ZArith Bool Arith List.
From Stdlib Require Import Permutation.
Import ListNotations.

Set Implicit Arguments.

(* ================================================================== *)
(** * Python-level results: a value or a raised exception              *)
(* ================================================================== *)

Module Py.

Inductive error : Type :=
| AssertionError (msg : string)
| ValueError
| TypeError
| IndexError
| KeyError
| RuntimeError
| AttributeError.

Inductive result (A : Type) : Type :=
| Ok (a : A)
| Raise (e : error).

Arguments Ok {A} a.
Arguments Raise {A} e.

Definition bind {A B : Type} (r : result A) (k : A -> result B) : result B :=
  match r with
  | Ok a => k a
  | Raise e => Raise e
  end.

Definition is_ok {A : Type} (r : result A) : bool :=
  match r with Ok _ => true | Raise _ => false end.

(** [assert c, msg] *)
Definition py_assert (c : bool) (msg : string) : result unit :=
  if c then Ok tt else Raise (AssertionError msg).

(** A check that raises [e] when it fails. *)
Definition check (c : bool) (e : error) : result unit :=
  if c then Ok tt else Raise e.

Fixpoint mapM {A B : Type} (f : A -> result B) (l : list A) : result (list B) :=
  match l with
  | [] => Ok []
  | a :: t =>
      match f a with
      | Ok b => match mapM f t with
                | Ok bs => Ok (b :: bs)
                | Raise e => Raise e
                end
      | Raise e => Raise e
      end
  end.

End Py.

Export Py.

Declare Scope py_scope.
Delimit Scope py_scope with py.
Notation "x <- c ;; k" := (bind c (fun x => k))
  (at level 61, c at next level, right associativity) : py_scope.
Notation "' pat <- c ;; k" := (bind c (fun x => match x with pat => k end))
  (at level 61, pat pattern, c at next level, right associativity) : py_scope.
Open Scope py_scope.

(* ================================================================== *)
(** * The PyTorch primitives the program calls                         *)
(* ================================================================== *)

Module Torch.

Open Scope R_scope.

Definition vec := list R.
Definition mat := list (list R).
Definition bmask := list (list bool).

(** A decoder returns either a 0-dim tensor or a 1-D tensor. *)
Inductive tensor01 : Type :=
| T0 (r : R)
| T1 (v : vec).

Definition shape01 (t : tensor01) : list nat :=
  match t with
  | T0 _ => []
  | T1 v => [length v]
  end.

Definition rsum (l : list R) : R := fold_right Rplus 0 l.

(** [t.mean()] of a 1-D tensor. *)
Definition rmean (l : list R) : R := rsum l / INR (length l).

Fixpoint zip_with {A B C : Type} (f : A -> B -> C) (la : list A) (lb : list B)
  : list C :=
  match la, lb with
  | a :: ta, b :: tb => f a b :: zip_with f ta tb
  | _, _ => []
  end.

(** Column [j] of a 2-D tensor, [x[:, j]]; out of range is an IndexError. *)
Definition column (j : nat) (x : mat) : result vec :=
  mapM (fun row => match nth_error row j with
                   | Some v => Ok v
                   | None => Raise IndexError
                   end) x.

(** [torch.cat([a, b], dim=1)]: the row counts must agree. *)
Definition cat1 (a b : mat) : result mat :=
  _ <- check (length a =? length b)%nat RuntimeError ;;
  Ok (zip_with (@app R) a b).

(** ** Element-wise functions *)

Definition relu (x : R) : R := Rmax x 0.

(** [nn.LeakyReLU()], negative slope 0.01. *)
Definition leaky_relu (x : R) : R := Rmax 0 x + 0.01 * Rmin 0 x.

(** [F.softplus], beta 1, threshold 20: linear above the threshold. *)
Definition softplus (x : R) : R :=
  if Rlt_dec 20 x then x else ln (1 + exp x).

(** [t.long()], [int(x)]: truncation toward zero. *)
Definition trunc (x : R) : Z :=
  if Rle_dec 0 x then Int_part x else (- Int_part (- x))%Z.

(** [t.int()] of a float tensor, a conversion to int32: truncation toward
    zero when the truncated value fits int32.  Out of that range the
    conversion is undefined and what PyTorch returns depends on the
    platform; here it is the least int32, as on x86. *)
Definition int32_min : Z := (-2147483648)%Z.
Definition int32_max : Z := 2147483647%Z.

Definition to_int32 (x : R) : Z :=
  if ((int32_min <=? trunc x) && (trunc x <=? int32_max))%Z
  then trunc x else int32_min.

(** ** Reductions along [dim=1] *)

Definition softmax (row : vec) : vec :=
  let s := rsum (map exp row) in
  map (fun x => exp x / s) row.

Definition log_softmax (row : vec) : vec :=
  let s := rsum (map exp row) in
  map (fun x => x - ln s) row.

Fixpoint argmax_from (best : R) (besti i : nat) (l : vec) : nat :=
  match l with
  | [] => besti
  | x :: t =>
      if Rlt_dec best x then argmax_from x i (S i) t
      else argmax_from best besti (S i) t
  end.

(** [torch.argmax(row)]: index of the first maximal entry; an empty
    reduction dimension is an error. *)
Definition argmax (row : vec) : result nat :=
  match row with
  | [] => Raise IndexError
  | x :: t => Ok (argmax_from x 0 1 t)
  end.

Definition argmax1 (x : mat) : result (list nat) := mapM argmax x.

Fixpoint cumsum_from (acc : R) (l : vec) : vec :=
  match l with
  | [] => []
  | x :: t => (acc + x) :: cumsum_from (acc + x) t
  end.

Definition cumsum (l : vec) : vec := cumsum_from 0 l.

(** [torch.roll(row, shifts=1)]: the last entry moves to the front. *)
Definition roll1 (l : vec) : vec :=
  match rev l with
  | [] => []
  | last :: rest => last :: rev rest
  end.

(** ** [F.one_hot] *)

Definition one_hot_row (k : nat) (i : nat) : vec :=
  map (fun j => if (j =? i)%nat then 1 else 0) (seq 0 k).

Definition zmax_list (l : list Z) : Z := fold_right Z.max 0%Z l.

(** [F.one_hot(idx, num_classes)].  [num_classes = -1] (the default) infers
    the width as the largest index plus one.  On an empty index tensor the
    width cannot be inferred; on a non-empty one the indices must be
    non-negative and below [num_classes]. *)
Definition one_hot (idx : list Z) (num_classes : Z) : result mat :=
  match idx with
  | [] =>
      _ <- check (0 <? num_classes)%Z RuntimeError ;;
      Ok []
  | _ :: _ =>
      _ <- check (forallb (fun i => 0 <=? i)%Z idx) RuntimeError ;;
      k <- (if (num_classes =? -1)%Z then Ok (zmax_list idx + 1)%Z
            else (_ <- check (zmax_list idx <? num_classes)%Z RuntimeError ;;
                  Ok num_classes)) ;;
      Ok (map (fun i => one_hot_row (Z.to_nat k) (Z.to_nat i)) idx)
  end.

(** ** [nn.Linear] and [nn.Sequential] of Linear + LeakyReLU *)

Record Linear : Type := mkLinear {
  in_features : nat;
  out_features : nat;
  weight : mat;          (* out_features rows of in_features entries *)
  bias : vec             (* out_features entries *)
}.

Definition wf_Linear (l : Linear) : Prop :=
  length (weight l) = out_features l /\
  length (bias l) = out_features l /\
  Forall (fun w => length w = in_features l) (weight l).

Definition dot (w x : vec) : R := rsum (zip_with Rmult w x).

(** One row through the layer; the last dimension must be [in_features]. *)
Definition linear_row (l : Linear) (x : vec) : result vec :=
  _ <- check (length x =? in_features l)%nat RuntimeError ;;
  Ok (zip_with (fun w b => dot w x + b) (weight l) (bias l)).

Definition linear (l : Linear) (x : mat) : result mat := mapM (linear_row l) x.

(** [nn.Sequential(Linear, LeakyReLU, Linear, LeakyReLU, ...)]. *)
Fixpoint sequential (layers : list Linear) (x : mat) : result mat :=
  match layers with
  | [] => Ok x
  | l :: rest =>
      y <- linear l x ;;
      sequential rest (map (map leaky_relu) y)
  end.

(** ** Losses *)

(** One term of [F.cross_entropy]: [None] for the ignored label -100. *)
Definition nll_term (logits : vec) (t : Z) : result (option R) :=
  if (t =? -100)%Z then Ok None
  else
    _ <- check ((0 <=? t) && (t <? Z.of_nat (length logits)))%Z IndexError ;;
    Ok (Some (- nth (Z.to_nat t) (log_softmax logits) 0)).

Fixpoint keep_some {A : Type} (l : list (option A)) : list A :=
  match l with
  | [] => []
  | Some a :: t => a :: keep_some t
  | None :: t => keep_some t
  end.

(** [F.cross_entropy(input, target)] with its default [reduction='mean']:
    a 0-dim tensor, the mean over the batch of the per-sample terms. *)
Definition cross_entropy (input : mat) (target : list Z) : result R :=
  _ <- check (length input =? length target)%nat ValueError ;;
  terms <- mapM (fun p => nll_term (fst p) (snd p)) (combine input target) ;;
  Ok (rmean (keep_some terms)).

(** Broadcast a 0-dim or 1-D tensor against a 1-D tensor of length [n]. *)
Definition broadcast1 (n : nat) (t : tensor01) : result vec :=
  match t with
  | T0 r => Ok (repeat r n)
  | T1 [r] => Ok (repeat r n)
  | T1 v => _ <- check (length v =? n)%nat RuntimeError ;; Ok v
  end.

(** [F.poisson_nll_loss(input, target)] with its defaults [log_input=True],
    [full=False], [reduction='mean']: mean of [exp(input) - target * input]. *)
Definition poisson_nll_loss (input : vec) (target : tensor01) : result R :=
  tg <- broadcast1 (length input) target ;;
  Ok (rmean (zip_with (fun i t => exp i - t * i) input tg)).

(** Log-density of [Normal(loc, scale)] at [x]. *)
Definition normal_log_prob (loc scale x : R) : R :=
  - ((x - loc) ^ 2) / (2 * scale ^ 2) - ln scale - ln (sqrt (2 * PI)).

(** ** [nn.BatchNorm1d(num_features, affine=False)] *)

Record BatchNorm1d : Type := mkBN {
  num_features : nat;
  running_mean : vec;
  running_var : vec;
  num_batches_tracked : R;
  training : bool
}.

Definition bn_eps : R := 1e-5.
Definition bn_momentum : R := 0.1.

Definition col_or_zero (j : nat) (x : mat) : vec :=
  map (fun row => nth j row 0) x.

Definition batch_mean (l : vec) : R := rmean l.

Definition batch_var_biased (l : vec) : R :=
  rmean (map (fun v => (v - batch_mean l) ^ 2) l).

Definition batch_var_unbiased (l : vec) : R :=
  rsum (map (fun v => (v - batch_mean l) ^ 2) l) / INR (length l - 1).

Definition bn_apply (mu var : vec) (x : mat) : mat :=
  map (fun row =>
         zip_with (fun v mv => (v - fst mv) / sqrt (snd mv + bn_eps))
                  row (combine mu var)) x.

(** [BatchNorm1d.forward] on a 2-D input.  In training mode the batch
    statistics normalise the input and are blended into the running
    statistics with factor [momentum]; a batch of exactly one row is refused
    ("Expected more than 1 value per channel when training").  In evaluation
    mode the running statistics normalise the input. *)
Definition bn_forward (bn : BatchNorm1d) (x : mat)
  : result mat * BatchNorm1d :=
  let shape_ok := forallb (fun row => (length row =? num_features bn)%nat) x in
  if training bn then
    let bn1 := mkBN (num_features bn) (running_mean bn) (running_var bn)
                    (num_batches_tracked bn + 1) true in
    if (length x =? 1)%nat then (Raise ValueError, bn1)
    else if negb shape_ok then (Raise RuntimeError, bn1)
    else
      let cols := map (fun j => col_or_zero j x) (seq 0 (num_features bn)) in
      let mu := map batch_mean cols in
      let var := map batch_var_biased cols in
      let uvar := map batch_var_unbiased cols in
      (Ok (bn_apply mu var x),
       mkBN (num_features bn)
            (zip_with (fun r m => (1 - bn_momentum) * r + bn_momentum * m)
                      (running_mean bn) mu)
            (zip_with (fun r v => (1 - bn_momentum) * r + bn_momentum * v)
                      (running_var bn) uvar)
            (num_batches_tracked bn + 1) true)
  else if negb shape_ok then (Raise RuntimeError, bn)
  else (Ok (bn_apply (running_mean bn) (running_var bn) x), bn).

End Torch.

Export Torch.

(* ================================================================== *)
(** * hi_vae.py                                                        *)
(* ================================================================== *)

Module hi_vae.

Open Scope R_scope.

(** The five members of [AVAILABLE_TYPES].  [HIEncoder.__init__] asserts that
    every declared type is one of them, so no other string reaches the
    methods below. *)
Inductive feat_kind : Type :=
| real
| positive_real
| count
| categorical
| ordinal.

(** One entry of [FeatTypes]: [(type, min, max)], the bounds being [None]
    where they are not given. *)
Record FeatureSpec : Type := mkSpec {
  feat_type : feat_kind;
  feat_min : option Z;
  feat_max : option Z
}.

Definition FeatTypes := list FeatureSpec.

(** A raw input cell: a number, or NaN for a missing value. *)
Definition cell := option R.
Definition raw := list (list cell).

(** Arithmetic and [int()] on a bound that is [None] raise TypeError. *)
Definition py_num (o : option Z) : result Z :=
  match o with
  | Some z => Ok z
  | None => Raise TypeError
  end.

(** [feat_type in ("positive_real", "count")], the source's
    [log_transform_mask]. *)
Definition is_log_type (k : feat_kind) : bool :=
  match k with
  | positive_real | count => true
  | _ => false
  end.

(** [feat_type not in ("real", "positive_real")], the mask the source calls
    [real_mask]: the columns whose values are restored after batch
    normalisation. *)
Definition real_mask (k : feat_kind) : bool :=
  match k with
  | real | positive_real => false
  | _ => true
  end.

(* ------------------------------------------------------------------ *)
(** ** HIEncoder *)

Module HIEncoder.

Record t : Type := mk {
  n_mix_components : nat;
  feat_types : FeatTypes;
  mixture_model : Linear;
  hidden : list Linear;
  mean : Linear;
  var : Linear;
  p_mean : Linear;
  p_var : Linear
}.

(** [batch_norm_reset_hook], registered with [register_forward_pre_hook] on
    [real_batch_norm]: it runs before every forward call of that layer. *)
Definition batch_norm_reset_hook (module : BatchNorm1d) : BatchNorm1d :=
  mkBN (num_features module)
       (repeat 0 (length (running_mean module)))
       (repeat 1 (length (running_var module)))
       0
       (training module).

(** [self.real_batch_norm(x)]: the pre-hook, then the layer's forward. *)
Definition real_batch_norm (bn : BatchNorm1d) (x : mat)
  : result mat * BatchNorm1d :=
  bn_forward (batch_norm_reset_hook bn) x.

(** What one feature adds to [input_size] in [get_encoded_input_size]. *)
Definition size_increment (s : FeatureSpec) : result Z :=
  match feat_type s with
  | categorical =>
      mx <- py_num (feat_max s) ;;
      Ok (mx + 1)%Z
  | ordinal =>
      mx <- py_num (feat_max s) ;;
      mn <- py_num (feat_min s) ;;
      Ok (mx - mn + 1)%Z
  | _ => Ok 1%Z
  end.

Fixpoint get_encoded_input_size_from (input_size : Z) (ft : FeatTypes)
  : result Z :=
  match ft with
  | [] => Ok input_size
  | s :: rest =>
      w <- size_increment s ;;
      get_encoded_input_size_from (input_size + w)%Z rest
  end.

Definition get_encoded_input_size (ft : FeatTypes) : result Z :=
  get_encoded_input_size_from 0%Z ft.

(** The block of columns that feature [dim] contributes in
    [categorical_encode]. *)
Definition encode_feature (s : FeatureSpec) (dim : nat) (input_tensor : mat)
  : result mat :=
  let batch_size := length input_tensor in
  match feat_type s with
  | categorical =>
      mx <- py_num (feat_max s) ;;
      col <- column dim input_tensor ;;
      one_hot (map trunc col) (mx + 1)%Z
  | ordinal =>
      mx <- py_num (feat_max s) ;;
      mn <- py_num (feat_min s) ;;
      let num_values := (mx - mn + 1)%Z in
      (* torch.arange(0, num_values), then torch.cat of batch_size copies *)
      _ <- check (0 <=? num_values)%Z RuntimeError ;;
      _ <- check (negb (batch_size =? 0)%nat) RuntimeError ;;
      col <- column dim input_tensor ;;
      Ok (map (fun v =>
                 map (fun k => if Rle_dec (INR k) v then 1 else 0)
                     (seq 0 (Z.to_nat num_values))) col)
  | _ =>
      col <- column dim input_tensor ;;
      Ok (map (fun v => [v]) col)
  end.

Fixpoint categorical_encode_from (ft : FeatTypes) (dim : nat)
  (input_tensor : mat) (encoded_input_tensor : mat) : result mat :=
  match ft with
  | [] => Ok encoded_input_tensor
  | s :: rest =>
      block <- encode_feature s dim input_tensor ;;
      enc <- cat1 encoded_input_tensor block ;;
      categorical_encode_from rest (S dim) input_tensor enc
  end.

(** [categorical_encode]: starts from [torch.empty(batch_size, 0)]. *)
Definition categorical_encode (self : t) (input_tensor : mat) : result mat :=
  categorical_encode_from (feat_types self) 0 input_tensor
                          (map (fun _ => []) input_tensor).

(** *** normalize, step by step *)

(** [~torch.isnan(input_tensor)] *)
Definition observed (input_tensor : raw) : bmask :=
  map (map (fun c : cell => match c with Some _ => true | None => false end))
      input_tensor.

(** [input_tensor[~observed_mask] = 0] *)
Definition zero_fill (input_tensor : raw) : mat :=
  map (map (fun c : cell => match c with Some v => v | None => 0 end))
      input_tensor.

Definition log_eps : R := 1e-8.

(** [input_tensor[:, log_transform_mask] = log(relu(...) + 1e-8)] *)
Definition log_transform (ft : FeatTypes) (x : mat) : mat :=
  map (fun row =>
         zip_with (fun s v => if is_log_type (feat_type s)
                              then ln (relu v + log_eps) else v) ft row) x.

(** [normed_input[:, real_mask] = index_select(input_tensor, 1, real_indices)] *)
Definition restore (ft : FeatTypes) (normed_input input_tensor : mat) : mat :=
  zip_with (fun nrow irow =>
              zip_with (fun s ni => if real_mask (feat_type s)
                                    then snd ni else fst ni)
                       ft (combine nrow irow))
           normed_input input_tensor.

(** The tensor object as a reader sees it after in-place writes of numbers. *)
Definition stored (x : mat) : raw := map (map (@Some R)) x.

(** [normalize].  Returns the result (or the exception), the content of the
    argument tensor object after the in-place writes, and the batch-norm
    buffers.  Indexing [torch.arange(0, shape[1])] with the boolean mask built
    from [feat_types] requires [shape[1] = len(feat_types)]. *)
Definition normalize (self : t) (bn : BatchNorm1d) (input_tensor : raw)
  : result (mat * bmask) * raw * BatchNorm1d :=
  match feat_types self with
  | [] => (Raise IndexError, input_tensor, bn)
  | _ :: _ =>
      let observed_mask := observed input_tensor in
      let x0 := zero_fill input_tensor in
      if negb (forallb (fun row => (length row =? length (feat_types self))%nat)
                       x0)
      then (Raise IndexError, stored x0, bn)
      else
        let x1 := log_transform (feat_types self) x0 in
        let '(r, bn') := real_batch_norm bn x1 in
        (normed_input <- r ;;
         Ok (restore (feat_types self) normed_input x1, observed_mask),
         stored x1, bn')
  end.

(** [F.gumbel_softmax(pi, dim=1)] with its defaults [tau=1], [hard=False]:
    softmax of the logits plus Gumbel noise. *)
Definition gumbel_softmax (gumbels : nat -> nat -> R) (pi : mat) : mat :=
  map (fun ir : nat * vec =>
         softmax (map (fun jv : nat * R => snd jv + gumbels (fst ir) (fst jv))
                      (combine (seq 0 (length (snd ir))) (snd ir))))
      (combine (seq 0 (length pi)) pi).

Definition sample_mix_components (self : t) (gumbels : nat -> nat -> R)
  (input_tensor : mat) : result mat :=
  pi <- linear (mixture_model self) input_tensor ;;
  Ok (gumbel_softmax gumbels pi).

(** [dists] is a relaxed sample that [sample_mix_components] returns on
    [input_tensor], for some draw of the Gumbel noise. *)
Definition sample_mix_components_ok (self : t) (input_tensor dists : mat)
  : Prop :=
  exists pi gumbels,
    linear (mixture_model self) input_tensor = Ok pi /\
    dists = gumbel_softmax gumbels pi.

(** [F.one_hot(torch.argmax(dists, dim=1)).float()]: no [num_classes]. *)
Definition hard_one_hot (dists : mat) : result mat :=
  idx <- argmax1 dists ;;
  one_hot (map Z.of_nat idx) (-1)%Z.

(** The part of [forward] up to the relaxed mixture sample. *)
Definition forward_mix (self : t) (bn : BatchNorm1d) (gumbels : nat -> nat -> R)
  (input_tensor : raw) : result (mat * mat * bmask) * raw * BatchNorm1d :=
  let '(r, obj, bn') := normalize self bn input_tensor in
  ('(normed, observed_mask) <- r ;;
   encoded <- categorical_encode self normed ;;
   mix_component_dists <- sample_mix_components self gumbels encoded ;;
   Ok (encoded, mix_component_dists, observed_mask),
   obj, bn').

(** The rest of [forward], from the encoded input and the mixture sample. *)
Definition forward_heads (self : t) (encoded mix_component_dists : mat)
  : result (mat * mat) :=
  mix_components <- hard_one_hot mix_component_dists ;;
  h <- sequential (hidden self) encoded ;;
  h <- cat1 h mix_components ;;
  mean <- linear (mean self) h ;;
  v <- linear (var self) h ;;
  Ok (mean, map (map (fun x => sqrt (softplus x))) v).

(** [forward]: [(mean, std, mix_component_dists, observed_mask)]. *)
Definition forward (self : t) (bn : BatchNorm1d) (gumbels : nat -> nat -> R)
  (input_tensor : raw) : result (mat * mat * mat * bmask) * raw * BatchNorm1d :=
  let '(r, obj, bn') := forward_mix self bn gumbels input_tensor in
  ('(encoded, mix_component_dists, observed_mask) <- r ;;
   '(mean, std) <- forward_heads self encoded mix_component_dists ;;
   Ok (mean, std, mix_component_dists, observed_mask),
   obj, bn').

(** The layer shapes that [__init__] creates from its arguments. *)
Definition architecture (encoded_input_size : nat) (hidden_sizes : list nat)
  : list nat := encoded_input_size :: hidden_sizes.

Definition has_shape (l : Linear) (i o : nat) : Prop :=
  in_features l = i /\ out_features l = o /\ wf_Linear l.

Definition init_shapes (hidden_sizes : list nat) (latent_dim : nat) (self : t)
  : Prop :=
  exists sz : Z,
    get_encoded_input_size (feat_types self) = Ok sz /\
    let arch := architecture (Z.to_nat sz) hidden_sizes in
    has_shape (mixture_model self) (Z.to_nat sz) (n_mix_components self) /\
    Forall2 (fun l io => has_shape l (fst io) (snd io))
            (hidden self) (combine (removelast arch) (tl arch)) /\
    has_shape (mean self) (last arch 0%nat + n_mix_components self) latent_dim /\
    has_shape (var self) (last arch 0%nat + n_mix_components self) latent_dim /\
    has_shape (p_mean self) (n_mix_components self) latent_dim /\
    has_shape (p_var self) (n_mix_components self) latent_dim.

End HIEncoder.

(* ------------------------------------------------------------------ *)
(** ** The per-feature decoders *)

(** A [Linear(hidden_size, 1)] head yields rows of one entry. *)
Definition single (row : vec) : result R :=
  match row with
  | [v] => Ok v
  | _ => Raise RuntimeError
  end.

Definition head1 (l : Linear) (hidden : mat) : result vec :=
  y <- linear l hidden ;;
  mapM single y.

Definition nth_or_index_error (l : vec) (i : nat) : result R :=
  match nth_error l i with
  | Some v => Ok v
  | None => Raise IndexError
  end.

(** The random draws of the decoders' [forward] methods, one family per
    feature: [torch.randn] (feature, sample), the Gumbel noise of
    [F.gumbel_softmax] (feature, sample, class), and the draw from
    [Poisson(rate)] (feature, sample, rate). *)
Record Noise : Type := mkNoise {
  randn : nat -> nat -> R;
  gumbel : nat -> nat -> nat -> R;
  poisson_draw : nat -> nat -> R -> nat
}.

Module NormalDecoder.

(** [reconstruction_error].  The parameters have shape [(n, 1)] and the
    input column shape [(n,)], so [Normal.log_prob] broadcasts to [(n, n)]
    (entry [i, j]: the value of sample [j] under the distribution of sample
    [i]) and [Independent(..., 1)] sums the last dimension. *)
Definition reconstruction_error (mean var : Linear) (encoder_sb : BatchNorm1d)
  (input_tensor : vec) (hidden : mat) (dim : nat) : result tensor01 :=
  rv <- nth_or_index_error (running_var encoder_sb) dim ;;
  let running_std := sqrt rv in
  running_mean <- nth_or_index_error (running_mean encoder_sb) dim ;;
  m <- head1 mean hidden ;;
  let m := map (fun v => v * running_std + running_mean) m in
  v <- head1 var hidden ;;
  let std := map (fun x => sqrt (softplus x) * running_std) v in
  let input_tensor := map (fun x => x * running_std + running_mean)
                          input_tensor in
  Ok (T1 (zip_with (fun loc scale =>
                      - rsum (map (normal_log_prob loc scale) input_tensor))
                   m std)).


(** [forward].  [self.mean(hidden).squeeze(1)] is 1-D, so the second
    [squeeze(1)] of the "mode" branch addresses a dimension that does not
    exist. *)
Definition forward (mean var : Linear) (eps : nat -> R) (hidden : mat)
  (dim : nat) (reconstruction_mode : string) : result vec :=
  m <- head1 mean hidden ;;
  if String.eqb reconstruction_mode "mode" then Raise IndexError
  else
    v <- head1 var hidden ;;
    let std := map (fun x => sqrt (softplus x)) v in
    Ok (map (fun p : nat * (R * R) =>
               fst (snd p) + eps (fst p) * snd (snd p))
            (combine (seq 0 (length m)) (combine m std))).

End NormalDecoder.

Module LogNormalDecoder.

(** [torch.exp(super().forward(hidden, dim, reconstruction_mode))] *)
Definition forward (mean var : Linear) (eps : nat -> R) (hidden : mat)
  (dim : nat) (reconstruction_mode : string) : result vec :=
  y <- NormalDecoder.forward mean var eps hidden dim reconstruction_mode ;;
  Ok (map exp y).

End LogNormalDecoder.

Module PoissonDecoder.

(** [.squeeze()] of an [(n, 1)] tensor: 0-dim when [n = 1], else [(n,)]. *)
Definition squeeze (v : vec) : tensor01 :=
  match v with
  | [r] => T0 r
  | _ => T1 v
  end.

Definition reconstruction_error (lambda_l : Linear)
  (input_tensor : vec) (hidden : mat) (dim : nat) : result tensor01 :=
  l <- head1 lambda_l hidden ;;
  let lambda_ := squeeze (map (fun x => IZR (to_int32 (softplus x))) l) in
  err <- poisson_nll_loss input_tensor lambda_ ;;
  Ok (T0 err).


Definition forward (lambda_l : Linear) (draw : nat -> R -> nat) (hidden : mat)
  (dim : nat) (reconstruction_mode : string) : result vec :=
  l <- head1 lambda_l hidden ;;
  let lambda_ := map softplus l in
  if String.eqb reconstruction_mode "mode"
  then Ok (map (fun x => IZR (to_int32 x)) lambda_)
  else Ok (map (fun p : nat * R => INR (draw (fst p) (snd p)))
               (combine (seq 0 (length lambda_)) lambda_)).

End PoissonDecoder.

Module CategoricalDecoder.

Definition reconstruction_error (linear_l : Linear)
  (input_tensor : vec) (hidden : mat) (dim : nat) : result tensor01 :=
  dists <- linear linear_l hidden ;;
  let dists := map softmax dists in
  ce <- cross_entropy dists (map trunc input_tensor) ;;
  Ok (T0 (- ce)).


Definition forward (linear_l : Linear) (gumbels : nat -> nat -> R)
  (hidden : mat) (dim : nat) (reconstruction_mode : string)
  : result (list nat) :=
  dist <- linear linear_l hidden ;;
  if String.eqb reconstruction_mode "mode" then argmax1 dist
  else argmax1 (HIEncoder.gumbel_softmax gumbels dist).

End CategoricalDecoder.

Module OrdinalDecoder.

(** [cmp[:, 0] = 0] *)
Definition set_first_zero (row : vec) : result vec :=
  match row with
  | [] => Raise IndexError
  | _ :: t => Ok (0 :: t)
  end.

Definition get_ordinal_probs (thresholds region : Linear) (hidden : mat)
  : result mat :=
  rg <- head1 region hidden ;;
  let rg := map softplus rg in
  th <- linear thresholds hidden ;;
  let th := map (fun row => cumsum (map softplus row)) th in
  let threshold_probs :=
    zip_with (fun row r => map (fun x => 1 / (1 + exp (- (x - r)))) row)
             th rg in
  cmp <- mapM (fun row => set_first_zero (roll1 row)) threshold_probs ;;
  let ordinal_probs :=
    zip_with (fun p c => zip_with Rminus p c) threshold_probs cmp in
  Ok (map softmax ordinal_probs).

Definition reconstruction_error (ft : FeatureSpec) (thresholds region : Linear)
  (input_tensor : vec) (hidden : mat) (dim : nat) : result tensor01 :=
  mn <- py_num (feat_min ft) ;;
  let input_tensor :=
    if (0 <? mn)%Z
    then map (fun x => (if Req_dec_T x 0 then IZR mn else x) - IZR mn)
             input_tensor
    else input_tensor in
  ordinal_probs <- get_ordinal_probs thresholds region hidden ;;
  ce <- cross_entropy ordinal_probs (map trunc input_tensor) ;;
  Ok (T0 (- ce)).


Definition forward (thresholds region : Linear) (gumbels : nat -> nat -> R)
  (hidden : mat) (dim : nat) (reconstruction_mode : string)
  : result (list nat) :=
  ordinal_probs <- get_ordinal_probs thresholds region hidden ;;
  if String.eqb reconstruction_mode "mode" then argmax1 ordinal_probs
  else argmax1 (HIEncoder.gumbel_softmax gumbels ordinal_probs).

End OrdinalDecoder.

(** The entries of [HIDecoder.decoding_models], one constructor per class.
    [LogNormalDecoder] inherits [reconstruction_error] from [NormalDecoder]. *)
Inductive VarDecoder : Type :=
| Normal (ft : FeatureSpec) (mean var : Linear)
| LogNormal (ft : FeatureSpec) (mean var : Linear)
| Poisson (ft : FeatureSpec) (lambda_ : Linear)
| Categorical (ft : FeatureSpec) (linear_l : Linear)
| Ordinal (ft : FeatureSpec) (thresholds region : Linear).

(** The class that [HIDecoder.__init__] picks for a feature type. *)
Definition decoder_kind (d : VarDecoder) : feat_kind :=
  match d with
  | Normal _ _ _ => real
  | LogNormal _ _ _ => positive_real
  | Poisson _ _ => count
  | Categorical _ _ => categorical
  | Ordinal _ _ _ => ordinal
  end.

(** [decoding_model.reconstruction_error(input_tensor, h, dim)] *)
Definition reconstruction_error (d : VarDecoder) (encoder_sb : BatchNorm1d)
  (input_tensor : vec) (hidden : mat) (dim : nat) : result tensor01 :=
  match d with
  | Normal _ mean var | LogNormal _ mean var =>
      NormalDecoder.reconstruction_error mean var encoder_sb
                                         input_tensor hidden dim
  | Poisson _ l => PoissonDecoder.reconstruction_error l input_tensor hidden dim
  | Categorical _ l =>
      CategoricalDecoder.reconstruction_error l input_tensor hidden dim
  | Ordinal ft th rg =>
      OrdinalDecoder.reconstruction_error ft th rg input_tensor hidden dim
  end.

(** [decoding_func(h, dim, reconstruction_mode)]: the module call runs the
    class's [forward]; the result is written into a float tensor. *)
Definition decoder_forward (d : VarDecoder) (noise : Noise) (hidden : mat)
  (dim : nat) (reconstruction_mode : string) : result vec :=
  match d with
  | Normal _ mean var =>
      NormalDecoder.forward mean var (randn noise dim) hidden dim
                            reconstruction_mode
  | LogNormal _ mean var =>
      LogNormalDecoder.forward mean var (randn noise dim) hidden dim
                               reconstruction_mode
  | Poisson _ l =>
      PoissonDecoder.forward l (poisson_draw noise dim) hidden dim
                             reconstruction_mode
  | Categorical _ l =>
      idx <- CategoricalDecoder.forward l (gumbel noise dim) hidden dim
                                        reconstruction_mode ;;
      Ok (map INR idx)
  | Ordinal _ th rg =>
      idx <- OrdinalDecoder.forward th rg (gumbel noise dim) hidden dim
                                    reconstruction_mode ;;
      Ok (map INR idx)
  end.

(* ------------------------------------------------------------------ *)
(** ** HIDecoder *)

Module HIDecoder.

Record t : Type := mk {
  hidden : list Linear;
  decoding_models : list VarDecoder
}.

(** [m[:, j] = c] for a column [c] of the right length. *)
Definition set_column (j : nat) (c : vec) (m : mat) : mat :=
  zip_with (fun row v =>
              if (j <? length row)%nat
              then firstn j row ++ v :: skipn (S j) row
              else row) m c.

(** [reconstruction_loss[~observed_mask] = 0]: the shapes must agree. *)
Definition suppress (loss : mat) (observed_mask : bmask) : result mat :=
  _ <- check ((length loss =? length observed_mask)%nat &&
              forallb (fun p => (length (fst p) =? length (snd p))%nat)
                      (combine loss observed_mask)) IndexError ;;
  Ok (zip_with (fun lrow mrow =>
                  zip_with (fun l (o : bool) => if o then l else 0) lrow mrow)
               loss observed_mask).

(** The loop over [enumerate(self.decoding_models)]. *)
Fixpoint fill_losses (models : list VarDecoder) (feat_num : nat)
  (encoder_bn : BatchNorm1d) (input_tensor h : mat) (reconstruction_loss : mat)
  : result mat :=
  match models with
  | [] => Ok reconstruction_loss
  | decoding_model :: rest =>
      col <- column feat_num input_tensor ;;
      err <- reconstruction_error decoding_model encoder_bn col h feat_num ;;
      (* the assignment broadcasts the value over the column *)
      c <- broadcast1 (length input_tensor) err ;;
      fill_losses rest (S feat_num) encoder_bn input_tensor h
                  (set_column feat_num c reconstruction_loss)
  end.

Definition reconstruction_error (self : t) (encoder_bn : BatchNorm1d)
  (input_tensor latent_tensor mix_components : mat) (observed_mask : bmask)
  : result vec :=
  h <- sequential (hidden self) latent_tensor ;;
  h <- cat1 h mix_components ;;
  let zeros := map (map (fun _ => 0)) input_tensor in
  reconstruction_loss <-
    fill_losses (decoding_models self) 0 encoder_bn input_tensor h zeros ;;
  reconstruction_loss <- suppress reconstruction_loss observed_mask ;;
  Ok (map rsum reconstruction_loss).


(** The loop of [forward] over [zip(self.feat_types, self.decoding_models)]
    (the two lists have one entry per feature by construction). *)
Fixpoint fill_reconstruction (models : list VarDecoder) (dim : nat)
  (noise : Noise) (h : mat) (reconstruction_mode : string)
  (reconstruction : mat) : result mat :=
  match models with
  | [] => Ok reconstruction
  | decoding_func :: rest =>
      v <- decoder_forward decoding_func noise h dim reconstruction_mode ;;
      c <- broadcast1 (length reconstruction) (T1 v) ;;
      fill_reconstruction rest (S dim) noise h reconstruction_mode
                          (set_column dim c reconstruction)
  end.

(** [forward], whose [reconstruction_mode] defaults to "mode". *)
Definition forward (self : t) (noise : Noise)
  (latent_tensor mix_components : mat) (reconstruction_mode : string)
  : result mat :=
  h <- sequential (hidden self) latent_tensor ;;
  h <- cat1 h mix_components ;;
  let reconstruction :=
    map (fun _ => repeat 0 (length (decoding_models self))) latent_tensor in
  fill_reconstruction (decoding_models self) 0 noise h reconstruction_mode
                      reconstruction.

End HIDecoder.

(* ------------------------------------------------------------------ *)
(** ** HIVAEModule *)

(** A tensor object as the caller holds it.  [t.float()] returns the object
    itself when its dtype is already float32 and a converted copy otherwise. *)
Inductive dtype : Type := float32 | float64.

Record Tensor : Type := mkTensor {
  tensor_dtype : dtype;
  data : raw
}.

(** What the three-name unpacking in [reconstruct] sees. *)
Inductive pyval : Type :=
| PTensor (x : mat)
| PMask (m : bmask).

Definition unpack3 (tuple : list pyval) : result (pyval * pyval * pyval) :=
  match tuple with
  | [a; b; c] => Ok (a, b, c)
  | _ => Raise ValueError
  end.

Definition as_tensor (v : pyval) : result mat :=
  match v with
  | PTensor x => Ok x
  | PMask _ => Raise TypeError
  end.

Module HIVAEModule.

Record t : Type := mk {
  latent_dim : nat;
  n_mix_components : nat;
  encoder : HIEncoder.t;
  decoder : HIDecoder.t
}.

(** [mean + eps * std] with [eps = torch.randn(mean.shape)]. *)
Definition reparameterize (eps : nat -> nat -> R) (mean std : mat) : mat :=
  map (fun irow : nat * (vec * vec) =>
         map (fun jms : nat * (R * R) =>
                fst (snd jms) + eps (fst irow) (fst jms) * snd (snd jms))
             (combine (seq 0 (length (fst (snd irow))))
                      (combine (fst (snd irow)) (snd (snd irow)))))
      (combine (seq 0 (length mean)) (combine mean std)).

(** One row of the latent KL term of [forward]. *)
Definition kl_row (latent_dim : nat) (mean std p_mean p_var : vec) : R :=
  0.5 * INR latent_dim +
  0.5 * rsum (map (fun q : (R * R) * (R * R) =>
                     let '((m, s), (pm, pv)) := q in
                     let log_p_var := ln pv in
                     let log_var := ln (s ^ 2) in
                     exp (log_var - log_p_var) + (pm - m) ^ 2 / pv
                     - log_var + log_p_var)
                  (combine (combine mean std) (combine p_mean p_var))).

Definition same_width (a b : mat) : bool :=
  (length a =? length b)%nat &&
  forallb (fun p => (length (fst p) =? length (snd p))%nat) (combine a b).

(** The latent KL term for the batch.  In a module built by [__init__] the
    four tensors have shape [(n, latent_dim)]; tensors of different shapes
    are refused here (PyTorch would still broadcast dimensions of size 1). *)
Definition kl_divergence (latent_dim : nat) (mean std p_mean p_var : mat)
  : result vec :=
  _ <- check (same_width mean std && same_width mean p_mean &&
              same_width mean p_var) RuntimeError ;;
  Ok (map (fun q : (vec * vec) * (vec * vec) =>
             kl_row latent_dim (fst (fst q)) (snd (fst q))
                    (fst (snd q)) (snd (snd q)))
          (combine (combine mean std) (combine p_mean p_var))).

Record decoder_args : Type := mkArgs {
  arg_input : mat;
  arg_latent : mat;
  arg_mix : mat;
  arg_mask : bmask;
  arg_mean : mat;
  arg_std : mat;
  arg_dists : mat
}.

(** [forward] from the encoder call to the arguments of
    [self.decoder.reconstruction_error].  [obj] is the tensor object that
    the local name [input_tensor] refers to. *)
Definition forward_args (self : t) (bn : BatchNorm1d)
  (gumbels eps : nat -> nat -> R) (obj : raw)
  : result decoder_args * raw * BatchNorm1d :=
  let '(r, obj1, bn1) := HIEncoder.forward (encoder self) bn gumbels obj in
  match r with
  | Raise e => (Raise e, obj1, bn1)
  | Ok (mean, std, mix_components_dists, observed_mask) =>
      let latent_tensor := reparameterize eps mean std in
      match HIEncoder.hard_one_hot mix_components_dists with
      | Raise e => (Raise e, obj1, bn1)
      | Ok mix_components =>
          (* the second call of normalize, on the same tensor object *)
          let '(r2, obj2, bn2) := HIEncoder.normalize (encoder self) bn1 obj1 in
          ('(input_tensor, _) <- r2 ;;
           Ok (mkArgs input_tensor latent_tensor mix_components observed_mask
                      mean std mix_components_dists),
           obj2, bn2)
      end
  end.

(** The rest of [forward]: reconstruction error, the two KL terms, the
    average negative ELBO. *)
Definition objective (self : t) (bn : BatchNorm1d) (reconstr_error_weight : R)
  (a : decoder_args) : result (vec * vec * R) :=
  reconstr_error <-
    HIDecoder.reconstruction_error (decoder self) bn (arg_input a)
      (arg_latent a) (arg_mix a) (arg_mask a) ;;
  p_mean <- linear (HIEncoder.p_mean (encoder self)) (arg_mix a) ;;
  pv <- linear (HIEncoder.p_var (encoder self)) (arg_mix a) ;;
  let p_var := map (map softplus) pv in
  kl <- kl_divergence (latent_dim self) (arg_mean a) (arg_std a) p_mean p_var ;;
  target <- argmax1 (arg_dists a) ;;
  ce <- cross_entropy (arg_dists a) (map Z.of_nat target) ;;
  (* math.log(0) is a ValueError *)
  _ <- check (0 <? n_mix_components self)%nat ValueError ;;
  let kl_s := ce + ln (INR (n_mix_components self)) in
  _ <- check (length reconstr_error =? length kl)%nat RuntimeError ;;
  let average_negative_elbo :=
    rmean (zip_with (fun re k => reconstr_error_weight * re + k + kl_s)
                    reconstr_error kl) in
  Ok (reconstr_error, kl, average_negative_elbo).

Definition mode_ok (reconstruction_mode : string) : bool :=
  String.eqb reconstruction_mode "mode" || String.eqb reconstruction_mode "sample".

(** [forward].  Besides the result it returns the content of the caller's
    tensor object after the call and the batch-norm buffers. *)
Definition forward (self : t) (bn : BatchNorm1d) (gumbels eps : nat -> nat -> R)
  (input_tensor : Tensor) (reconstr_error_weight : R)
  (reconstruction_mode : string)
  : result (vec * vec * R) * raw * BatchNorm1d :=
  match py_assert (mode_ok reconstruction_mode)
                  "reconstruction_mode has to be either 'mode' or 'sample'" with
  | Raise e => (Raise e, data input_tensor, bn)
  | Ok _ =>
      let '(r, obj, bn') := forward_args self bn gumbels eps (data input_tensor) in
      (a <- r ;; objective self bn' reconstr_error_weight a,
       match tensor_dtype input_tensor with
       | float32 => obj
       | float64 => data input_tensor
       end,
       bn')
  end.

Section Reconstruct.

(** [HIDecoder.forward] as [reconstruct] calls it, with the reconstruction
    mode string in the position of [mix_components]; it is only reached
    after the unpacking below. *)
Variable decoder_call : HIDecoder.t -> mat -> string -> result mat.

Definition as_tuple (r : mat * mat * mat * bmask) : list pyval :=
  let '(mean, std, mix_component_dists, observed_mask) := r in
  [PTensor mean; PTensor std; PTensor mix_component_dists; PMask observed_mask].

(** [reconstruct]: unpacks the encoder's return value into three names. *)
Definition reconstruct (self : t) (bn : BatchNorm1d)
  (gumbels eps : nat -> nat -> R) (input_tensor : Tensor)
  (reconstruction_mode : string) : result mat * raw * BatchNorm1d :=
  let '(r, obj, bn') :=
    HIEncoder.forward (encoder self) bn gumbels (data input_tensor) in
  (ret <- r ;;
   '(mean, std, observed_mask) <- unpack3 (as_tuple ret) ;;
   mean <- as_tensor mean ;;
   std <- as_tensor std ;;
   let latent_tensor := reparameterize eps mean std in
   decoder_call (decoder self) latent_tensor reconstruction_mode,
   match tensor_dtype input_tensor with
   | float32 => obj
   | float64 => data input_tensor
   end,
   bn').

End Reconstruct.

End HIVAEModule.

(** ** HIVAE, the wrapper class *)

Module HIVAE.

Record t : Type := mk {
  n_mix_components : nat;
  model : HIVAEModule.t
}.

Definition reconstruct (decoder_call : HIDecoder.t -> mat -> string -> result mat)
  (self : t) (bn : BatchNorm1d) (gumbels eps : nat -> nat -> R)
  (input_tensor : Tensor) (reconstruction_mode : string)
  : result mat * raw * BatchNorm1d :=
  HIVAEModule.reconstruct decoder_call (model self) bn gumbels eps
                          input_tensor reconstruction_mode.

End HIVAE.

(* ------------------------------------------------------------------ *)
(** ** Helper functions: infer_types *)

(** A 2-D numpy array of floats, [X.shape[1]] and its rows; a missing value
    is NaN.  Infinite entries, on which [astype(int)] is undefined, are not
    modelled. *)
Record ndarray : Type := mkArray {
  shape1 : nat;
  rows : raw
}.

Definition wf_ndarray (X : ndarray) : Prop :=
  Forall (fun row => length row = shape1 X) (rows X).

(** [X[:, dim]] *)
Definition take_column (X : ndarray) (dim : nat) : result (list cell) :=
  _ <- check (dim <? shape1 X)%nat IndexError ;;
  mapM (fun row => match nth_error row dim with
                   | Some c => Ok c
                   | None => Raise IndexError
                   end) (rows X).

(** [kw in feat_name] for two strings: [kw] occurs in [feat_name]. *)
Fixpoint contains (kw feat_name : string) : bool :=
  String.prefix kw feat_name ||
  match feat_name with
  | EmptyString => false
  | String _ rest => contains kw rest
  end.

(** [feat_values.astype(int)], a conversion to int64: truncation toward
    zero when the truncated value fits int64.  Out of that range the
    conversion does not return the value (what it returns depends on the
    platform; here the least int64, as on x86). *)
Definition int64_min : Z := (-9223372036854775808)%Z.
Definition int64_max : Z := 9223372036854775807%Z.

Definition astype_int (v : R) : Z :=
  if ((int64_min <=? trunc v) && (trunc v <=? int64_max))%Z
  then trunc v else int64_min.

(** One entry of [feat_values.astype(int) == feat_values]. *)
Definition is_integral (v : R) : bool :=
  if Req_dec_T (IZR (astype_int v)) v then true else false.

(** One entry of [feat_values > 0]. *)
Definition is_positive (v : R) : bool :=
  if Rlt_dec 0 v then true else false.

(** [np.min] and [np.max] raise ValueError on an empty array. *)
Definition np_min (l : list R) : result R :=
  match l with
  | [] => Raise ValueError
  | x :: t => Ok (fold_right Rmin x t)
  end.

Definition np_max (l : list R) : result R :=
  match l with
  | [] => Raise ValueError
  | x :: t => Ok (fold_right Rmax x t)
  end.

(** [len(set(feat_values))] *)
Definition n_unique (l : list R) : nat := length (nodup Req_dec_T l).

(** An entry of the returned list: the type with [np.min] and [np.max] of
    the observed values. *)
Definition InferredType : Type := (feat_kind * R * R)%type.

(** The defaults of [unique_thresh], [count_kws] and [ordinal_kws]. *)
Definition unique_thresh_default : Z := 20.
Definition count_kws_default : list string := ["num"; "count"]%string.
Definition ordinal_kws_default : list string :=
  ["scale"; "Verbal"; "Eyes"; "Motor"; "GCS"]%string.

(** The body of the loop of [infer_types] for one [(dim, feat_name)]. *)
Definition infer_type (X : ndarray) (unique_thresh : Z)
  (count_kws ordinal_kws : list string) (dim : nat) (feat_name : string)
  : result InferredType :=
  feat_values <- take_column X dim ;;
  let feat_values := keep_some feat_values in
  let feat_type :=
    if forallb is_integral feat_values then
      if existsb (fun kw => contains kw feat_name) count_kws then count
      else if existsb (fun kw => contains kw feat_name) ordinal_kws
           then ordinal
      else if (Z.of_nat (n_unique feat_values) <=? unique_thresh)%Z
           then categorical
      else real
    else
      if forallb is_positive feat_values then positive_real else real in
  mn <- np_min feat_values ;;
  mx <- np_max feat_values ;;
  Ok (feat_type, mn, mx).

Definition infer_types (X : ndarray) (feat_names : list string)
  (unique_thresh : Z) (count_kws ordinal_kws : list string)
  : result (list InferredType) :=
  mapM (fun p => infer_type X unique_thresh count_kws ordinal_kws
                            (fst p) (snd p))
       (combine (seq 0 (length feat_names)) feat_names).

(** Column [dim] of [X] holds the (non-NaN) value [v] in some row. *)
Definition holds_value (X : ndarray) (dim : nat) (v : R) : Prop :=
  exists row, In row (rows X) /\ nth_error row dim = Some (Some v).

End hi_vae.

(* ================================================================== *)
(** * novelty_estimator.py                                             *)
(* ================================================================== *)

Module novelty_estimator.

(** The bodies of the lambdas stored in [SCORING_FUNCS]. *)
Inductive scoring_lambda : Type :=
| neg_score_samples                  (* -model.score_samples(data) *)
| get_reconstr_error                 (* model.get_reconstr_error(data) *)
| neg_get_latent_prob                (* -model.get_latent_prob(data) *)
| neg_get_latent_prior_prob          (* -model.get_latent_prior_prob(data) *)
| get_reconstruction_grad_magnitude  (* model.get_reconstruction_grad_magnitude(data) *)
| entropy_predict_proba              (* entropy(model.predict_proba(data), axis=1) *)
| max_prob_predict_proba             (* max_prob(model.predict_proba(data), axis=1) *)
| get_std                            (* model.get_std(data) *)
| get_mutual_information.            (* model.get_mutual_information(data) *)

Open Scope string_scope.

(** The dict literal, in source order; its keys are pairwise distinct. *)
Definition SCORING_FUNCS : list ((string * string) * scoring_lambda) :=
  [ (("PPCA", "log_prob"), neg_score_samples);
    (("AE", "reconstr_err"), get_reconstr_error);
    (("HI-VAE", "reconstr_err"), get_reconstr_error);
    (("HI-VAE", "latent_prob"), neg_get_latent_prob);
    (("HI-VAE", "latent_prior_prob"), neg_get_latent_prior_prob);
    (("HI-VAE", "reconstr_err_grad"), get_reconstruction_grad_magnitude);
    (("VAE", "reconstr_err"), get_reconstr_error);
    (("VAE", "latent_prob"), neg_get_latent_prob);
    (("VAE", "latent_prior_prob"), neg_get_latent_prior_prob);
    (("VAE", "reconstr_err_grad"), get_reconstruction_grad_magnitude);
    (("LogReg", "entropy"), entropy_predict_proba);
    (("LogReg", "max_prob"), max_prob_predict_proba);
    (("NN", "entropy"), entropy_predict_proba);
    (("NN", "max_prob"), max_prob_predict_proba);
    (("PlattScalingNN", "entropy"), entropy_predict_proba);
    (("PlattScalingNN", "max_prob"), max_prob_predict_proba);
    (("MCDropout", "entropy"), entropy_predict_proba);
    (("MCDropout", "std"), get_std);
    (("MCDropout", "mutual_information"), get_mutual_information);
    (("BBB", "entropy"), entropy_predict_proba);
    (("BBB", "std"), get_std);
    (("BBB", "mutual_information"), get_mutual_information);
    (("NNEnsemble", "entropy"), entropy_predict_proba);
    (("NNEnsemble", "std"), get_std);
    (("NNEnsemble", "mutual_information"), get_mutual_information);
    (("BootstrappedNNEnsemble", "entropy"), entropy_predict_proba);
    (("BootstrappedNNEnsemble", "std"), get_std);
    (("BootstrappedNNEnsemble", "mutual_information"), get_mutual_information);
    (("AnchoredNNEnsemble", "entropy"), entropy_predict_proba);
    (("AnchoredNNEnsemble", "std"), get_std);
    (("AnchoredNNEnsemble", "mutual_information"), get_mutual_information) ].

Definition key_eqb (a b : string * string) : bool :=
  String.eqb (fst a) (fst b) && String.eqb (snd a) (snd b).

(** [key in d.keys()] *)
Definition dict_mem {V : Type} (k : string * string)
  (d : list ((string * string) * V)) : bool :=
  existsb (fun kv => key_eqb k (fst kv)) d.

(** [d[key]] *)
Definition dict_get {V : Type} (k : string * string)
  (d : list ((string * string) * V)) : option V :=
  match find (fun kv => key_eqb k (fst kv)) d with
  | Some kv => Some (snd kv)
  | None => None
  end.

Definition set_mem (x : string) (s : list string) : bool :=
  existsb (String.eqb x) s.

Module NoveltyEstimator.

Section WithInfo.

(** [AVAILABLE_MODELS], imported from [src.models.info]. *)
Variable AVAILABLE_MODELS : list string.

(** The trained model object, the data and the scores, and what a stored
    lambda does when it is called on them (it calls methods of the model and
    of [src.utils.metrics]). *)
Variables Model Data Score : Type.
Variable call : scoring_lambda -> Model -> Data -> result Score.

(** [self.model] exists only once [train] has run. *)
Record t : Type := mk {
  name : string;
  model : option Model
}.

Definition unknown_model_msg (self : t) : string :=
  "Unknown model " ++ name self ++ " found, has to be one of " ++
  String.concat ", " AVAILABLE_MODELS ++ ".".

Definition unknown_combination_msg (self : t) (scoring_func : string) : string :=
  "Unknown combination of " ++ name self ++ " and " ++ scoring_func ++
  " found, has it been added to SCORING_FUNCS in src.models.novelty_estimator.py?".

(** The two assertions of [get_novelty_score]. *)
Definition guards (self : t) (scoring_func : string) : result unit :=
  _ <- py_assert (set_mem (name self) AVAILABLE_MODELS)
                 (unknown_model_msg self) ;;
  py_assert (dict_mem (name self, scoring_func) SCORING_FUNCS)
            (unknown_combination_msg self scoring_func).

Definition get_novelty_score (self : t) (data : Data) (scoring_func : string)
  : result Score :=
  _ <- guards self scoring_func ;;
  f <- match dict_get (name self, scoring_func) SCORING_FUNCS with
       | Some f => Ok f
       | None => Raise KeyError
       end ;;
  m <- match model self with
       | Some m => Ok m
       | None => Raise AttributeError
       end ;;
  call f m data.

End WithInfo.

Section Training.

(** The name sets imported from [src.models.info]. *)
Variables AUTOENCODERS DENSITY_BASELINES DISCRIMINATOR_BASELINES
          ENSEMBLE_MODELS NEURAL_PREDICTORS : list string.

(** Model classes, parameter dicts, model objects, samples and labels. *)
Variables ModelType Params Model X Y : Type.

(** [self.model_type] called with the entries of [self.model_params] as
    keyword arguments. *)
Variable instantiate : ModelType -> Params -> result Model.

(** The five method calls of [train], with their arguments. *)
Inductive method_call : Type :=
| train_X (X_train : X) (train_params : Params)
    (* model.train(X_train, **train_params) *)
| fit_X (X_train : X)
    (* model.fit(X_train) *)
| fit_Xy (X_train : X) (y_train : Y)
    (* model.fit(X_train, y_train) *)
| train_with_training_params (X_train : X) (y_train : Y) (X_val : X)
    (y_val : Y) (train_params : Params)
    (* model.train(X_train, y_train, X_val, y_val, training_params=...) *)
| train_with_kwargs (X_train : X) (y_train : Y) (X_val : X) (y_val : Y)
    (train_params : Params).
    (* model.train(X_train, y_train, X_val, y_val, **train_params) *)

(** A method call returns None or raises, and leaves the model object in a
    new state either way. *)
Variable invoke : Model -> method_call -> result unit * Model.

(** The estimator object: the attributes stored by [__init__], with
    [self.name] and (once it is set) [self.model] in [base]. *)
Record obj : Type := mkObj {
  model_type : ModelType;
  model_params : Params;
  train_params : Params;
  base : t Model
}.

(** [__init__] *)
Definition init (model_type : ModelType) (model_params train_params : Params)
  (method_name : string) : obj :=
  mkObj model_type model_params train_params (mk method_name None).

(** The assignment of the newly built model to [self.model], followed by
    one method call on [self.model]. *)
Definition build_and_call (self : obj) (c : method_call)
  : result unit * obj :=
  match instantiate (model_type self) (model_params self) with
  | Raise e => (Raise e, self)
  | Ok m =>
      let (r, m') := invoke m c in
      (r, mkObj (model_type self) (model_params self) (train_params self)
                (mk (name (base self)) (Some m')))
  end.

Definition train (self : obj) (X_train : X) (y_train : Y) (X_val : X)
  (y_val : Y) : result unit * obj :=
  if set_mem (name (base self)) AUTOENCODERS then
    build_and_call self (train_X X_train (train_params self))
  else if set_mem (name (base self)) DENSITY_BASELINES then
    build_and_call self (fit_X X_train)
  else if set_mem (name (base self)) DISCRIMINATOR_BASELINES then
    build_and_call self (fit_Xy X_train y_train)
  else if set_mem (name (base self)) ENSEMBLE_MODELS then
    build_and_call self (train_with_training_params X_train y_train X_val
                                                    y_val (train_params self))
  else if set_mem (name (base self)) NEURAL_PREDICTORS then
    build_and_call self (train_with_kwargs X_train y_train X_val y_val
                                           (train_params self))
  else (Raise ValueError, self).

End Training.

End NoveltyEstimator.

End novelty_estimator.

(* ================================================================== *)
(** * model_init.py                                                    *)
(* ================================================================== *)

Module model_init.

Import novelty_estimator.

(** The classes the module imports. *)
Inductive model_class : Type :=
| PCA
| OneClassSVM
| AE
| MLP
| BayesianMLP
| NNEnsemble
| AnchoredNNEnsemble.

Open Scope string_scope.

(** The dict literal [model_classes], in source order. *)
Definition model_classes : list (string * model_class) :=
  [ ("PPCA", PCA);
    ("SVM", OneClassSVM);
    ("AE", AE);
    ("NN", MLP);
    ("BNN", BayesianMLP);
    ("MCDropout", MLP);
    ("NNEnsemble", NNEnsemble);
    ("BootstrappedNNEnsemble", NNEnsemble);
    ("AnchoredNNEnsemble", AnchoredNNEnsemble) ].

(** [d[key]] for a dict keyed by strings. *)
Definition lookup {V : Type} (k : string) (d : list (string * V)) : result V :=
  match find (fun kv => String.eqb k (fst kv)) d with
  | Some kv => Ok (snd kv)
  | None => Raise KeyError
  end.

(** [set(l)]: a set is represented by the duplicate-free list of its
    members. *)
Definition py_set (l : list string) : list string := nodup string_dec l.

(** [a.intersection(b)] *)
Definition intersection (a b : list string) : list string :=
  filter (fun x => set_mem x b) (py_set a).

Section WithInfo.

(** [AVAILABLE_MODELS] and [NEURAL_MODELS] (the members of the sets),
    [MODEL_PARAMS] and [TRAIN_PARAMS], imported from
    [uncertainty_estimation.models.info]. *)
Variables AVAILABLE_MODELS NEURAL_MODELS : list string.
Variables Params ScoringFuncs Model : Type.
Variables MODEL_PARAMS TRAIN_PARAMS : list (string * Params).

(** The dict display that puts "input_dim" in front of the model's
    parameters. *)
Variable with_input_dim : Z -> Params -> Params.

(** The order in which Python iterates over the members of a set. *)
Variable set_iter : list string -> list string.

Definition ModelInfo : Type :=
  (NoveltyEstimator.obj model_class Params Model * ScoringFuncs * string)%type.

Definition unknown_models_msg (selection : list string) : string :=
  "Unknown models specified: " ++
  String.concat ", "
    (filter (fun name => negb (set_mem name AVAILABLE_MODELS))
            (set_iter selection)).

(** One element of the list comprehension. *)
Definition init_model (input_dim : Z)
  (scoring_funcs : list (string * ScoringFuncs)) (model_name : string)
  : result ModelInfo :=
  cls <- lookup model_name model_classes ;;
  model_params <-
    (if negb (set_mem model_name NEURAL_MODELS)
     then lookup model_name MODEL_PARAMS
     else (p <- lookup model_name MODEL_PARAMS ;;
           Ok (with_input_dim input_dim p))) ;;
  train_params <- lookup model_name TRAIN_PARAMS ;;
  let estimator :=
    NoveltyEstimator.init Model cls model_params train_params model_name in
  funcs <- lookup model_name scoring_funcs ;;
  Ok (estimator, funcs, model_name).

Definition init_models (input_dim : Z) (selection : list string)
  (scoring_funcs : list (string * ScoringFuncs)) : result (list ModelInfo) :=
  let selection := py_set selection in
  _ <- py_assert (length (intersection AVAILABLE_MODELS selection)
                  =? length selection)%nat
                 (unknown_models_msg selection) ;;
  mapM (init_model input_dim scoring_funcs) (set_iter selection).

End WithInfo.

End model_init.

(* ================================================================== *)
(** * Reference definitions, written from the specification            *)
(* ================================================================== *)

Module Reference.

Import hi_vae.

Open Scope R_scope.

(** The classic closed form of the KL divergence between the diagonal
    Gaussian N(mean, std^2) and the standard normal:
    one half of the sum of [std^2 + mean^2 - 1 - ln (std^2)]. *)
Definition classic_gaussian_kl (mean std : vec) : R :=
  0.5 * rsum (map (fun ms : R * R =>
                     snd ms ^ 2 + fst ms ^ 2 - 1 - ln (snd ms ^ 2))
                  (combine mean std)).

(** The encoded width of a feature as the specification gives it: 1 for
    real, positive_real and count, max+1 for categorical, max-min+1 for
    ordinal (0 where a needed bound is not given). *)
Definition encoded_width (s : FeatureSpec) : Z :=
  match feat_type s, feat_min s, feat_max s with
  | categorical, _, Some mx => mx + 1
  | ordinal, Some mn, Some mx => mx - mn + 1
  | categorical, _, None => 0
  | ordinal, _, _ => 0
  | _, _, _ => 1
  end%Z.

Definition sum_encoded_width (ft : FeatTypes) : Z :=
  fold_right Z.add 0%Z (map encoded_width ft).

(** A value that is in range for its feature: an integer code in [0, max]
    for a categorical feature, a value in [min, max] for an ordinal one; no
    constraint on the other types. *)
Definition in_range (s : FeatureSpec) (v : R) : Prop :=
  match feat_type s with
  | categorical =>
      exists mx, feat_max s = Some mx /\ (0 <= trunc v <= mx)%Z
  | ordinal =>
      exists mn mx, feat_min s = Some mn /\ feat_max s = Some mx /\
                    IZR mn <= v <= IZR mx
  | _ => True
  end.

(** Column [dim] exists in every row and holds values in range for [s]. *)
Definition col_ok (s : FeatureSpec) (dim : nat) (input_tensor : mat) : Prop :=
  Forall (fun row => exists v, nth_error row dim = Some v /\ in_range s v)
         input_tensor.

End Reference.

(* ================================================================== *)
(** * Concrete models and inputs used below                            *)
(* ================================================================== *)

Module Examples.

Import hi_vae.

Open Scope R_scope.

(** Batch-norm buffers as [__init__] leaves them, for [k] features. *)
Definition bn_init (k : nat) (training : bool) : BatchNorm1d :=
  mkBN k (repeat 0 k) (repeat 1 k) 0 training.

(** An encoder over the single feature [kind], with [n_mix] mixture
    components, no hidden layer, latent dimension 1 and all weights 0. *)
Definition encoder1 (kind : feat_kind) (n_mix : nat) : HIEncoder.t :=
  HIEncoder.mk n_mix [mkSpec kind None None]
    (mkLinear 1 n_mix (repeat [0] n_mix) (repeat 0 n_mix))
    []
    (mkLinear (1 + n_mix) 1 [repeat 0 (1 + n_mix)] [0])
    (mkLinear (1 + n_mix) 1 [repeat 0 (1 + n_mix)] [0])
    (mkLinear n_mix 1 [repeat 0 n_mix] [0])
    (mkLinear n_mix 1 [repeat 0 n_mix] [0]).

Definition no_noise : nat -> nat -> R := fun _ _ => 0.

(** An encoder with the given feature types whose layers are irrelevant
    (the methods that only read [feat_types] are exercised on it). *)
Definition encoder_with_types (ft : FeatTypes) : HIEncoder.t :=
  HIEncoder.mk 1 ft (mkLinear 0 0 [] []) [] (mkLinear 0 0 [] [])
               (mkLinear 0 0 [] []) (mkLinear 0 0 [] []) (mkLinear 0 0 [] []).

(** The module around [encoder1]; its decoder has no decoding model. *)
Definition module1 (kind : feat_kind) (n_mix : nat) : HIVAEModule.t :=
  HIVAEModule.mk 1 n_mix (encoder1 kind n_mix) (HIDecoder.mk [] []).

(** A decoder over one categorical feature with classes 0 and 1, for latent
    dimension 1, one mixture component and no hidden layer.  Its head has
    weights 0 and bias (0, 1), so its logits are (0, 1) for every sample. *)
Definition binary_spec : FeatureSpec := mkSpec categorical None (Some 1%Z).

Definition binary_head : Linear := mkLinear 2 2 [[0; 0]; [0; 0]] [0; 1].

Definition binary_decoder : HIDecoder.t :=
  HIDecoder.mk [] [Categorical binary_spec binary_head].

(** Two samples: latent vectors, hard mixture one-hots, and a mask in which
    the cell of the second sample is unobserved. *)
Definition latent2 : mat := [[0]; [0]].
Definition mix2 : mat := [[1]; [1]].
Definition second_unobserved : bmask := [[true]; [false]].

(** [("real", None, None), ("categorical", None, 2), ("ordinal", 1, 3)] *)
Definition mixed_types : FeatTypes :=
  [mkSpec real None None; mkSpec categorical None (Some 2%Z);
   mkSpec ordinal (Some 1%Z) (Some 3%Z)].


(** The heads of an ordinal decoder for the codes 1..3, on a hidden state
    of width 2, all weights 0. *)
Definition ordinal_spec : FeatureSpec := mkSpec ordinal (Some 1%Z) (Some 3%Z).

Definition ordinal_thresholds : Linear :=
  mkLinear 2 3 [[0; 0]; [0; 0]; [0; 0]] [0; 0; 0].

Definition ordinal_region : Linear := mkLinear 2 1 [[0; 0]] [0].

(** Heads with one output, weights 0 and bias [b], on a hidden state of
    width 2. *)
Definition head_const (b : R) : Linear := mkLinear 2 1 [[0; 0]] [b].

Definition zero_noise : Noise :=
  mkNoise (fun _ _ => 0) (fun _ _ _ => 0) (fun _ _ _ => 0%nat).

(** A 3 x 2 array with one missing value, and the names of its columns. *)
Definition array1 : ndarray :=
  mkArray 2 [[Some 1; Some 0]; [None; Some 2]; [Some 3; Some 1]].

Definition names1 : list string := ["num_visits"; "sex"]%string.

Definition categorical_upto (mx : Z) : FeatureSpec :=
  mkSpec categorical None (Some mx).

(** A toy model for the estimator: a counter of the method calls made on
    it, scored by pairing the lambda with the counter plus the data. *)
Definition toy_instantiate (_ _ : unit) : result nat := Ok 0%nat.

Definition toy_invoke (m : nat)
  (_ : novelty_estimator.NoveltyEstimator.method_call unit unit unit)
  : result unit * nat := (Ok tt, S m).

Definition toy_call (l : novelty_estimator.scoring_lambda) (m d : nat)
  : result (novelty_estimator.scoring_lambda * nat) := Ok (l, (m + d)%nat).

Definition ae_estimator
  : novelty_estimator.NoveltyEstimator.obj unit unit nat :=
  novelty_estimator.NoveltyEstimator.init nat tt tt tt "AE".

Definition ae_trained
  : novelty_estimator.NoveltyEstimator.obj unit unit nat :=
  novelty_estimator.NoveltyEstimator.mkObj tt tt tt
    (novelty_estimator.NoveltyEstimator.mk "AE" (Some 1%nat)).

(** A selection of two models, one of them named twice, with integer
    parameters, and the list [init_models] builds for input dimension 5. *)
Definition selection1 : list string := ["AE"; "AE"; "PPCA"]%string.

Definition params1 : list (string * Z) := [("PPCA", 0); ("AE", 1)]%string%Z.

Definition scoring_funcs1 : list (string * list string) :=
  [("PPCA", ["log_prob"]); ("AE", ["reconstr_err"])]%string.

Definition infos1 : list (model_init.ModelInfo Z (list string) unit) :=
  [ (novelty_estimator.NoveltyEstimator.init unit model_init.AE 6%Z 1%Z "AE",
     ["reconstr_err"]%string, "AE"%string);
    (novelty_estimator.NoveltyEstimator.init unit model_init.PCA 0%Z 0%Z "PPCA",
     ["log_prob"]%string, "PPCA"%string) ].

End Examples.

(* ================================================================== *)
(** * Properties                                                       *)
(* ================================================================== *)

Import hi_vae.

Open Scope R_scope.

Unset Implicit Arguments.

(** ** Generic facts about the embedding *)

Lemma bind_ok_inv {A B : Type} (r : result A) (k : A -> result B) (b : B) :
  bind r k = Ok b -> exists a, r = Ok a /\ k a = Ok b.
Proof.
  destruct r as [a|e]; simpl; intros H; [eauto | discriminate].
Qed.

Lemma check_ok_inv (c : bool) (e : error) (u : unit) :
  check c e = Ok u -> c = true.
Proof. destruct c; simpl; [reflexivity | discriminate]. Qed.

Lemma mapM_ok_length {A B : Type} (f : A -> result B) (l : list A) (r : list B) :
  mapM f l = Ok r -> length r = length l.
Proof.
  revert r; induction l as [|a l IH]; simpl; intros r H.
  - inversion H; reflexivity.
  - destruct (f a) as [b|e]; [|discriminate].
    destruct (mapM f l) as [bs|e]; [|discriminate].
    inversion H; subst; simpl; f_equal; apply IH; reflexivity.
Qed.

Lemma mapM_ok_Forall2 {A B : Type} (f : A -> result B) (l : list A) (r : list B) :
  mapM f l = Ok r -> Forall2 (fun a b => f a = Ok b) l r.
Proof.
  revert r; induction l as [|a l IH]; simpl; intros r H.
  - inversion H; constructor.
  - destruct (f a) as [b|e] eqn:Hf; [|discriminate].
    destruct (mapM f l) as [bs|e]; [|discriminate].
    inversion H; subst; constructor; [assumption | apply IH; reflexivity].
Qed.

Lemma zip_with_length {A B C : Type} (f : A -> B -> C) (la : list A) (lb : list B) :
  length (zip_with f la lb) = Nat.min (length la) (length lb).
Proof.
  revert lb; induction la as [|a la IH]; intros [|b lb]; simpl; auto.
Qed.

Lemma Int_part_IZR (z : Z) : Int_part (IZR z) = z.
Proof.
  unfold Int_part.
  assert (H : up (IZR z) = (z + 1)%Z).
  { symmetry; apply tech_up; rewrite plus_IZR; simpl; lra. }
  rewrite H; lia.
Qed.

Lemma trunc_IZR (z : Z) : trunc (IZR z) = z.
Proof.
  unfold trunc; destruct (Rle_dec 0 (IZR z)) as [_|Hn].
  - apply Int_part_IZR.
  - rewrite <- opp_IZR, Int_part_IZR; lia.
Qed.

(** ** The embedding on small inputs *)

Example encoded_size_mixed :
  HIEncoder.get_encoded_input_size Examples.mixed_types = Ok 7%Z.
Proof. reflexivity. Qed.

Example one_hot_with_classes :
  one_hot [2; 0]%Z 3 = Ok [[0; 0; 1]; [1; 0; 0]].
Proof. reflexivity. Qed.

Example one_hot_inferred :
  one_hot [1; 0]%Z (-1) = Ok [[0; 1]; [1; 0]] /\
  one_hot [0; 0]%Z (-1) = Ok [[1]; [1]].
Proof. split; reflexivity. Qed.

Example one_hot_out_of_range : one_hot [3]%Z 3 = Raise RuntimeError.
Proof. reflexivity. Qed.

Example observed_and_zero_fill :
  HIEncoder.observed [[Some 4; None]] = [[true; false]] /\
  HIEncoder.zero_fill [[Some 4; None]] = [[4; 0]].
Proof. split; reflexivity. Qed.

Example roll_and_cumsum :
  roll1 [1; 2; 3] = [3; 1; 2] /\ cumsum [1; 2] = [0 + 1; 0 + 1 + 2].
Proof. split; reflexivity. Qed.

Example unpack_four_into_three :
  unpack3 [PTensor []; PTensor []; PTensor []; PMask []] = Raise ValueError.
Proof. reflexivity. Qed.

(* ------------------------------------------------------------------ *)
(** ** Dispatch of scoring functions (novelty_estimator.py) *)

Section Dispatch.

Import novelty_estimator.
Import novelty_estimator.NoveltyEstimator.

Variable AVAILABLE_MODELS : list string.
Variables Model Data Score : Type.
Variable call : scoring_lambda -> Model -> Data -> result Score.

Lemma dict_mem_get {V : Type} (k : string * string)
  (d : list ((string * string) * V)) :
  dict_mem k d = false <-> dict_get k d = None.
Proof.
  unfold dict_mem, dict_get.
  induction d as [|kv d IH]; simpl; [tauto|].
  destruct (key_eqb k (fst kv)); simpl; [split; discriminate | exact IH].
Qed.

(** C7.  The assertions of [get_novelty_score] fail, with one of the two
    descriptive messages, exactly when the estimator's name is not in
    [AVAILABLE_MODELS] or the pair (name, scoring function) is not a key of
    [SCORING_FUNCS]; a failed assertion is what the call raises; and when
    both pass, the call is the call of the lambda registered for the pair,
    on the trained model and the data. *)
Theorem get_novelty_score_dispatch :
  forall (self : t Model) (data : Data) (scoring_func : string),
    ((exists e, guards AVAILABLE_MODELS self scoring_func = Raise e) <->
     (set_mem (name self) AVAILABLE_MODELS = false \/
      dict_get (name self, scoring_func) SCORING_FUNCS = None)) /\
    (forall e, guards AVAILABLE_MODELS self scoring_func = Raise e ->
       (e = AssertionError (unknown_model_msg AVAILABLE_MODELS self) \/
        e = AssertionError (unknown_combination_msg self scoring_func)) /\
       get_novelty_score AVAILABLE_MODELS call self data scoring_func = Raise e) /\
    (forall f m,
       set_mem (name self) AVAILABLE_MODELS = true ->
       dict_get (name self, scoring_func) SCORING_FUNCS = Some f ->
       model self = Some m ->
       get_novelty_score AVAILABLE_MODELS call self data scoring_func
       = call f m data).
Proof.
  intros self data sf.
  unfold get_novelty_score, guards.
  destruct (set_mem (name self) AVAILABLE_MODELS) eqn:Hm;
    destruct (dict_mem (name self, sf) SCORING_FUNCS) eqn:Hk;
    cbv [bind py_assert].
  - assert (Hget : dict_get (name self, sf) SCORING_FUNCS <> None).
    { intro Hn; apply dict_mem_get in Hn; congruence. }
    split; [split|split].
    + intros [e He]; discriminate.
    + intros [H|H]; [discriminate | contradiction].
    + intros e He; discriminate.
    + intros f m _ Hf Hmod; rewrite Hf, Hmod; reflexivity.
  - apply dict_mem_get in Hk.
    split; [split|split].
    + intros _; right; exact Hk.
    + intros _; eexists; reflexivity.
    + intros e He; inversion He; subst; split; [right|]; reflexivity.
    + intros f m _ Hf; congruence.
  - split; [split|split].
    + intros _; left; reflexivity.
    + intros _; eexists; reflexivity.
    + intros e He; inversion He; subst; split; [left|]; reflexivity.
    + intros f m Hf; discriminate.
  - split; [split|split].
    + intros _; left; reflexivity.
    + intros _; eexists; reflexivity.
    + intros e He; inversion He; subst; split; [left|]; reflexivity.
    + intros f m Hf; discriminate.
Qed.

End Dispatch.

(** The pair ("NN", "entropy") with "NN" an available model: the call is the
    registered entropy lambda. *)
Lemma get_novelty_score_dispatch_witness :
  novelty_estimator.NoveltyEstimator.get_novelty_score
    ["PPCA"; "NN"]%string (fun f (_ : unit) (d : nat) => Ok (f, d))
    (novelty_estimator.NoveltyEstimator.mk "NN" (Some tt)) 7%nat "entropy"
  = Ok (novelty_estimator.entropy_predict_proba, 7%nat).
Proof.
  apply (proj2 (proj2 (get_novelty_score_dispatch
                         ["PPCA"; "NN"]%string _ _ _
                         (fun f (_ : unit) (d : nat) => Ok (f, d))
                         (novelty_estimator.NoveltyEstimator.mk "NN" (Some tt))
                         7%nat "entropy"))
               novelty_estimator.entropy_predict_proba tt); reflexivity.
Defined.

(** The unregistered pair ("PPCA", "entropy") is refused with the message
    about the unknown combination. *)
Example ppca_entropy_refused :
  novelty_estimator.NoveltyEstimator.get_novelty_score
    ["PPCA"; "NN"]%string (fun f (_ : unit) (d : nat) => Ok (f, d))
    (novelty_estimator.NoveltyEstimator.mk "PPCA" (Some tt)) 7%nat "entropy"
  = Raise (AssertionError
      "Unknown combination of PPCA and entropy found, has it been added to SCORING_FUNCS in src.models.novelty_estimator.py?").
Proof. reflexivity. Qed.

(* ------------------------------------------------------------------ *)
(** ** The latent KL term of HIVAEModule.forward *)

Section LatentKL.

Import HIVAEModule Reference.

(** The summand of [kl_row] under a standard-normal prior. *)
Lemma kl_summand_standard (m s : R) :
  0 < s ->
  exp (ln (s ^ 2) - ln 1) + (0 - m) ^ 2 / 1 - ln (s ^ 2) + ln 1
  = (s ^ 2 + m ^ 2 - 1 - ln (s ^ 2)) + 1.
Proof.
  intros Hs.
  assert (Hs2 : 0 < s ^ 2) by (apply pow_lt; exact Hs).
  rewrite ln_1, Rminus_0_r, (exp_ln _ Hs2).
  field.
Qed.

Lemma kl_sum_standard (mean std : vec) :
  length mean = length std ->
  Forall (fun s => 0 < s) std ->
  rsum (map (fun q : (R * R) * (R * R) =>
               let '((m, s), (pm, pv)) := q in
               let log_p_var := ln pv in
               let log_var := ln (s ^ 2) in
               exp (log_var - log_p_var) + (pm - m) ^ 2 / pv
               - log_var + log_p_var)
            (combine (combine mean std)
                     (combine (repeat 0 (length mean))
                              (repeat 1 (length mean)))))
  = rsum (map (fun ms : R * R =>
                 snd ms ^ 2 + fst ms ^ 2 - 1 - ln (snd ms ^ 2))
              (combine mean std))
    + INR (length mean).
Proof.
  revert std; induction mean as [|m mean IH]; intros [|s std] Hlen Hpos;
    try discriminate.
  - simpl; lra.
  - inversion Hpos as [|? ? Hs Hpos']; subst.
    injection Hlen as Hlen.
    change (length (m :: mean)) with (S (length mean)).
    rewrite S_INR.
    cbn [repeat combine map rsum fold_right fst snd].
    fold (rsum (map (fun q : (R * R) * (R * R) =>
               let '((m, s), (pm, pv)) := q in
               let log_p_var := ln pv in
               let log_var := ln (s ^ 2) in
               exp (log_var - log_p_var) + (pm - m) ^ 2 / pv
               - log_var + log_p_var)
            (combine (combine mean std)
                     (combine (repeat 0 (length mean))
                              (repeat 1 (length mean)))))).
    rewrite (IH std Hlen Hpos').
    rewrite (kl_summand_standard m s Hs).
    unfold rsum; lra.
Qed.

(** C5.  With the prior fixed to the standard normal (p_mean = 0,
    p_var = 1) and std > 0, the latent KL term that [forward] computes is
    not the classic closed form but exceeds it by exactly the latent
    dimension: the constant enters as [+ 0.5 * latent_dim] where the closed
    form has [- 0.5 * latent_dim]. *)
Theorem kl_row_standard_prior (mean std : vec) :
  length mean = length std ->
  Forall (fun s => 0 < s) std ->
  kl_row (length mean) mean std
         (repeat 0 (length mean)) (repeat 1 (length mean))
  = classic_gaussian_kl mean std + INR (length mean).
Proof.
  intros Hlen Hpos.
  unfold kl_row, classic_gaussian_kl.
  pose proof (kl_sum_standard mean std Hlen Hpos) as Hsum.
  cbv zeta in Hsum; rewrite Hsum.
  lra.
Qed.

End LatentKL.

(** One latent dimension, mean 0 and std 1: the classic divergence is 0,
    the code's term is 1. *)
Lemma kl_row_standard_prior_witness :
  HIVAEModule.kl_row 1 [0] [1] [0] [1] = Reference.classic_gaussian_kl [0] [1] + 1
  /\ Reference.classic_gaussian_kl [0] [1] = 0.
Proof.
  split.
  - apply (kl_row_standard_prior [0] [1]).
    + reflexivity.
    + constructor; [lra | constructor].
  - unfold Reference.classic_gaussian_kl; simpl.
    replace (1 * (1 * 1)) with 1 by lra.
    rewrite ln_1; lra.
Defined.

(* ------------------------------------------------------------------ *)
(** ** HIVAE.reconstruct *)

(** C6.  [reconstruct] never returns a reconstruction: the encoder's
    [forward] returns four values, the unpacking in [reconstruct] names
    three, so every call raises (the encoder's own exception, or the
    ValueError of the unpacking), whatever the input, the mode and the
    decoder do. *)
Theorem reconstruct_always_raises :
  forall decoder_call (self : HIVAE.t) bn gumbels eps input_tensor mode,
  exists e,
    fst (fst (HIVAE.reconstruct decoder_call self bn gumbels eps
                                input_tensor mode)) = Raise e.
Proof.
  intros dc self bn g eps x mode.
  unfold HIVAE.reconstruct, HIVAEModule.reconstruct.
  destruct (HIEncoder.forward (HIVAEModule.encoder (HIVAE.model self)) bn g
                              (data x)) as [[r obj] bn'].
  destruct r as [[[[m s] d] o]|e]; simpl; eexists; reflexivity.
Qed.

(** When the encoder succeeds, the exception is the unpacking's. *)
Lemma reconstruct_unpack_error :
  forall decoder_call (self : HIVAE.t) bn gumbels eps input_tensor mode
         ret obj bn',
    HIEncoder.forward (HIVAEModule.encoder (HIVAE.model self)) bn gumbels
                      (data input_tensor) = (Ok ret, obj, bn') ->
    fst (fst (HIVAE.reconstruct decoder_call self bn gumbels eps
                                input_tensor mode)) = Raise ValueError.
Proof.
  intros dc self bn g eps x mode ret obj bn' H.
  unfold HIVAE.reconstruct, HIVAEModule.reconstruct.
  rewrite H.
  destruct ret as [[[m s] d] o]; reflexivity.
Qed.

(* ------------------------------------------------------------------ *)
(** ** The running statistics of the encoder's batch norm *)

Lemma zip_with_repeat_l {A B C : Type} (f : A -> B -> C) (a : A) (n : nat)
  (l : list B) :
  length l = n -> zip_with f (repeat a n) l = map (f a) l.
Proof.
  intros <-; induction l as [|b l IH]; simpl; [reflexivity | now rewrite IH].
Qed.

Lemma reset_hook_idempotent (bn : BatchNorm1d) :
  HIEncoder.batch_norm_reset_hook (HIEncoder.batch_norm_reset_hook bn)
  = HIEncoder.batch_norm_reset_hook bn.
Proof.
  unfold HIEncoder.batch_norm_reset_hook; simpl.
  now rewrite !repeat_length.
Qed.

(** C3, as amended.  The running statistics are reset before every forward
    pass of the batch-norm layer, so a pass never sees what earlier passes
    left; after a training batch they hold that batch's statistics alone,
    blended once with the reset values 0 and 1; and the decoder part of
    [HIVAEModule.forward] leaves the buffers as the last call of [normalize]
    left them. *)
Theorem running_stats_reset_every_pass :
  (forall bn x,
     HIEncoder.real_batch_norm bn x
     = HIEncoder.real_batch_norm (HIEncoder.batch_norm_reset_hook bn) x) /\
  (forall bn x y bn',
     training bn = true ->
     length (running_mean bn) = num_features bn ->
     length (running_var bn) = num_features bn ->
     HIEncoder.real_batch_norm bn x = (Ok y, bn') ->
     running_mean bn'
     = map (fun j => bn_momentum * batch_mean (col_or_zero j x))
           (seq 0 (num_features bn)) /\
     running_var bn'
     = map (fun j => (1 - bn_momentum)
                     + bn_momentum * batch_var_unbiased (col_or_zero j x))
           (seq 0 (num_features bn)) /\
     num_batches_tracked bn' = 1) /\
  (forall self bn gumbels eps input_tensor w mode,
     HIVAEModule.mode_ok mode = true ->
     snd (HIVAEModule.forward self bn gumbels eps input_tensor w mode)
     = snd (HIVAEModule.forward_args self bn gumbels eps (data input_tensor))).
Proof.
  split; [|split].
  - intros bn x; unfold HIEncoder.real_batch_norm.
    now rewrite reset_hook_idempotent.
  - intros bn x y bn' Htr Hm Hv H.
    unfold HIEncoder.real_batch_norm, bn_forward in H.
    cbn [HIEncoder.batch_norm_reset_hook training num_features running_mean
         running_var num_batches_tracked] in H.
    rewrite Htr in H.
    destruct (length x =? 1)%nat; [discriminate|].
    destruct (negb _); [discriminate|].
    inversion H; subst; clear H; cbn [running_mean running_var
                                      num_batches_tracked].
    split; [|split].
    + rewrite Hm, zip_with_repeat_l
        by (now rewrite !length_map, length_seq).
      rewrite !map_map; apply map_ext; intros j; lra.
    + rewrite Hv, zip_with_repeat_l
        by (now rewrite !length_map, length_seq).
      rewrite !map_map; apply map_ext; intros j; lra.
    + lra.
  - intros self bn g eps x w mode Hmode.
    unfold HIVAEModule.forward; rewrite Hmode; simpl.
    destruct (HIVAEModule.forward_args self bn g eps (data x)) as [[r o] b].
    reflexivity.
Qed.

(** Two training batches in a row from fresh buffers: after the second
    batch the running mean is that batch's alone (0), not the blend of the
    running mean left by the first batch (1) with it. *)
Lemma running_stats_do_not_accumulate :
  exists y1 bn1 y2 bn2,
    HIEncoder.real_batch_norm (Examples.bn_init 1 true) [[10]; [10]]
    = (Ok y1, bn1) /\
    running_mean bn1 = [1] /\
    HIEncoder.real_batch_norm bn1 [[0]; [0]] = (Ok y2, bn2) /\
    running_mean bn2 = [0] /\
    running_mean bn2
    <> [(1 - bn_momentum) * 1 + bn_momentum * batch_mean [0; 0]].
Proof.
  do 4 eexists.
  split; [reflexivity|].
  split.
  { cbn [running_mean zip_with map seq col_or_zero nth num_features
         Examples.bn_init repeat].
    unfold batch_mean, rmean, rsum, bn_momentum; simpl.
    f_equal; lra. }
  split; [reflexivity|].
  assert (H0 : forall r : R,
             [(1 - bn_momentum) * 0 + bn_momentum * batch_mean [0; 0]] = [0]).
  { intros _; unfold batch_mean, rmean, rsum, bn_momentum; simpl.
    f_equal; lra. }
  split.
  - cbn [running_mean zip_with map seq col_or_zero nth num_features
         Examples.bn_init repeat length HIEncoder.batch_norm_reset_hook].
    apply (H0 0).
  - cbn [running_mean zip_with map seq col_or_zero nth num_features
         Examples.bn_init repeat length HIEncoder.batch_norm_reset_hook].
    rewrite (H0 0).
    unfold batch_mean, rmean, rsum, bn_momentum; simpl.
    intros H; injection H as H; lra.
Qed.

(** A training batch of two rows over one feature, from used buffers. *)
Lemma running_stats_reset_every_pass_witness :
  exists y bn',
    HIEncoder.real_batch_norm (mkBN 1 [5] [7] 3 true) [[2]; [4]] = (Ok y, bn') /\
    running_mean bn'
    = map (fun j => bn_momentum * batch_mean (col_or_zero j [[2]; [4]]))
          (seq 0 1) /\
    num_batches_tracked bn' = 1.
Proof.
  do 2 eexists; split; [reflexivity|].
  pose proof (proj1 (proj2 running_stats_reset_every_pass)
                (mkBN 1 [5] [7] 3 true) [[2]; [4]] _ _
                eq_refl eq_refl eq_refl eq_refl) as [Hm [_ Hn]].
  split; [exact Hm | exact Hn].
Defined.

(* ------------------------------------------------------------------ *)
(** ** HIEncoder.normalize: which columns batch normalisation changes *)

Lemma nth_error_zip_with {A B C : Type} (f : A -> B -> C) (la : list A)
  (lb : list B) (i : nat) (c : C) :
  nth_error (zip_with f la lb) i = Some c ->
  exists a b, nth_error la i = Some a /\ nth_error lb i = Some b /\ c = f a b.
Proof.
  revert lb i; induction la as [|a la IH]; intros [|b lb] [|i]; simpl;
    try discriminate.
  - intros H; inversion H; eauto.
  - apply IH.
Qed.

Lemma nth_error_combine {A B : Type} (la : list A) (lb : list B) (i : nat)
  (p : A * B) :
  nth_error (combine la lb) i = Some p ->
  nth_error la i = Some (fst p) /\ nth_error lb i = Some (snd p).
Proof.
  revert lb i; induction la as [|a la IH]; intros [|b lb] [|i]; simpl;
    try discriminate.
  - intros H; inversion H; auto.
  - apply IH.
Qed.

(** An entry of [restore]'s result in a column of [real_mask] is the entry
    of the un-normalised tensor. *)
Lemma restore_masked_entry (ft : FeatTypes) (normed x : mat) (i j : nat)
  (row : vec) (v : R) (s : FeatureSpec) :
  nth_error (HIEncoder.restore ft normed x) i = Some row ->
  nth_error row j = Some v ->
  nth_error ft j = Some s ->
  real_mask (feat_type s) = true ->
  exists xrow, nth_error x i = Some xrow /\ nth_error xrow j = Some v.
Proof.
  unfold HIEncoder.restore; intros Hrow Hv Hs Hmask.
  apply nth_error_zip_with in Hrow as (nrow & xrow & _ & Hx & ->).
  exists xrow; split; [exact Hx|].
  apply nth_error_zip_with in Hv as (s' & ni & Hs' & Hni & ->).
  rewrite Hs in Hs'; inversion Hs'; subst s'.
  rewrite Hmask.
  apply nth_error_combine in Hni; tauto.
Qed.

Lemma nth_error_repeat_pair_gen (a b : R) (k k' j : nat) (p : R * R) :
  nth_error (combine (repeat a k) (repeat b k')) j = Some p -> p = (a, b).
Proof.
  intros H; apply nth_error_combine in H as (Ha & Hb).
  apply nth_error_In, repeat_spec in Ha.
  apply nth_error_In, repeat_spec in Hb.
  destruct p; cbn in *; congruence.
Qed.

Lemma nth_error_map_seq {A : Type} (f : nat -> A) (start n j : nat) (y : A) :
  nth_error (map f (seq start n)) j = Some y -> y = f (start + j)%nat.
Proof.
  revert start j; induction n as [|n IH]; intros start [|j] H; cbn in H;
    try discriminate.
  - injection H as <-; f_equal; lia.
  - apply IH in H; subst y; f_equal; lia.
Qed.

(** What [normalize] returns in row [i], column [j], for a feature [s]:
    the zero-filled entry [z0], log-transformed when the type is
    positive_real or count, is kept as it is in a column of [real_mask] and
    batch-normalised otherwise, with the batch statistics of the column in
    training mode and the reset running statistics (0 and 1) in evaluation
    mode. *)
Lemma normalize_entry (self : HIEncoder.t) bn (x : raw) normed mask obj bn'
  (i j : nat) (row : vec) (v : R) (s : FeatureSpec) :
  HIEncoder.normalize self bn x = (Ok (normed, mask), obj, bn') ->
  nth_error normed i = Some row ->
  nth_error row j = Some v ->
  nth_error (HIEncoder.feat_types self) j = Some s ->
  exists zrow z0 xrow,
    nth_error (HIEncoder.zero_fill x) i = Some zrow /\
    nth_error zrow j = Some z0 /\
    nth_error (HIEncoder.log_transform (HIEncoder.feat_types self)
                 (HIEncoder.zero_fill x)) i = Some xrow /\
    nth_error xrow j
    = Some (if is_log_type (feat_type s)
            then ln (relu z0 + HIEncoder.log_eps) else z0) /\
    v = (let z := if is_log_type (feat_type s)
                  then ln (relu z0 + HIEncoder.log_eps) else z0 in
         let col := col_or_zero j
                      (HIEncoder.log_transform (HIEncoder.feat_types self)
                         (HIEncoder.zero_fill x)) in
         if real_mask (feat_type s) then z
         else if training bn
              then (z - batch_mean col) / sqrt (batch_var_biased col + bn_eps)
              else (z - 0) / sqrt (1 + bn_eps)).
Proof.
  intros Hn Hrow Hv Hs.
  unfold HIEncoder.normalize in Hn.
  destruct (HIEncoder.feat_types self) as [|s0 ft0] eqn:Hft; [discriminate|].
  rewrite <- Hft in *.
  destruct (negb _); [discriminate|].
  set (x1 := HIEncoder.log_transform (HIEncoder.feat_types self)
               (HIEncoder.zero_fill x)) in *.
  destruct (HIEncoder.real_batch_norm bn x1) as [r bn1] eqn:Hbn.
  destruct r as [y|e]; [|discriminate].
  cbn [bind] in Hn; inversion Hn; subst normed mask obj bn'; clear Hn.
  unfold HIEncoder.restore in Hrow.
  apply nth_error_zip_with in Hrow as (nrow & xrow & Hnrow & Hx & ->).
  apply nth_error_zip_with in Hv as (s' & ni & Hs' & Hni & ->).
  rewrite Hs in Hs'; inversion Hs'; subst s'; clear Hs'.
  apply nth_error_combine in Hni as (Hnv & Hxv).
  (* the entry of the log-transformed tensor *)
  pose proof Hx as Hx'.
  unfold x1, HIEncoder.log_transform in Hx'.
  rewrite nth_error_map in Hx'.
  destruct (nth_error (HIEncoder.zero_fill x) i) as [zrow|] eqn:Hz;
    [|discriminate].
  cbn [option_map] in Hx'; injection Hx' as Hxrow.
  pose proof Hxv as Hxv'; rewrite <- Hxrow in Hxv'.
  apply nth_error_zip_with in Hxv' as (s' & z0 & Hs' & Hz0 & Hsnd).
  rewrite Hs in Hs'; inversion Hs'; subst s'; clear Hs'.
  exists zrow, z0, xrow.
  split; [reflexivity|]; split; [exact Hz0|]; split; [exact Hx|].
  split; [rewrite <- Hsnd; exact Hxv|].
  cbv zeta; rewrite <- Hsnd.
  destruct (real_mask (feat_type s)); [reflexivity|].
  (* the batch-normalised entry *)
  unfold HIEncoder.real_batch_norm, bn_forward in Hbn.
  cbn [HIEncoder.batch_norm_reset_hook training num_features running_mean
       running_var] in Hbn.
  destruct (training bn).
  - destruct (length x1 =? 1)%nat; [discriminate|].
    destruct (negb _); [discriminate|].
    cbv zeta in Hbn; injection Hbn as Hy _.
    rewrite <- Hy in Hnrow; unfold bn_apply in Hnrow.
    rewrite nth_error_map, Hx in Hnrow.
    cbn [option_map] in Hnrow; injection Hnrow as Hnrow.
    rewrite <- Hnrow in Hnv.
    apply nth_error_zip_with in Hnv as (z & mv & Hzv & Hmv & ->).
    rewrite Hxv in Hzv; injection Hzv as <-.
    apply nth_error_combine in Hmv as (Hmu & Hvar).
    rewrite map_map in Hmu, Hvar.
    apply nth_error_map_seq in Hmu; apply nth_error_map_seq in Hvar.
    cbn [Nat.add] in Hmu, Hvar; rewrite Hmu, Hvar; reflexivity.
  - destruct (negb _); [discriminate|].
    injection Hbn as Hy _.
    rewrite <- Hy in Hnrow; unfold bn_apply in Hnrow.
    rewrite nth_error_map, Hx in Hnrow.
    cbn [option_map] in Hnrow; injection Hnrow as Hnrow.
    rewrite <- Hnrow in Hnv.
    apply nth_error_zip_with in Hnv as (z & mv & Hzv & Hmv & ->).
    rewrite Hxv in Hzv; injection Hzv as <-.
    apply nth_error_repeat_pair_gen in Hmv; subst mv; reflexivity.
Qed.

(** C4, as amended.  In the result of [normalize], every entry is computed
    from the zero-filled entry [z0] of the input.  In a count, categorical
    or ordinal column it is left as it was before batch normalisation: the
    log transform of [z0] for count, [z0] itself for categorical and
    ordinal.  In a real or positive_real column it is batch-normalised:
    with [z] equal to [z0] for real and to the log transform of [z0] for
    positive_real, the entry is [(z - m) / sqrt (s + 1e-5)], where [m] and
    [s] are the mean and the biased variance of the column over the batch
    in training mode, and 0 and 1 (the reset running statistics) in
    evaluation mode. *)
Theorem normalize_restores_masked_columns :
  forall (self : HIEncoder.t) bn input_tensor normed mask obj bn' i j row v s,
    HIEncoder.normalize self bn input_tensor = (Ok (normed, mask), obj, bn') ->
    nth_error normed i = Some row ->
    nth_error row j = Some v ->
    nth_error (HIEncoder.feat_types self) j = Some s ->
    exists zrow z0,
      nth_error (HIEncoder.zero_fill input_tensor) i = Some zrow /\
      nth_error zrow j = Some z0 /\
      let logged :=
        HIEncoder.log_transform (HIEncoder.feat_types self)
                                (HIEncoder.zero_fill input_tensor) in
      let col := col_or_zero j logged in
      let normalise (z : R) :=
        if training bn
        then (z - batch_mean col) / sqrt (batch_var_biased col + bn_eps)
        else (z - 0) / sqrt (1 + bn_eps) in
      (exists xrow, nth_error logged i = Some xrow /\
                    nth_error xrow j
                    = Some (if is_log_type (feat_type s)
                            then ln (relu z0 + HIEncoder.log_eps) else z0)) /\
      v = match feat_type s with
          | count => ln (relu z0 + HIEncoder.log_eps)
          | categorical | ordinal => z0
          | real => normalise z0
          | positive_real => normalise (ln (relu z0 + HIEncoder.log_eps))
          end.
Proof.
  intros self bn x normed mask obj bn' i j row v s Hn Hrow Hv Hs.
  destruct (normalize_entry self bn x normed mask obj bn' i j row v s
              Hn Hrow Hv Hs)
    as (zrow & z0 & xrow & Hz & Hz0 & Hx & Hxv & Hval).
  exists zrow, z0; split; [exact Hz|]; split; [exact Hz0|].
  cbv zeta; split; [exists xrow; split; [exact Hx | exact Hxv]|].
  cbv zeta in Hval; rewrite Hval.
  destruct (feat_type s); reflexivity.
Qed.

Lemma ln_two_eps_pos : 0 < ln (relu 2 + HIEncoder.log_eps).
Proof.
  unfold relu, HIEncoder.log_eps.
  rewrite Rmax_left by lra.
  rewrite <- ln_1; apply ln_increasing; lra.
Qed.

(** A positive_real column does not leave [normalize] with its log
    transform only: on the training batch [[2], [2]] the log transform is
    [ln (2 + 1e-8)] in both rows, and [normalize] returns 0 in both (the
    column is batch-normalised). *)
Lemma positive_real_is_batch_normalised :
  exists normed mask v,
    fst (fst (HIEncoder.normalize (Examples.encoder1 positive_real 1)
                (Examples.bn_init 1 true) [[Some 2]; [Some 2]]))
    = Ok (normed, mask) /\
    normed = [[v]; [v]] /\ v = 0 /\
    HIEncoder.log_transform
      (HIEncoder.feat_types (Examples.encoder1 positive_real 1))
      (HIEncoder.zero_fill [[Some 2]; [Some 2]])
    = [[ln (relu 2 + HIEncoder.log_eps)]; [ln (relu 2 + HIEncoder.log_eps)]] /\
    ln (relu 2 + HIEncoder.log_eps) <> v.
Proof.
  do 3 eexists.
  split; [reflexivity|].
  split; [reflexivity|].
  assert (Hv : (ln (relu 2 + HIEncoder.log_eps)
                - batch_mean [ln (relu 2 + HIEncoder.log_eps);
                              ln (relu 2 + HIEncoder.log_eps)])
               / sqrt (batch_var_biased [ln (relu 2 + HIEncoder.log_eps);
                                         ln (relu 2 + HIEncoder.log_eps)]
                       + bn_eps) = 0).
  { set (L := ln (relu 2 + HIEncoder.log_eps)).
    assert (Hmu : batch_mean [L; L] = L).
    { unfold batch_mean, rmean, rsum; simpl; field. }
    rewrite Hmu.
    unfold Rdiv; rewrite Rminus_diag; apply Rmult_0_l. }
  split; [exact Hv|].
  split; [reflexivity|].
  match type of Hv with
  | ?lhs = _ => change (ln (relu 2 + HIEncoder.log_eps) <> lhs)
  end.
  rewrite Hv.
  pose proof ln_two_eps_pos; lra.
Qed.

(** A real column next to a count one, one training batch of two rows with
    a missing real cell: the count entry of the second row leaves
    [normalize] as [ln (relu 4 + 1e-8)], and the real entry of the first row
    as 1 normalised with the statistics of its column [1; 0]. *)
Lemma normalize_restores_masked_columns_witness :
  exists normed mask obj bn' row0 row1 v0 v1,
    HIEncoder.normalize
      (Examples.encoder_with_types
         [mkSpec real None None; mkSpec count None None])
      (Examples.bn_init 2 true) [[Some 1; Some 3]; [None; Some 4]]
    = (Ok (normed, mask), obj, bn') /\
    nth_error normed 1 = Some row1 /\ nth_error row1 1 = Some v1 /\
    v1 = ln (relu 4 + HIEncoder.log_eps) /\
    nth_error normed 0 = Some row0 /\ nth_error row0 0 = Some v0 /\
    v0 = (1 - batch_mean [1; 0]) / sqrt (batch_var_biased [1; 0] + bn_eps).
Proof.
  do 8 eexists.
  split; [reflexivity|].
  split; [reflexivity|]; split; [reflexivity|]; split.
  - destruct (normalize_restores_masked_columns
                (Examples.encoder_with_types
                   [mkSpec real None None; mkSpec count None None])
                (Examples.bn_init 2 true) [[Some 1; Some 3]; [None; Some 4]]
                _ _ _ _ 1%nat 1%nat _ _ (mkSpec count None None)
                eq_refl eq_refl eq_refl eq_refl)
      as (zrow & z0 & Hz & Hz0 & _ & Hv).
    cbn in Hz; injection Hz as <-; cbn in Hz0; injection Hz0 as <-.
    exact Hv.
  - split; [reflexivity|]; split; [reflexivity|].
    destruct (normalize_restores_masked_columns
                (Examples.encoder_with_types
                   [mkSpec real None None; mkSpec count None None])
                (Examples.bn_init 2 true) [[Some 1; Some 3]; [None; Some 4]]
                _ _ _ _ 0%nat 0%nat _ _ (mkSpec real None None)
                eq_refl eq_refl eq_refl eq_refl)
      as (zrow & z0 & Hz & Hz0 & _ & Hv).
    cbn in Hz; injection Hz as <-; cbn in Hz0; injection Hz0 as <-.
    exact Hv.
Defined.

(* ------------------------------------------------------------------ *)
(** ** Width of the expanded representation *)

Section EncodedWidth.

Import HIEncoder Reference.

Lemma column_ok (s : FeatureSpec) (dim : nat) (input_tensor : mat) :
  col_ok s dim input_tensor ->
  exists col, column dim input_tensor = Ok col /\
              length col = length input_tensor /\
              Forall (in_range s) col.
Proof.
  unfold col_ok, column.
  induction 1 as [|row rows (v & Hv & Hr) _ (col & Hcol & Hlen & Hall)]; simpl.
  - exists []; repeat split; constructor.
  - rewrite Hv, Hcol.
    exists (v :: col); repeat split; simpl; [congruence | constructor; assumption].
Qed.

Lemma one_hot_row_length (k i : nat) : length (one_hot_row k i) = k.
Proof. unfold one_hot_row; now rewrite length_map, length_seq. Qed.

Lemma zmax_list_le (idx : list Z) (mx : Z) :
  (0 <= mx)%Z -> Forall (fun i => 0 <= i <= mx)%Z idx ->
  (zmax_list idx <= mx)%Z.
Proof.
  intros Hmx; induction 1 as [|i idx Hi _ IH]; simpl; [assumption | lia].
Qed.

Lemma one_hot_in_range (idx : list Z) (mx : Z) :
  idx <> [] ->
  Forall (fun i => 0 <= i <= mx)%Z idx ->
  one_hot idx (mx + 1)
  = Ok (map (fun i => one_hot_row (Z.to_nat (mx + 1)) (Z.to_nat i)) idx).
Proof.
  intros Hne Hall.
  destruct idx as [|i0 idx]; [contradiction|].
  assert (Hmx : (0 <= mx)%Z) by (inversion Hall; subst; lia).
  unfold one_hot.
  assert (Hnn : forallb (fun i => (0 <=? i)%Z) (i0 :: idx) = true).
  { apply forallb_forall; intros i Hi.
    rewrite Forall_forall in Hall; specialize (Hall i Hi).
    apply Z.leb_le; lia. }
  rewrite Hnn; cbn [check bind].
  replace (mx + 1 =? -1)%Z with false by (symmetry; apply Z.eqb_neq; lia).
  pose proof (zmax_list_le (i0 :: idx) mx Hmx Hall) as Hle.
  replace (zmax_list (i0 :: idx) <? mx + 1)%Z with true
    by (symmetry; apply Z.ltb_lt; lia).
  reflexivity.
Qed.

Lemma encode_feature_ok (s : FeatureSpec) (dim : nat) (input_tensor : mat) :
  input_tensor <> [] ->
  col_ok s dim input_tensor ->
  exists block,
    encode_feature s dim input_tensor = Ok block /\
    length block = length input_tensor /\
    Forall (fun r => Z.of_nat (length r) = encoded_width s) block /\
    size_increment s = Ok (encoded_width s).
Proof.
  intros Hne Hcol.
  destruct (column_ok s dim input_tensor Hcol) as (col & Hc & Hlen & Hall).
  assert (Hcne : col <> []).
  { intros ->; destruct input_tensor; [contradiction | discriminate]. }
  unfold encode_feature, size_increment, encoded_width, in_range in *.
  destruct (feat_type s) eqn:Hk.
  1-3: rewrite Hc; cbn [bind]; eexists; split; [reflexivity|];
       (split; [now rewrite length_map|]);
       (split; [|now destruct (feat_min s), (feat_max s)]);
       apply Forall_forall; intros r Hr; apply in_map_iff in Hr as (v & <- & _);
       now destruct (feat_min s), (feat_max s).
  - (* categorical *)
    destruct col as [|v0 col]; [contradiction|].
    assert (Hmx : exists mx, feat_max s = Some mx /\
                  Forall (fun i => 0 <= i <= mx)%Z (map trunc (v0 :: col))).
    { inversion Hall as [|? ? (mx & Hmx & Hv0) Hrest]; subst.
      exists mx; split; [assumption|].
      apply Forall_forall; intros i Hi; apply in_map_iff in Hi as (v & <- & Hv).
      rewrite Forall_forall in Hall; destruct (Hall v Hv) as (mx' & Hmx' & Hr).
      congruence. }
    destruct Hmx as (mx & Hmx & Hidx).
    rewrite Hmx, Hc; cbn [py_num bind].
    rewrite one_hot_in_range by (assumption || discriminate).
    eexists; split; [reflexivity|].
    split; [now rewrite !length_map|].
    assert (0 <= mx)%Z by (inversion Hidx; subst; lia).
    split; [|now destruct (feat_min s)].
    apply Forall_forall; intros r Hr; apply in_map_iff in Hr as (i & <- & _).
    rewrite one_hot_row_length; destruct (feat_min s); lia.
  - (* ordinal *)
    destruct col as [|v0 col]; [contradiction|].
    inversion Hall as [|? ? (mn & mx & Hmn & Hmx & Hv0) Hrest]; subst.
    assert (Hle : (mn <= mx)%Z) by (apply le_IZR; lra).
    rewrite Hmn, Hmx, Hc; cbn [py_num bind].
    replace (0 <=? mx - mn + 1)%Z with true by (symmetry; apply Z.leb_le; lia).
    cbn [check bind].
    destruct input_tensor as [|row0 rows]; [contradiction|].
    cbn [length Nat.eqb negb check bind].
    eexists; split; [reflexivity|].
    split; [now rewrite length_map|].
    split; [|reflexivity].
    apply Forall_forall; intros r Hr; apply in_map_iff in Hr as (v & <- & _).
    rewrite length_map, length_seq; lia.
Qed.

Lemma cat1_ok (a b : mat) (wa wb : Z) :
  length a = length b ->
  Forall (fun r => Z.of_nat (length r) = wa) a ->
  Forall (fun r => Z.of_nat (length r) = wb) b ->
  exists c, cat1 a b = Ok c /\ length c = length a /\
            Forall (fun r => Z.of_nat (length r) = (wa + wb)%Z) c.
Proof.
  intros Hlen Ha Hb; unfold cat1.
  rewrite Hlen, Nat.eqb_refl; cbn [check bind].
  eexists; split; [reflexivity|].
  split; [rewrite zip_with_length; lia|].
  clear Hlen; revert b Hb; induction Ha as [|ra a Hra _ IH]; intros b Hb.
  - constructor.
  - destruct Hb as [|rb b Hrb Hb]; simpl; constructor.
    + rewrite length_app; lia.
    + apply IH; assumption.
Qed.

Lemma categorical_encode_from_ok (ft : FeatTypes) :
  forall (dim : nat) (input_tensor enc : mat) (w0 : Z),
    input_tensor <> [] ->
    (forall k s, nth_error ft k = Some s -> col_ok s (dim + k) input_tensor) ->
    length enc = length input_tensor ->
    Forall (fun r => Z.of_nat (length r) = w0) enc ->
    exists encoded,
      categorical_encode_from ft dim input_tensor enc = Ok encoded /\
      length encoded = length input_tensor /\
      Forall (fun r => Z.of_nat (length r) = (w0 + sum_encoded_width ft)%Z)
             encoded /\
      get_encoded_input_size_from w0 ft = Ok (w0 + sum_encoded_width ft)%Z.
Proof.
  induction ft as [|s ft IH]; intros dim x enc w0 Hne Hcols Hlen Hw.
  - exists enc; cbn; rewrite Z.add_0_r; auto.
  - assert (Hs : col_ok s dim x).
    { specialize (Hcols 0%nat s eq_refl); now rewrite Nat.add_0_r in Hcols. }
    destruct (encode_feature_ok s dim x Hne Hs) as (block & Hb & Hbl & Hbw & Hsz).
    destruct (cat1_ok enc block w0 (encoded_width s)) as (enc' & Hc & Hcl & Hcw);
      [congruence | assumption | assumption |].
    destruct (IH (S dim) x enc' (w0 + encoded_width s)%Z Hne) as
      (encoded & He & Hel & Hew & Hg); [| congruence | assumption |].
    { intros k s' Hk; specialize (Hcols (S k) s' Hk).
      now rewrite Nat.add_succ_r in Hcols. }
    exists encoded.
    cbn [categorical_encode_from get_encoded_input_size_from].
    rewrite Hb, Hsz; cbn [bind]; rewrite Hc; cbn [bind].
    unfold sum_encoded_width in *; cbn [map fold_right].
    rewrite Z.add_assoc.
    repeat split; assumption.
Qed.

Lemma in_range_columns (ft : FeatTypes) (input_tensor : mat) :
  Forall (fun row => Forall2 in_range ft row) input_tensor ->
  forall k s, nth_error ft k = Some s -> col_ok s k input_tensor.
Proof.
  intros Hall k s Hk; unfold col_ok.
  eapply Forall_impl; [|exact Hall].
  intros row Hrow; cbv beta in Hrow.
  clear Hall; revert k Hk; induction Hrow as [|s0 v0 ft' row' H0 _ IH];
    intros [|k] Hk; simpl in *; try discriminate.
  - inversion Hk; subst; eauto.
  - apply IH; assumption.
Qed.

(** C8.  On a non-empty batch whose rows hold in-range values,
    [categorical_encode] returns a tensor with one row per input row, and
    every row has as many columns as the sum of the encoded widths of the
    features; [get_encoded_input_size] returns that same number. *)
Theorem categorical_encode_width :
  forall (self : HIEncoder.t) (input_tensor : mat),
    input_tensor <> [] ->
    Forall (fun row => Forall2 in_range (feat_types self) row) input_tensor ->
    exists encoded,
      categorical_encode self input_tensor = Ok encoded /\
      length encoded = length input_tensor /\
      Forall (fun row => Z.of_nat (length row)
                         = sum_encoded_width (feat_types self)) encoded /\
      get_encoded_input_size (feat_types self)
      = Ok (sum_encoded_width (feat_types self)).
Proof.
  intros self x Hne Hall.
  unfold categorical_encode, get_encoded_input_size.
  destruct (categorical_encode_from_ok (feat_types self) 0 x
              (map (fun _ => []) x) 0%Z Hne) as (encoded & He & Hl & Hw & Hg).
  - intros k s Hk; apply (in_range_columns _ _ Hall); assumption.
  - apply length_map.
  - apply Forall_forall; intros r Hr; apply in_map_iff in Hr as (? & <- & _).
    reflexivity.
  - exists encoded; auto.
Qed.

End EncodedWidth.

(** One row over a real, a three-class categorical and an ordinal feature
    with codes 1..3: the encoded row has 1 + 3 + 3 columns. *)
Lemma categorical_encode_width_witness :
  exists encoded,
    HIEncoder.categorical_encode
      (Examples.encoder_with_types Examples.mixed_types) [[0.5; 1; 2]]
    = Ok encoded /\
    length encoded = 1%nat /\
    Forall (fun row => Z.of_nat (length row) = 7%Z) encoded.
Proof.
  destruct (categorical_encode_width
              (Examples.encoder_with_types Examples.mixed_types)
              [[0.5; 1; 2]]) as (encoded & He & Hl & Hw & _).
  - discriminate.
  - repeat constructor.
    + exists 2%Z; split; [reflexivity|].
      change 1 with (IZR 1); rewrite trunc_IZR; lia.
    + exists 1%Z, 3%Z; repeat split; simpl; lra.
  - exists encoded; repeat split; assumption.
Defined.

(* ------------------------------------------------------------------ *)
(** ** The hard mixture one-hot and the layers that consume it *)

Section NarrowOneHot.

Import HIEncoder.

Lemma linear_row_ok (l : Linear) (x y : vec) :
  linear_row l x = Ok y ->
  length x = in_features l /\ (wf_Linear l -> length y = out_features l).
Proof.
  unfold linear_row; intros H.
  destruct (length x =? in_features l)%nat eqn:Hx; [|discriminate].
  apply Nat.eqb_eq in Hx; split; [assumption|].
  intros (Hw & Hb & _); cbn in H; inversion H; subst.
  rewrite zip_with_length; unfold vec, mat in *; lia.
Qed.

Lemma linear_ok (l : Linear) (x y : mat) :
  linear l x = Ok y ->
  length y = length x /\
  Forall (fun r => length r = in_features l) x /\
  (wf_Linear l -> Forall (fun r => length r = out_features l) y).
Proof.
  unfold linear; intros H.
  split; [eapply mapM_ok_length; eassumption|].
  apply mapM_ok_Forall2 in H.
  induction H as [|r s x y Hrs _ (IHx & IHy)].
  - split; [constructor | intros _; constructor].
  - apply linear_row_ok in Hrs as (Hr & Hs).
    split; [constructor; assumption|].
    intros Hwf; constructor; auto.
Qed.

Lemma linear_rejects_width (l : Linear) (x : mat) :
  x <> [] ->
  Forall (fun r => length r <> in_features l) x ->
  exists e, linear l x = Raise e.
Proof.
  intros Hne Hall; destruct x as [|r x]; [contradiction|].
  inversion Hall as [|? ? Hr _]; subst.
  unfold linear; cbn [mapM]; unfold linear_row.
  apply Nat.eqb_neq in Hr; rewrite Hr; cbn; eauto.
Qed.

(** The output width of the hidden stack is the last architecture entry. *)
Lemma sequential_width (layers : list Linear) :
  forall (arch : list nat) (x y : mat),
    arch <> [] ->
    Forall2 (fun l io => has_shape l (fst io) (snd io))
            layers (combine (removelast arch) (tl arch)) ->
    Forall (fun r => length r = hd 0%nat arch) x ->
    sequential layers x = Ok y ->
    length y = length x /\ Forall (fun r => length r = last arch 0%nat) y.
Proof.
  induction layers as [|l layers IH]; intros arch x y Hne Hsh Hx Hy.
  - cbn in Hy; inversion Hy; subst; split; [reflexivity|].
    destruct arch as [|a [|b arch]]; [contradiction | exact Hx |].
    inversion Hsh.
  - destruct arch as [|a [|b arch]]; [contradiction | inversion Hsh |].
    cbn [removelast tl combine] in Hsh.
    inversion Hsh as [|? ? ? ? (Hin & Hout & Hwf) Hrest]; subst.
    cbn [sequential] in Hy.
    apply bind_ok_inv in Hy as (z & Hz & Hy).
    apply linear_ok in Hz as (Hzl & _ & Hzw).
    specialize (Hzw Hwf).
    destruct (IH (b :: arch) (map (map leaky_relu) z) y) as (Hl & Hw).
    + discriminate.
    + exact Hrest.
    + apply Forall_forall; intros r Hr; apply in_map_iff in Hr as (r' & <- & Hr').
      rewrite length_map; cbn [hd].
      rewrite Forall_forall in Hzw; rewrite (Hzw r' Hr'); exact Hout.
    + exact Hy.
    + rewrite length_map in Hl; split; [congruence|].
      exact Hw.
Qed.

Lemma argmax_from_bound (l : vec) :
  forall best besti i, (besti < i)%nat ->
    (argmax_from best besti i l < i + length l)%nat.
Proof.
  induction l as [|x l IH]; intros best besti i Hlt; cbn [argmax_from length].
  - lia.
  - destruct (Rlt_dec best x).
    + specialize (IH x i (S i)); lia.
    + specialize (IH best besti (S i)); lia.
Qed.

Lemma argmax_bound (row : vec) (i : nat) :
  argmax row = Ok i -> (i < length row)%nat.
Proof.
  destruct row as [|x row]; [discriminate|].
  cbn [argmax]; intros H; inversion H; subst.
  pose proof (argmax_from_bound row x 0 1); cbn [length]; lia.
Qed.

Lemma gumbel_softmax_width (g : nat -> nat -> R) (pi : mat) (k : nat) :
  Forall (fun r => length r = k) pi ->
  Forall (fun r => length r = k) (gumbel_softmax g pi).
Proof.
  intros Hpi; unfold gumbel_softmax.
  apply Forall_forall; intros r Hr.
  apply in_map_iff in Hr as ((i & row) & <- & Hin).
  apply in_combine_r in Hin.
  rewrite Forall_forall in Hpi; specialize (Hpi row Hin).
  cbn [fst snd]; unfold softmax.
  rewrite !length_map, length_combine, length_seq; lia.
Qed.

(** Without a class count, the one-hot is as wide as the largest index
    plus one. *)
Lemma one_hot_inferred_width (idx : list nat) (n : nat) (mix : mat) :
  Forall (fun i => i < n /\ i <> n - 1)%nat idx ->
  one_hot (map Z.of_nat idx) (-1) = Ok mix ->
  mix <> [] /\ length mix = length idx /\
  Forall (fun r => (length r < n)%nat) mix.
Proof.
  intros Hall H.
  destruct idx as [|i0 idx]; [discriminate|].
  cbn [map one_hot] in H.
  apply bind_ok_inv in H as (u & _ & H).
  cbn [Z.eqb bind] in H.
  change (Z.of_nat i0 :: map Z.of_nat idx) with (map Z.of_nat (i0 :: idx)) in H.
  inversion H; subst; clear H.
  assert (Hn : (2 <= n)%nat) by (inversion Hall; subst; lia).
  assert (Hmax : (zmax_list (map Z.of_nat (i0 :: idx)) <= Z.of_nat n - 2)%Z).
  { apply zmax_list_le; [lia|].
    apply Forall_forall; intros z Hz; apply in_map_iff in Hz as (i & <- & Hi).
    rewrite Forall_forall in Hall; specialize (Hall i Hi); lia. }
  assert (Hmin : (0 <= zmax_list (map Z.of_nat (i0 :: idx)))%Z).
  { cbn [map zmax_list fold_right]; lia. }
  change (zmax_list (map Z.of_nat (i0 :: idx)))
    with (Z.max (Z.of_nat i0) (zmax_list (map Z.of_nat idx))) in Hmax, Hmin.
  split; [discriminate|].
  split; [cbn [length]; now rewrite !length_map|].
  constructor; [rewrite one_hot_row_length; lia|].
  apply Forall_forall; intros r Hr; apply in_map_iff in Hr as (z & <- & _).
  rewrite one_hot_row_length; lia.
Qed.

Lemma forward_heads_raises (hidden_sizes : list nat) (latent_dim : nat)
  (self : t) (encoded dists : mat) (idx : list nat) :
  init_shapes hidden_sizes latent_dim self ->
  sample_mix_components_ok self encoded dists ->
  argmax1 dists = Ok idx ->
  Forall (fun i => i <> n_mix_components self - 1)%nat idx ->
  (forall mix, hard_one_hot dists = Ok mix ->
     Forall (fun r => (length r < n_mix_components self)%nat) mix) /\
  exists e, forward_heads self encoded dists = Raise e.
Proof.
  intros (sz & Hsz & Hmm & Hhid & Hmean & _) (pi & g & Hpi & ->) Hidx Hne.
  cbv zeta in Hmm, Hhid, Hmean.
  destruct Hmm as (Hmi & Hmo & Hmwf).
  apply linear_ok in Hpi as (Hpl & Hpin & Hpout).
  specialize (Hpout Hmwf); rewrite Hmo in Hpout; rewrite Hmi in Hpin.
  pose proof (gumbel_softmax_width g pi _ Hpout) as Hdw.
  assert (Hall : Forall (fun i => i < n_mix_components self /\
                                  i <> n_mix_components self - 1)%nat idx).
  { pose proof (mapM_ok_Forall2 _ _ _ Hidx) as HF.
    clear Hidx; induction HF as [|row i dists' idx' Hri _ IH].
    - constructor.
    - inversion Hdw; inversion Hne; subst.
      constructor; [|apply IH; assumption].
      apply argmax_bound in Hri; split; [congruence | assumption]. }
  unfold forward_heads, hard_one_hot; rewrite Hidx; cbn [bind].
  destruct (one_hot (map Z.of_nat idx) (-1)) as [mix|e] eqn:Hoh;
    [|split; [discriminate | cbn; eauto]].
  destruct (one_hot_inferred_width idx _ mix Hall Hoh) as (Hmne & Hml & Hmw).
  split; [intros mix' Hm'; inversion Hm'; subst; exact Hmw|].
  cbn [bind].
  destruct (sequential (hidden self) encoded) as [h|e] eqn:Hh; [|cbn; eauto].
  cbn [bind].
  destruct (sequential_width (hidden self)
              (architecture (Z.to_nat sz) hidden_sizes) encoded h)
    as (Hhl & Hhw); [discriminate | exact Hhid | exact Hpin | exact Hh |].
  destruct (cat1 h mix) as [hm|e] eqn:Hcat; [|cbn; eauto].
  cbn [bind].
  unfold cat1 in Hcat.
  apply bind_ok_inv in Hcat as (u & Hu & Hcat).
  apply check_ok_inv, Nat.eqb_eq in Hu.
  inversion Hcat; subst hm; clear Hcat.
  destruct (linear_rejects_width (mean self) (zip_with (@app R) h mix))
    as (e & He).
  - destruct h, mix; cbn; try discriminate; contradiction.
  - destruct Hmean as (Hin & _); rewrite Hin.
    clear - Hhw Hmw.
    revert mix Hmw; induction Hhw as [|rh h Hrh _ IH]; intros mix Hmw.
    + constructor.
    + destruct Hmw as [|rm mix Hrm Hmw]; cbn [zip_with]; constructor.
      * rewrite length_app; lia.
      * apply IH; assumption.
  - rewrite He; cbn; eauto.
Qed.

End NarrowOneHot.

Lemma forward_mix_samples (self : HIEncoder.t) bn gumbels input_tensor
  encoded dists mask obj bn' :
  HIEncoder.forward_mix self bn gumbels input_tensor
  = (Ok (encoded, dists, mask), obj, bn') ->
  HIEncoder.sample_mix_components_ok self encoded dists.
Proof.
  unfold HIEncoder.forward_mix.
  destruct (HIEncoder.normalize self bn input_tensor) as [[r o] b].
  intros H; inversion H as [[Hr Ho Hb]]; clear H.
  apply bind_ok_inv in Hr as ((normed & m) & _ & Hr).
  apply bind_ok_inv in Hr as (enc & _ & Hr).
  apply bind_ok_inv in Hr as (d & Hd & Hr).
  inversion Hr; subst; clear Hr.
  unfold HIEncoder.sample_mix_components in Hd.
  apply bind_ok_inv in Hd as (pi & Hpi & Hd).
  inversion Hd; subst.
  exists pi, gumbels; split; [assumption | reflexivity].
Qed.

(** C10.  Take an encoder with the layer shapes that [__init__] creates and
    a batch on which the encoder gets as far as the relaxed mixture sample.
    If no sample's arg-max is the last mixture component, then the hard
    one-hot (built without a class count) has fewer than
    [n_mix_components] columns, the encoder's [forward] raises, and so does
    [HIVAEModule.forward] on that input. *)
Theorem narrow_one_hot_fails_forward :
  forall hidden_sizes latent_dim (self : HIEncoder.t) bn gumbels input_tensor
         encoded dists mask obj bn' idx,
    HIEncoder.init_shapes hidden_sizes latent_dim self ->
    HIEncoder.forward_mix self bn gumbels input_tensor
    = (Ok (encoded, dists, mask), obj, bn') ->
    argmax1 dists = Ok idx ->
    Forall (fun i => i <> HIEncoder.n_mix_components self - 1)%nat idx ->
    (forall mix, HIEncoder.hard_one_hot dists = Ok mix ->
       Forall (fun r => (length r < HIEncoder.n_mix_components self)%nat) mix) /\
    (exists e,
       fst (fst (HIEncoder.forward self bn gumbels input_tensor)) = Raise e) /\
    (forall (m : HIVAEModule.t) eps (t : Tensor) w mode,
       HIVAEModule.encoder m = self ->
       data t = input_tensor ->
       exists e,
         fst (fst (HIVAEModule.forward m bn gumbels eps t w mode)) = Raise e).
Proof.
  intros hs ld self bn g x encoded dists mask obj bn' idx Hsh Hmix Hidx Hne.
  pose proof (forward_mix_samples _ _ _ _ _ _ _ _ _ Hmix) as Hs.
  destruct (forward_heads_raises hs ld self encoded dists idx Hsh Hs Hidx Hne)
    as (Hnarrow & e & He).
  assert (Hfwd : fst (fst (HIEncoder.forward self bn g x)) = Raise e).
  { unfold HIEncoder.forward; rewrite Hmix; cbn [bind fst].
    rewrite He; reflexivity. }
  split; [exact Hnarrow|].
  split; [exists e; exact Hfwd|].
  intros m eps t w mode <- Hdata.
  unfold HIVAEModule.forward.
  destruct (py_assert _ _) as [u|e']; [|cbn; eauto].
  unfold HIVAEModule.forward_args; rewrite Hdata.
  destruct (HIEncoder.forward (HIVAEModule.encoder m) bn g x) as [[r o] b].
  cbn [fst] in Hfwd; subst r; cbn; eauto.
Qed.

(** Two mixture components, weights 0 and no noise: both relaxed
    probabilities are equal, every arg-max is component 0, and the forward
    pass on the two-row batch [[1], [2]] raises. *)
Lemma narrow_one_hot_fails_forward_witness :
  exists e,
    fst (fst (HIEncoder.forward (Examples.encoder1 real 2)
                (Examples.bn_init 1 true) Examples.no_noise
                [[Some 1]; [Some 2]])) = Raise e.
Proof.
  refine (proj1 (proj2 (narrow_one_hot_fails_forward
                   [] 1%nat (Examples.encoder1 real 2)
                   (Examples.bn_init 1 true) Examples.no_noise
                   [[Some 1]; [Some 2]] _ _ _ _ _ [0; 0]%nat _ eq_refl _ _))).
  - exists 1%Z; split; [reflexivity|].
    cbv zeta; cbn.
    unfold HIEncoder.has_shape, wf_Linear; cbn.
    repeat split; repeat constructor.
  - unfold argmax1; cbn.
    repeat match goal with
           | |- context [Rlt_dec ?a ?b] =>
               destruct (Rlt_dec a b) as [Hlt|_];
               [exfalso; exact (Rlt_irrefl _ Hlt)|]
           end.
    reflexivity.
  - repeat constructor; discriminate.
Defined.

(* ------------------------------------------------------------------ *)
(** ** HIVAEModule.forward: the input tensor is normalised twice, in place *)

Section NormalizeTwice.

Import HIEncoder.

Lemma zero_fill_stored (x : mat) : zero_fill (stored x) = x.
Proof.
  unfold zero_fill, stored; rewrite map_map.
  rewrite <- (map_id x) at 2; apply map_ext; intros row.
  rewrite map_map; rewrite <- (map_id row) at 2; now apply map_ext.
Qed.

Lemma normalize_ok_inv (self : t) bn (x : raw) normed mask obj bn' :
  normalize self bn x = (Ok (normed, mask), obj, bn') ->
  obj = stored (log_transform (feat_types self) (zero_fill x)) /\
  mask = observed x /\
  exists y,
    real_batch_norm bn (log_transform (feat_types self) (zero_fill x))
    = (Ok y, bn') /\
    normed = restore (feat_types self) y
                     (log_transform (feat_types self) (zero_fill x)).
Proof.
  unfold normalize; intros H.
  destruct (feat_types self) as [|s0 ft0] eqn:Hft; [discriminate|].
  rewrite <- Hft in *.
  destruct (negb _); [discriminate|].
  destruct (real_batch_norm bn _) as [r bn1].
  destruct r as [y|e]; [|discriminate].
  cbn [bind] in H; inversion H; subst.
  repeat split; exists y; split; reflexivity.
Qed.

Lemma forward_ok_inv (self : t) bn gumbels (x : raw) ret obj bn' :
  forward self bn gumbels x = (Ok ret, obj, bn') ->
  exists normed mask, normalize self bn x = (Ok (normed, mask), obj, bn').
Proof.
  unfold forward, forward_mix; intros H.
  destruct (normalize self bn x) as [[r o] b].
  inversion H as [[Hr Ho Hb]]; clear H.
  destruct r as [[normed mask]|e]; [|discriminate].
  exists normed, mask; reflexivity.
Qed.

Lemma log_transform_entry (ft : FeatTypes) (x : mat) (i j : nat)
  (s : FeatureSpec) (row : vec) (v : R) :
  nth_error ft j = Some s ->
  is_log_type (feat_type s) = true ->
  nth_error x i = Some row ->
  nth_error row j = Some v ->
  exists trow,
    nth_error (log_transform ft x) i = Some trow /\
    nth_error trow j = Some (ln (relu v + log_eps)).
Proof.
  intros Hs Hlog Hrow Hv; unfold log_transform.
  rewrite nth_error_map, Hrow; cbn [option_map].
  eexists; split; [reflexivity|].
  clear Hrow; revert j row Hs Hv; induction ft as [|s' ft IH];
    intros [|j] [|v' row] Hs Hv; try discriminate; cbn in *.
  - inversion Hs; inversion Hv; subst; now rewrite Hlog.
  - apply IH; assumption.
Qed.

Lemma log_transform_entry_inv (ft : FeatTypes) (x : mat) (i j : nat)
  (s : FeatureSpec) (xrow : vec) (z : R) :
  nth_error (log_transform ft x) i = Some xrow ->
  nth_error xrow j = Some z ->
  nth_error ft j = Some s ->
  exists zrow z0,
    nth_error x i = Some zrow /\ nth_error zrow j = Some z0 /\
    z = if is_log_type (feat_type s) then ln (relu z0 + log_eps) else z0.
Proof.
  unfold log_transform; intros Hx Hz Hs.
  rewrite nth_error_map in Hx.
  destruct (nth_error x i) as [zrow|]; [|discriminate].
  cbn [option_map] in Hx; injection Hx as <-.
  apply nth_error_zip_with in Hz as (s' & z0 & Hs' & Hz0 & ->).
  rewrite Hs in Hs'; injection Hs' as <-.
  exists zrow, z0; auto.
Qed.

(** [normalize] leaves the layer in the mode it was in. *)
Lemma normalize_training (self : t) bn (x : raw) :
  training (snd (normalize self bn x)) = training bn.
Proof.
  unfold normalize.
  destruct (feat_types self); [reflexivity|].
  destruct (negb _); [reflexivity|].
  destruct (real_batch_norm bn _) as [r bn1] eqn:Hbn; cbn [snd].
  unfold real_batch_norm, bn_forward in Hbn.
  cbn [batch_norm_reset_hook training num_features running_mean running_var]
    in Hbn.
  destruct (training bn) eqn:Htr.
  - destruct (length _ =? 1)%nat; [injection Hbn as _ <-; reflexivity|].
    destruct (negb _); injection Hbn as _ <-; reflexivity.
  - destruct (negb _); injection Hbn as _ <-; exact Htr.
Qed.

(** C9, as amended.  [forward] works on [input_tensor.float()], the
    caller's tensor itself when its dtype is float32 and a copy otherwise.
    When [forward] reaches the decoder:
    (1) a float32 tensor of the caller holds afterwards the zero-filled
    input with the log transform applied twice to the positive_real and
    count columns (so it has changed as soon as a cell was missing), and a
    tensor of another dtype is left as it was;
    (2) the rest of [forward] is [objective] on the arguments assembled,
    whose first step is the call of [HIDecoder.reconstruction_error] on the
    second [normalize]'s result: the reconstruction error [forward] returns
    is the result of that call, and an exception of that call is raised by
    [forward];
    (3) that tensor is computed from the twice log-transformed one, whose
    positive_real and count entries are
    [ln (relu (ln (relu z + 1e-8)) + 1e-8)] for the zero-filled entry [z];
    (4) every entry handed to [reconstruction_error] in a count column is
    that twice-transformed value, and in a positive_real column that value
    batch-normalised. *)
Theorem forward_normalizes_twice :
  forall (self : HIVAEModule.t) bn gumbels eps (input_tensor : Tensor)
         (w : R) (mode : string) a obj bn',
    HIVAEModule.mode_ok mode = true ->
    HIVAEModule.forward_args self bn gumbels eps (data input_tensor)
    = (Ok a, obj, bn') ->
    let x := data input_tensor in
    let ft := feat_types (HIVAEModule.encoder self) in
    let twice := log_transform ft (log_transform ft (zero_fill x)) in
    let out := HIVAEModule.forward self bn gumbels eps input_tensor w mode in
    let reconstr :=
      HIDecoder.reconstruction_error (HIVAEModule.decoder self) bn'
        (HIVAEModule.arg_input a) (HIVAEModule.arg_latent a)
        (HIVAEModule.arg_mix a) (HIVAEModule.arg_mask a) in
    (snd (fst out) = match tensor_dtype input_tensor with
                     | float32 => stored twice
                     | float64 => x
                     end /\
     ((exists row, In row x /\ In None row) -> stored twice <> x)) /\
    (fst (fst out) = HIVAEModule.objective self bn' w a /\
     (forall e, reconstr = Raise e -> fst (fst out) = Raise e) /\
     (forall re kl elbo,
        fst (fst out) = Ok (re, kl, elbo) -> reconstr = Ok re)) /\
    ((exists y bn1,
        real_batch_norm bn1 twice = (Ok y, bn') /\
        HIVAEModule.arg_input a = restore ft y twice) /\
     (forall i j s zrow z,
        nth_error ft j = Some s ->
        is_log_type (feat_type s) = true ->
        nth_error (zero_fill x) i = Some zrow ->
        nth_error zrow j = Some z ->
        exists trow,
          nth_error twice i = Some trow /\
          nth_error trow j
          = Some (ln (relu (ln (relu z + log_eps)) + log_eps)))) /\
    (forall i j row v s,
       nth_error (HIVAEModule.arg_input a) i = Some row ->
       nth_error row j = Some v ->
       nth_error ft j = Some s ->
       is_log_type (feat_type s) = true ->
       exists zrow z,
         nth_error (zero_fill x) i = Some zrow /\
         nth_error zrow j = Some z /\
         let t2 := ln (relu (ln (relu z + log_eps)) + log_eps) in
         let col := col_or_zero j twice in
         v = match feat_type s with
             | count => t2
             | _ => if training bn
                    then (t2 - batch_mean col)
                         / sqrt (batch_var_biased col + bn_eps)
                    else (t2 - 0) / sqrt (1 + bn_eps)
             end).
Proof.
  intros self bn g eps input_tensor w mode a obj bn' Hmode H x ft twice out
         reconstr.
  assert (Hout : out = (HIVAEModule.objective self bn' w a,
                        match tensor_dtype input_tensor with
                        | float32 => obj
                        | float64 => x
                        end, bn')).
  { unfold out, HIVAEModule.forward; rewrite Hmode; cbn [py_assert].
    fold x in H |- *; rewrite H; reflexivity. }
  assert (Hargs : obj = stored twice /\
                  exists bn1 mask2 obj1,
                    training bn1 = training bn /\
                    zero_fill obj1 = log_transform ft (zero_fill x) /\
                    normalize (HIVAEModule.encoder self) bn1 obj1
                    = (Ok (HIVAEModule.arg_input a, mask2), obj, bn')).
  { unfold HIVAEModule.forward_args in H; fold x in H.
    destruct (forward (HIVAEModule.encoder self) bn g x) as [[r obj1] bn1]
      eqn:Hf.
    destruct r as [[[[mean std] dists] mask]|e]; [|discriminate].
    apply forward_ok_inv in Hf as (normed & mask' & Hn1).
    pose proof (normalize_training (HIVAEModule.encoder self) bn x) as Htr.
    rewrite Hn1 in Htr; cbn [snd] in Htr.
    apply normalize_ok_inv in Hn1 as (Hobj1 & _).
    destruct (hard_one_hot dists) as [mix|e]; [|discriminate].
    destruct (normalize (HIVAEModule.encoder self) bn1 obj1)
      as [[r2 obj2] bn2] eqn:Hn2.
    inversion H as [[Hr Ho Hb]]; clear H; subst obj2 bn2.
    destruct r2 as [[input2 m2]|e]; [|discriminate].
    cbn [bind] in Hr; inversion Hr; subst a; clear Hr.
    cbn [HIVAEModule.arg_input].
    pose proof (normalize_ok_inv _ _ _ _ _ _ _ Hn2) as (Hobj2 & _).
    rewrite Hobj1, zero_fill_stored in Hobj2.
    split; [exact Hobj2|].
    exists bn1, m2, obj1; split; [exact Htr|]; split; [|exact Hn2].
    rewrite Hobj1; apply zero_fill_stored. }
  destruct Hargs as (Hobj & bn1 & mask2 & obj1 & Htr & Hzf & Hn2).
  split; [split|split; [split; [|split]|split; [split|]]].
  - rewrite Hout; cbn [fst snd]; rewrite Hobj; reflexivity.
  - intros (row & Hrow & Hnone) Heq.
    rewrite <- Heq in Hrow; unfold stored in Hrow.
    apply in_map_iff in Hrow as (r & <- & _).
    apply in_map_iff in Hnone as (v & Hv & _); discriminate.
  - rewrite Hout; reflexivity.
  - intros e He; rewrite Hout; cbn [fst].
    unfold HIVAEModule.objective; fold reconstr; rewrite He; reflexivity.
  - intros re kl elbo Hok; rewrite Hout in Hok; cbn [fst] in Hok.
    unfold HIVAEModule.objective in Hok; fold reconstr in Hok.
    destruct reconstr as [re'|e]; [|discriminate].
    cbn [bind] in Hok.
    apply bind_ok_inv in Hok as (pm & _ & Hok).
    apply bind_ok_inv in Hok as (pv & _ & Hok).
    apply bind_ok_inv in Hok as (kl' & _ & Hok).
    apply bind_ok_inv in Hok as (tg & _ & Hok).
    apply bind_ok_inv in Hok as (ce & _ & Hok).
    apply bind_ok_inv in Hok as (u1 & _ & Hok).
    apply bind_ok_inv in Hok as (u2 & _ & Hok).
    injection Hok as -> _ _; reflexivity.
  - apply normalize_ok_inv in Hn2 as (_ & _ & y & Hy & Hin).
    rewrite Hzf in Hy, Hin.
    exists y, bn1; split; [exact Hy | exact Hin].
  - intros i j s zrow z Hs Hlog Hz Hv.
    destruct (log_transform_entry ft (zero_fill x) i j s zrow z Hs Hlog Hz Hv)
      as (orow & Ho & Hov).
    apply (log_transform_entry ft _ i j s orow _ Hs Hlog Ho Hov).
  - intros i j row v s Hrow Hv Hs Hlog.
    destruct (normalize_entry _ _ _ _ _ _ _ i j row v s Hn2 Hrow Hv Hs)
      as (zrow1 & z1 & xrow & Hz1 & Hz1v & _ & _ & Hval).
    rewrite Hzf in Hz1, Hval.
    destruct (log_transform_entry_inv ft (zero_fill x) i j s zrow1 z1
                Hz1 Hz1v Hs) as (zrow & z & Hz & Hzv & Hz1eq).
    rewrite Hlog in Hz1eq, Hval.
    exists zrow, z; split; [exact Hz|]; split; [exact Hzv|].
    cbv zeta in Hval |- *; rewrite Hval, Hz1eq, Htr.
    fold ft twice.
    destruct (feat_type s); try discriminate; reflexivity.
Qed.

End NormalizeTwice.

(** A count column with one observed and one missing cell, handed to
    [forward] as a float32 tensor: afterwards the caller's tensor holds the
    twice log-transformed values, the missing cell replaced by 0 first. *)
Lemma forward_normalizes_twice_witness :
  snd (fst (HIVAEModule.forward (Examples.module1 count 1)
              (Examples.bn_init 1 true) Examples.no_noise Examples.no_noise
              (mkTensor float32 [[Some 3]; [None]]) 1 "sample"))
  = [[Some (ln (relu (ln (relu 3 + HIEncoder.log_eps)) + HIEncoder.log_eps))];
     [Some (ln (relu (ln (relu 0 + HIEncoder.log_eps)) + HIEncoder.log_eps))]]
  /\
  snd (fst (HIVAEModule.forward (Examples.module1 count 1)
              (Examples.bn_init 1 true) Examples.no_noise Examples.no_noise
              (mkTensor float32 [[Some 3]; [None]]) 1 "sample"))
  <> [[Some 3]; [None]].
Proof.
  pose proof (forward_normalizes_twice (Examples.module1 count 1)
                (Examples.bn_init 1 true) Examples.no_noise Examples.no_noise
                (mkTensor float32 [[Some 3]; [None]]) 1 "sample"%string
                _ _ _ eq_refl eq_refl) as H.
  cbv zeta in H.
  destruct H as [(H & Hne) _].
  cbn [tensor_dtype data] in H, Hne.
  rewrite H.
  split; [reflexivity|].
  apply Hne; exists [None]; split; [right; left; reflexivity | left; reflexivity].
Defined.

(** The same batch handed to [forward] as a float64 tensor: [forward]
    reaches the decoder, and the caller's tensor is left as it was, the
    missing cell included. *)
Lemma float64_tensor_left_unchanged :
  exists a obj bn',
    HIVAEModule.forward_args (Examples.module1 count 1)
      (Examples.bn_init 1 true) Examples.no_noise Examples.no_noise
      [[Some 3]; [None]] = (Ok a, obj, bn') /\
    snd (fst (HIVAEModule.forward (Examples.module1 count 1)
                (Examples.bn_init 1 true) Examples.no_noise Examples.no_noise
                (mkTensor float64 [[Some 3]; [None]]) 1 "sample"))
    = [[Some 3]; [None]].
Proof.
  do 3 eexists; split; reflexivity.
Qed.

(* ------------------------------------------------------------------ *)
(** ** Reconstruction errors: shapes, and what a masked cell contributes *)

Lemma head1_length (l : Linear) (hidden : mat) (v : vec) :
  head1 l hidden = Ok v -> length v = length hidden.
Proof.
  unfold head1; intros H.
  apply bind_ok_inv in H as (y & Hy & Hv).
  apply mapM_ok_length in Hv; apply linear_ok in Hy as (Hl & _).
  unfold vec, mat in *; congruence.
Qed.

(** C2.  What the decoder classes return: the Normal and LogNormal decoders
    a 1-D tensor with one entry per sample; the Poisson, Categorical and
    Ordinal decoders a 0-dim tensor (the loss functions they call reduce
    over the batch with [reduction='mean']), whatever the batch size. *)
Theorem reconstruction_error_shape :
  forall (d : VarDecoder) bn (input_tensor : vec) (hidden : mat) dim t,
    reconstruction_error d bn input_tensor hidden dim = Ok t ->
    match decoder_kind d with
    | real | positive_real => shape01 t = [length hidden]
    | count | categorical | ordinal => shape01 t = []
    end.
Proof.
  intros d bn x h dim t H.
  destruct d as [ft m v|ft m v|ft l|ft l|ft th rg]; cbn [decoder_kind];
    cbn [reconstruction_error] in H.
  1,2: unfold NormalDecoder.reconstruction_error in H;
       apply bind_ok_inv in H as (rv & _ & H);
       apply bind_ok_inv in H as (rm & _ & H);
       apply bind_ok_inv in H as (mu & Hmu & H);
       apply bind_ok_inv in H as (vv & Hvv & H);
       inversion H; subst; cbn [shape01];
       apply head1_length in Hmu; apply head1_length in Hvv;
       rewrite zip_with_length, !length_map; f_equal; lia.
  - unfold PoissonDecoder.reconstruction_error in H.
    apply bind_ok_inv in H as (lam & _ & H).
    apply bind_ok_inv in H as (err & _ & H).
    inversion H; reflexivity.
  - unfold CategoricalDecoder.reconstruction_error in H.
    apply bind_ok_inv in H as (dists & _ & H).
    apply bind_ok_inv in H as (ce & _ & H).
    inversion H; reflexivity.
  - unfold OrdinalDecoder.reconstruction_error in H.
    apply bind_ok_inv in H as (mn & _ & H).
    apply bind_ok_inv in H as (probs & _ & H).
    apply bind_ok_inv in H as (ce & _ & H).
    inversion H; reflexivity.
Qed.

(** The categorical decoder on a batch of two samples with labels 1 and 0:
    the call succeeds and its result is a 0-dim tensor, not a tensor of
    length 2. *)
Lemma reconstruction_error_shape_witness :
  exists t,
    reconstruction_error
      (Categorical Examples.binary_spec Examples.binary_head)
      (Examples.bn_init 1 false) [1; 0] [[0; 1]; [0; 1]] 0 = Ok t /\
    shape01 t = [] /\ shape01 t <> [2%nat].
Proof.
  assert (H : exists t,
             reconstruction_error
               (Categorical Examples.binary_spec Examples.binary_head)
               (Examples.bn_init 1 false) [1; 0] [[0; 1]; [0; 1]] 0 = Ok t).
  { cbn -[trunc]; rewrite (trunc_IZR 1), (trunc_IZR 0); cbn.
    eexists; reflexivity. }
  destruct H as (t & Ht); exists t.
  pose proof (reconstruction_error_shape _ _ _ _ _ _ Ht) as Hs.
  cbn [decoder_kind] in Hs.
  split; [exact Ht|]; split; [exact Hs|].
  rewrite Hs; discriminate.
Defined.

(** The Normal decoder on two samples: entry [i] of its result adds up the
    log-densities of both input values under the distribution of sample
    [i] (the broadcast of [(n, 1)] parameters against an [(n,)] value). *)
Lemma normal_decoder_sums_over_batch (mean var : Linear) (bn : BatchNorm1d)
  (x0 x1 : R) (hidden : mat) (dim : nat) (rv rm m0 m1 v0 v1 : R) :
  nth_error (running_var bn) dim = Some rv ->
  nth_error (running_mean bn) dim = Some rm ->
  head1 mean hidden = Ok [m0; m1] ->
  head1 var hidden = Ok [v0; v1] ->
  let loc m := m * sqrt rv + rm in
  let scale v := sqrt (softplus v) * sqrt rv in
  let value x := x * sqrt rv + rm in
  NormalDecoder.reconstruction_error mean var bn [x0; x1] hidden dim
  = Ok (T1 [- (normal_log_prob (loc m0) (scale v0) (value x0)
               + (normal_log_prob (loc m0) (scale v0) (value x1) + 0));
            - (normal_log_prob (loc m1) (scale v1) (value x0)
               + (normal_log_prob (loc m1) (scale v1) (value x1) + 0))]).
Proof.
  intros Hrv Hrm Hm Hv; cbv zeta.
  unfold NormalDecoder.reconstruction_error, nth_or_index_error.
  rewrite Hrv, Hrm; cbn [bind].
  rewrite Hm; cbn [bind]; rewrite Hv; reflexivity.
Qed.

Lemma softmax_logits_differ (l0 l1 : R) :
  l0 = 0 -> l1 = 1 ->
  exp l0 / (exp l0 + (exp l1 + 0)) <> exp l1 / (exp l0 + (exp l1 + 0)).
Proof.
  intros -> ->.
  pose proof (exp_pos 1) as Hp.
  pose proof (exp_ineq1 1 ltac:(lra)) as H1.
  rewrite exp_0.
  intros H.
  apply (Rmult_eq_compat_r (1 + (exp 1 + 0))) in H.
  unfold Rdiv in H; rewrite !Rmult_assoc, Rinv_l in H by lra.
  lra.
Qed.

(** C1 fails on the code.  One categorical feature, two samples, the cell
    of the second sample unobserved.  Changing only the value stored in that
    unobserved cell (0 or 1) changes the reconstruction loss of the first
    sample, whose cell is observed: the categorical decoder returns the mean
    of the cross-entropy terms of the whole batch, masked cells included,
    and that one number is written into every row before the mask is
    applied.  The masked entry itself is 0 in both cases. *)
Theorem unobserved_cell_changes_loss :
  exists la za lb zb,
    HIDecoder.reconstruction_error Examples.binary_decoder
      (Examples.bn_init 1 false) [[1]; [0]]
      Examples.latent2 Examples.mix2 Examples.second_unobserved
    = Ok [la; za] /\
    HIDecoder.reconstruction_error Examples.binary_decoder
      (Examples.bn_init 1 false) [[1]; [1]]
      Examples.latent2 Examples.mix2 Examples.second_unobserved
    = Ok [lb; zb] /\
    za = 0 /\ zb = 0 /\ la <> lb.
Proof.
  do 4 eexists.
  split.
  { unfold HIDecoder.reconstruction_error.
    cbn -[trunc]; rewrite (trunc_IZR 1), (trunc_IZR 0); cbn.
    rewrite Pos2Nat.inj_1; reflexivity. }
  split.
  { unfold HIDecoder.reconstruction_error.
    cbn -[trunc]; rewrite (trunc_IZR 1); cbn.
    rewrite Pos2Nat.inj_1; reflexivity. }
  split; [lra|]; split; [lra|].
  unfold rmean, rsum; cbn [fold_right length INR].
  set (l0 := 0 * 0 + (0 * 1 + 0) + 0).
  set (l1 := 0 * 0 + (0 * 1 + 0) + 1).
  assert (Hl0 : l0 = 0) by (unfold l0; lra).
  assert (Hl1 : l1 = 1) by (unfold l1; lra).
  pose proof (softmax_logits_differ l0 l1 Hl0 Hl1) as Hd.
  set (d0 := exp l0 / (exp l0 + (exp l1 + 0))) in *.
  set (d1 := exp l1 / (exp l0 + (exp l1 + 0))) in *.
  set (L := ln (exp d0 + (exp d1 + 0))).
  intros H; apply Hd; lra.
Qed.

(** The same effect on inputs as [forward] produces them (a missing cell
    holds 0 after [normalize]): the loss of an observed sample is one value
    when the sample is alone in the batch and another when a sample with an
    unobserved cell is added to the batch. *)
Lemma masked_sample_changes_batch_loss :
  exists alone la za,
    HIDecoder.reconstruction_error Examples.binary_decoder
      (Examples.bn_init 1 false) [[1]] [[0]] [[1]] [[true]]
    = Ok [alone] /\
    HIDecoder.reconstruction_error Examples.binary_decoder
      (Examples.bn_init 1 false) [[1]; [0]]
      Examples.latent2 Examples.mix2 Examples.second_unobserved
    = Ok [la; za] /\
    alone <> la.
Proof.
  do 3 eexists.
  split.
  { unfold HIDecoder.reconstruction_error.
    cbn -[trunc]; rewrite (trunc_IZR 1); cbn.
    rewrite Pos2Nat.inj_1; reflexivity. }
  split.
  { unfold HIDecoder.reconstruction_error.
    cbn -[trunc]; rewrite (trunc_IZR 1), (trunc_IZR 0); cbn.
    rewrite Pos2Nat.inj_1; reflexivity. }
  unfold rmean, rsum; cbn [fold_right length INR].
  set (l0 := 0 * 0 + (0 * 1 + 0) + 0).
  set (l1 := 0 * 0 + (0 * 1 + 0) + 1).
  assert (Hl0 : l0 = 0) by (unfold l0; lra).
  assert (Hl1 : l1 = 1) by (unfold l1; lra).
  pose proof (softmax_logits_differ l0 l1 Hl0 Hl1) as Hd.
  set (d0 := exp l0 / (exp l0 + (exp l1 + 0))) in *.
  set (d1 := exp l1 / (exp l0 + (exp l1 + 0))) in *.
  set (L := ln (exp d0 + (exp d1 + 0))).
  intros H; apply Hd; lra.
Qed.

(* ================================================================== *)
(** * Further properties of the code                                   *)
(* ================================================================== *)

(** ** Numeric facts about the primitives *)

Lemma softplus_pos (x : R) : 0 < softplus x.
Proof.
  unfold softplus; destruct (Rlt_dec 20 x) as [H|_]; [lra|].
  rewrite <- ln_1; apply ln_increasing; [lra|].
  pose proof (exp_pos x); lra.
Qed.

Lemma Int_part_nonneg (x : R) : 0 <= x -> (0 <= Int_part x)%Z.
Proof.
  intros Hx; unfold Int_part.
  destruct (archimed x) as [Hup _].
  assert (H : (0 < up x)%Z) by (apply lt_IZR; simpl; lra).
  lia.
Qed.

Lemma trunc_nonneg (x : R) : 0 <= x -> (0 <= trunc x)%Z.
Proof.
  intros Hx; unfold trunc.
  destruct (Rle_dec 0 x); [apply Int_part_nonneg; assumption | contradiction].
Qed.

Lemma rsum_exp_pos (row : vec) : row <> [] -> 0 < rsum (map exp row).
Proof.
  destruct row as [|x row]; [contradiction|]; intros _.
  cbn [map rsum fold_right]; fold (rsum (map exp row)).
  assert (H : 0 <= rsum (map exp row)).
  { induction row as [|y row IH]; cbn; [lra|].
    fold (rsum (map exp row)); pose proof (exp_pos y); lra. }
  pose proof (exp_pos x); lra.
Qed.

Lemma rsum_map_div (l : vec) (s : R) :
  rsum (map (fun x => x / s) l) = rsum l / s.
Proof.
  induction l as [|x l IH]; cbn; [unfold Rdiv; ring|].
  fold (rsum (map (fun x => x / s) l)); fold (rsum l).
  rewrite IH; unfold Rdiv; ring.
Qed.

Lemma softmax_length (row : vec) : length (softmax row) = length row.
Proof. unfold softmax; apply length_map. Qed.

(** A softmax row is a probability vector. *)
Lemma softmax_simplex (row : vec) :
  row <> [] ->
  rsum (softmax row) = 1 /\ Forall (fun p => 0 < p) (softmax row).
Proof.
  intros Hne; pose proof (rsum_exp_pos row Hne) as Hs.
  unfold softmax; split.
  - rewrite <- (map_map exp (fun e => e / rsum (map exp row))).
    rewrite rsum_map_div; field; lra.
  - apply Forall_forall; intros p Hp; apply in_map_iff in Hp as (x & <- & _).
    apply Rdiv_lt_0_compat; [apply exp_pos | assumption].
Qed.

Lemma cumsum_from_length (l : vec) (acc : R) :
  length (cumsum_from acc l) = length l.
Proof.
  revert acc; induction l as [|x l IH]; intros acc; cbn; [reflexivity|].
  now rewrite IH.
Qed.

Lemma roll1_length (l : vec) : length (roll1 l) = length l.
Proof.
  unfold roll1; rewrite <- (length_rev l).
  destruct (rev l) as [|a r]; cbn; [reflexivity|].
  now rewrite length_rev.
Qed.

Lemma set_first_zero_ok (row r : vec) :
  OrdinalDecoder.set_first_zero row = Ok r ->
  row <> [] /\ length r = length row.
Proof.
  destruct row as [|a row]; cbn; intros H; [discriminate|].
  inversion H; split; [discriminate | reflexivity].
Qed.

(* ------------------------------------------------------------------ *)
(** ** The ordinal decoder's probabilities *)

Lemma zip_with_nonempty {A B C : Type} (f : A -> B -> C) (la : list A)
  (lb : list B) :
  la <> [] -> lb <> [] -> zip_with f la lb <> [].
Proof. destruct la, lb; cbn; intros; congruence. Qed.

Lemma Forall2_zip_with_map {A B C D : Type} (f : A -> B -> C) (g : C -> D)
  (P : D -> Prop) (la : list A) (lb : list B) :
  (forall a b, In a la -> In b lb -> P (g (f a b))) ->
  Forall P (map g (zip_with f la lb)).
Proof.
  revert lb; induction la as [|a la IH]; intros [|b lb] H; cbn; constructor.
  - apply H; left; reflexivity.
  - apply IH; intros a' b' Ha Hb; apply H; right; assumption.
Qed.

Lemma get_ordinal_probs_shape (thresholds region : Linear)
  (hidden probs : mat) :
  OrdinalDecoder.get_ordinal_probs thresholds region hidden = Ok probs ->
  length probs = length hidden /\
  (wf_Linear thresholds ->
   Forall (fun row => length row = out_features thresholds) probs).
Proof.
  intros H.
  unfold OrdinalDecoder.get_ordinal_probs in H.
  apply bind_ok_inv in H as (r & Hr & H).
  apply bind_ok_inv in H as (t & Ht & H).
  apply bind_ok_inv in H as (cmp & Hcmp & H).
  inversion H; subst probs; clear H.
  apply head1_length in Hr.
  apply linear_ok in Ht as (Htl & _ & Htw).
  pose proof (mapM_ok_length _ _ _ Hcmp) as Hcl.
  apply mapM_ok_Forall2 in Hcmp.
  set (tp := zip_with
               (fun row r0 => map (fun x => 1 / (1 + exp (- (x - r0)))) row)
               (map (fun row => cumsum (map softplus row)) t)
               (map softplus r)) in *.
  assert (Htpl : length tp = length hidden).
  { unfold tp; rewrite zip_with_length, !length_map.
    unfold vec, mat in *; lia. }
  split.
  - rewrite length_map, zip_with_length; unfold vec, mat in *; lia.
  - intros Hwf; specialize (Htw Hwf).
    assert (Htpw : Forall (fun row => length row = out_features thresholds) tp).
    { unfold tp; clear - Htw.
      revert Htw; generalize (map softplus r) as rs.
      induction t as [|row t IH]; intros rs Hw; cbn; [constructor|].
      destruct rs as [|r0 rs]; [constructor|].
      inversion Hw; subst; constructor; [|apply IH; assumption].
      unfold cumsum; now rewrite length_map, cumsum_from_length, length_map. }
    clear Htpl Hcl.
    induction Hcmp as [|p c tp' cmp' Hpc _ IH]; cbn [map zip_with];
      [constructor|].
    inversion Htpw; subst.
    constructor; [|apply IH; assumption].
    apply set_first_zero_ok in Hpc as (_ & Hlen).
    rewrite roll1_length in Hlen.
    rewrite softmax_length, zip_with_length; unfold vec in *; lia.
Qed.

(** X1.  Whenever [get_ordinal_probs] returns, it returns one row per
    sample, and every row is a probability vector (positive entries that
    add up to 1) with as many entries as the threshold head has outputs. *)
Theorem get_ordinal_probs_simplex :
  forall (thresholds region : Linear) (hidden probs : mat),
    OrdinalDecoder.get_ordinal_probs thresholds region hidden = Ok probs ->
    length probs = length hidden /\
    Forall (fun row => rsum row = 1 /\ Forall (fun p => 0 < p) row) probs /\
    (wf_Linear thresholds ->
     Forall (fun row => length row = out_features thresholds) probs).
Proof.
  intros th rg h probs H.
  unfold OrdinalDecoder.get_ordinal_probs in H.
  apply bind_ok_inv in H as (r & Hr & H).
  apply bind_ok_inv in H as (t & Ht & H).
  apply bind_ok_inv in H as (cmp & Hcmp & H).
  inversion H; subst probs; clear H.
  apply head1_length in Hr.
  apply linear_ok in Ht as (Htl & _ & Htw).
  pose proof (mapM_ok_length _ _ _ Hcmp) as Hcl.
  apply mapM_ok_Forall2 in Hcmp.
  set (tp := zip_with
               (fun row r0 => map (fun x => 1 / (1 + exp (- (x - r0)))) row)
               (map (fun row => cumsum (map softplus row)) t)
               (map softplus r)) in *.
  assert (Htpl : length tp = length h).
  { unfold tp; rewrite zip_with_length, !length_map.
    unfold vec, mat in *; lia. }
  split; [|split].
  - rewrite length_map, zip_with_length; unfold vec, mat in *; lia.
  - clear Htpl Hcl.
    induction Hcmp as [|p c tp' cmp' Hpc _ IH]; cbn [map zip_with];
      [constructor|].
    constructor; [|exact IH].
    apply set_first_zero_ok in Hpc as (Hne & Hlen).
    rewrite roll1_length in Hlen.
    apply softmax_simplex, zip_with_nonempty.
    + intros ->; apply Hne; reflexivity.
    + intros ->; destruct p; [apply Hne; reflexivity | discriminate].
  - intros Hwf; specialize (Htw Hwf).
    assert (Htpw : Forall (fun row => length row = out_features th) tp).
    { unfold tp; clear - Htw.
      revert Htw; generalize (map softplus r) as rs.
      induction t as [|row t IH]; intros rs Hw; cbn; [constructor|].
      destruct rs as [|r0 rs]; [constructor|].
      inversion Hw; subst; constructor; [|apply IH; assumption].
      unfold cumsum; now rewrite length_map, cumsum_from_length, length_map. }
    clear Htpl Hcl.
    induction Hcmp as [|p c tp' cmp' Hpc _ IH]; cbn [map zip_with];
      [constructor|].
    inversion Htpw; subst.
    constructor; [|apply IH; assumption].
    apply set_first_zero_ok in Hpc as (_ & Hlen).
    rewrite roll1_length in Hlen.
    rewrite softmax_length, zip_with_length; unfold vec in *; lia.
Qed.

(** An ordinal decoder with three thresholds on one sample. *)
Lemma get_ordinal_probs_simplex_witness :
  exists probs,
    OrdinalDecoder.get_ordinal_probs Examples.ordinal_thresholds
      Examples.ordinal_region [[0; 1]] = Ok probs /\
    length probs = 1%nat /\
    Forall (fun row => rsum row = 1 /\ Forall (fun p => 0 < p) row) probs.
Proof.
  eexists; split; [reflexivity|].
  destruct (get_ordinal_probs_simplex Examples.ordinal_thresholds
              Examples.ordinal_region [[0; 1]] _ eq_refl) as (Hl & Hs & _).
  split; [exact Hl | exact Hs].
Defined.

(* ------------------------------------------------------------------ *)
(** ** Predictions: the decoders' forward methods *)

Lemma argmax1_bound (x : mat) (idx : list nat) (k : nat) :
  argmax1 x = Ok idx ->
  Forall (fun r => length r = k) x ->
  length idx = length x /\ Forall (fun i => (i < k)%nat) idx.
Proof.
  unfold argmax1; intros H Hw.
  split; [eapply mapM_ok_length; eassumption|].
  apply mapM_ok_Forall2 in H.
  induction H as [|r i x' idx' Hri _ IH]; [constructor|].
  inversion Hw; subst; constructor; [|apply IH; assumption].
  now apply argmax_bound in Hri.
Qed.

Lemma gumbel_softmax_length (g : nat -> nat -> R) (pi : mat) :
  length (HIEncoder.gumbel_softmax g pi) = length pi.
Proof.
  unfold HIEncoder.gumbel_softmax.
  rewrite length_map, length_combine, length_seq; lia.
Qed.

Lemma normal_forward_mode_raises (mean var : Linear) eps hidden dim :
  exists e,
    NormalDecoder.forward mean var eps hidden dim "mode" = Raise e.
Proof.
  unfold NormalDecoder.forward.
  destruct (head1 mean hidden) as [m|e]; cbn; eauto.
Qed.

Lemma fill_reconstruction_mode_raises (models : list VarDecoder) :
  forall dim noise h reconstruction,
    (exists d, In d models /\
               (decoder_kind d = real \/ decoder_kind d = positive_real)) ->
    exists e,
      HIDecoder.fill_reconstruction models dim noise h "mode" reconstruction
      = Raise e.
Proof.
  induction models as [|d0 models IH]; intros dim noise h rec (d & Hin & Hk).
  - destruct Hin.
  - cbn [HIDecoder.fill_reconstruction].
    destruct Hin as [->|Hin].
    + destruct d as [ft m v|ft m v|ft l|ft l|ft th rg]; cbn in Hk;
        try (destruct Hk; discriminate); cbn [decoder_forward].
      * destruct (normal_forward_mode_raises m v (randn noise dim) h dim)
          as (e & He); rewrite He; cbn; eauto.
      * unfold LogNormalDecoder.forward.
        destruct (normal_forward_mode_raises m v (randn noise dim) h dim)
          as (e & He); rewrite He; cbn; eauto.
    + destruct (decoder_forward d0 noise h dim "mode") as [v|e]; [|cbn; eauto].
      cbn [bind].
      destruct (broadcast1 (length rec) (T1 v)) as [c|e]; [|cbn; eauto].
      cbn [bind]; apply IH; eauto.
Qed.

(** X2.  [HIDecoder.forward] in its default mode "mode" never returns a
    reconstruction when one of the features is real or positive_real: the
    Normal decoder squeezes dimension 1 of a tensor it has already made
    1-D, which raises (or an earlier step has raised). *)
Theorem hidecoder_forward_mode_raises :
  forall (self : HIDecoder.t) noise latent_tensor mix_components,
    (exists d, In d (HIDecoder.decoding_models self) /\
               (decoder_kind d = real \/ decoder_kind d = positive_real)) ->
    exists e,
      HIDecoder.forward self noise latent_tensor mix_components "mode"
      = Raise e.
Proof.
  intros self noise lat mix Hd; unfold HIDecoder.forward.
  destruct (sequential (HIDecoder.hidden self) lat) as [h|e]; [|cbn; eauto].
  cbn [bind].
  destruct (cat1 h mix) as [h'|e]; [|cbn; eauto].
  cbn [bind]; apply fill_reconstruction_mode_raises; assumption.
Qed.

(** One real feature, two samples: the Normal head succeeds and the
    second squeeze raises IndexError. *)
Lemma hidecoder_forward_mode_raises_witness :
  HIDecoder.forward
    (HIDecoder.mk [] [Normal (mkSpec real None None)
                             (Examples.head_const 0) (Examples.head_const 0)])
    Examples.zero_noise Examples.latent2 Examples.mix2 "mode"
  = Raise IndexError.
Proof.
  destruct (hidecoder_forward_mode_raises
              (HIDecoder.mk [] [Normal (mkSpec real None None)
                                  (Examples.head_const 0)
                                  (Examples.head_const 0)])
              Examples.zero_noise Examples.latent2 Examples.mix2) as (e & He).
  - eexists; split; [left; reflexivity | left; reflexivity].
  - rewrite He; revert He; cbn; intros He; inversion He; reflexivity.
Defined.

Lemma combine_seq_length {A : Type} (l : list A) :
  length (combine (seq 0 (length l)) l) = length l.
Proof. rewrite length_combine, length_seq; lia. Qed.

Lemma to_int32_in_range (x : R) :
  0 <= x -> x < 2147483648 ->
  to_int32 x = trunc x /\ (0 <= trunc x)%Z.
Proof.
  intros H0 Hlt.
  pose proof (trunc_nonneg x H0) as Hnn.
  assert (Hle : (trunc x <= int32_max)%Z).
  { unfold trunc, int32_max in *.
    destruct (Rle_dec 0 x) as [_|Hn]; [|contradiction].
    destruct (base_Int_part x) as (Hb & _).
    assert (Hz : (Int_part x < 2147483648)%Z) by (apply lt_IZR; lra).
    lia. }
  split; [|exact Hnn].
  unfold to_int32.
  replace (int32_min <=? trunc x)%Z with true
    by (symmetry; apply Z.leb_le; unfold int32_min; lia).
  replace (trunc x <=? int32_max)%Z with true
    by (symmetry; apply Z.leb_le; exact Hle).
  reflexivity.
Qed.

(** X3.  Whenever a decoder's [forward] returns, it returns one value per
    sample, and the value is a valid one for the feature type: not negative
    for the log-normal decoder; a non-negative integer for the Poisson
    decoder (in mode "mode" as long as every rate is below 2^31, beyond
    which the conversion to int32 is out of range); a class index below the
    number of logits for the categorical decoder; and an index below the
    number of thresholds for the ordinal decoder (the index into the code
    range: [feat_min] is not added back). *)
Theorem decoder_forward_valid :
  forall (d : VarDecoder) noise (hidden : mat) dim mode (v : vec),
    decoder_forward d noise hidden dim mode = Ok v ->
    length v = length hidden /\
    match d with
    | Normal _ _ _ => True
    | LogNormal _ _ _ => Forall (fun x => 0 <= x) v
    | Poisson _ l =>
        (mode = "mode"%string ->
         forall lam, head1 l hidden = Ok lam ->
                     Forall (fun x => softplus x < 2147483648) lam) ->
        Forall (fun x => exists z, (0 <= z)%Z /\ x = IZR z) v
    | Categorical _ l =>
        wf_Linear l ->
        Forall (fun x => exists k, (k < out_features l)%nat /\ x = INR k) v
    | Ordinal _ th _ =>
        wf_Linear th ->
        Forall (fun x => exists k, (k < out_features th)%nat /\ x = INR k) v
    end.
Proof.
  intros d noise h dim mode v H.
  assert (Hnormal : forall m s eps y,
             NormalDecoder.forward m s eps h dim mode = Ok y ->
             length y = length h).
  { intros m s eps y Hy; unfold NormalDecoder.forward in Hy.
    apply bind_ok_inv in Hy as (mu & Hmu & Hy).
    destruct (String.eqb mode "mode"); [discriminate|].
    apply bind_ok_inv in Hy as (vv & Hvv & Hy).
    inversion Hy; subst y; clear Hy.
    apply head1_length in Hmu; apply head1_length in Hvv.
    rewrite length_map, !length_combine, length_seq, length_map.
    unfold vec, mat in *; lia. }
  assert (Hidx : forall (x : mat) (idx : list nat) (k : nat),
             Forall (fun i => (i < k)%nat) idx ->
             Forall (fun x => exists j, (j < k)%nat /\ x = INR j) (map INR idx)).
  { intros _ idx k Hk; apply Forall_forall; intros x Hx.
    apply in_map_iff in Hx as (i & <- & Hi).
    rewrite Forall_forall in Hk; eauto. }
  destruct d as [ft m s|ft m s|ft l|ft l|ft th rg]; cbn [decoder_forward] in H.
  - split; [eapply Hnormal; eassumption | exact I].
  - unfold LogNormalDecoder.forward in H.
    apply bind_ok_inv in H as (y & Hy & H); inversion H; subst v.
    rewrite length_map; split; [eapply Hnormal; eassumption|].
    apply Forall_forall; intros x Hx; apply in_map_iff in Hx as (z & <- & _).
    left; apply exp_pos.
  - unfold PoissonDecoder.forward in H.
    apply bind_ok_inv in H as (lam & Hlam & H).
    pose proof (head1_length _ _ _ Hlam) as Hlen.
    destruct (String.eqb mode "mode") eqn:Hmode; inversion H; subst v; clear H.
    + rewrite !length_map; split; [assumption|].
      intros Hrange; apply String.eqb_eq in Hmode.
      specialize (Hrange Hmode lam Hlam); rewrite Forall_forall in Hrange.
      apply Forall_forall; intros x Hx; apply in_map_iff in Hx as (y & <- & Hy).
      apply in_map_iff in Hy as (z & <- & Hz).
      pose proof (softplus_pos z) as Hpos.
      destruct (to_int32_in_range (softplus z) ltac:(lra) (Hrange z Hz))
        as (Heq & Hnn).
      exists (trunc (softplus z)); split; [exact Hnn | rewrite Heq; reflexivity].
    + rewrite length_map, combine_seq_length, length_map.
      split; [assumption|]; intros _.
      apply Forall_forall; intros x Hx; apply in_map_iff in Hx as (p & <- & _).
      exists (Z.of_nat (poisson_draw noise dim (fst p) (snd p))).
      split; [lia | apply INR_IZR_INZ].
  - apply bind_ok_inv in H as (idx & Hi & H); inversion H; subst v; clear H.
    unfold CategoricalDecoder.forward in Hi.
    apply bind_ok_inv in Hi as (dist & Hd & Hi).
    apply linear_ok in Hd as (Hdl & _ & Hdw).
    rewrite length_map.
    destruct (String.eqb mode "mode").
    + split.
      * apply mapM_ok_length in Hi; unfold vec, mat in *; congruence.
      * intros Hwf; apply (Hidx dist).
        apply (argmax1_bound dist idx _ Hi (Hdw Hwf)).
    + split.
      * apply mapM_ok_length in Hi; rewrite gumbel_softmax_length in Hi.
        unfold vec, mat in *; congruence.
      * intros Hwf; apply (Hidx dist).
        apply (argmax1_bound _ idx _ Hi).
        apply gumbel_softmax_width, Hdw, Hwf.
  - apply bind_ok_inv in H as (idx & Hi & H); inversion H; subst v; clear H.
    unfold OrdinalDecoder.forward in Hi.
    apply bind_ok_inv in Hi as (probs & Hp & Hi).
    apply get_ordinal_probs_shape in Hp as (Hpl & Hpw).
    rewrite length_map.
    destruct (String.eqb mode "mode").
    + split.
      * apply mapM_ok_length in Hi; unfold vec, mat in *; congruence.
      * intros Hwf; apply (Hidx probs).
        apply (argmax1_bound probs idx _ Hi (Hpw Hwf)).
    + split.
      * apply mapM_ok_length in Hi; rewrite gumbel_softmax_length in Hi.
        unfold vec, mat in *; congruence.
      * intros Hwf; apply (Hidx probs).
        apply (argmax1_bound _ idx _ Hi).
        apply gumbel_softmax_width, Hpw, Hwf.
Qed.

(** The two-class categorical decoder on two samples, mode "mode": two
    predictions, each a class index below 2. *)
Lemma decoder_forward_valid_witness :
  exists v,
    decoder_forward (Categorical Examples.binary_spec Examples.binary_head)
                    Examples.zero_noise [[0; 1]; [0; 1]] 0 "mode" = Ok v /\
    length v = 2%nat /\
    Forall (fun x => exists k, (k < 2)%nat /\ x = INR k) v.
Proof.
  eexists; split; [reflexivity|].
  destruct (decoder_forward_valid
              (Categorical Examples.binary_spec Examples.binary_head)
              Examples.zero_noise [[0; 1]; [0; 1]] 0 "mode"%string _ eq_refl)
    as (Hl & Hv).
  split; [exact Hl|].
  apply Hv; repeat split; repeat constructor.
Defined.

(* ------------------------------------------------------------------ *)
(** ** HIEncoder.normalize: the mask, failures, evaluation mode *)

Section NormalizeMore.

Import HIEncoder.

Lemma forallb_length_iff (x : mat) (k : nat) :
  forallb (fun row => (length row =? k)%nat) x = true
  <-> Forall (fun row => length row = k) x.
Proof.
  rewrite forallb_forall, Forall_forall.
  split; intros H row Hr; specialize (H row Hr); now apply Nat.eqb_eq.
Qed.

Lemma zero_fill_row_lengths (x : raw) (k : nat) :
  Forall (fun row => length row = k) (zero_fill x)
  <-> Forall (fun row => length row = k) x.
Proof.
  unfold zero_fill; rewrite Forall_map.
  split; apply Forall_impl; intros row; now rewrite length_map.
Qed.

Lemma log_transform_row_lengths (ft : FeatTypes) (x : mat) :
  Forall (fun row => length row = length ft) x ->
  Forall (fun row => length row = length ft) (log_transform ft x).
Proof.
  intros H; unfold log_transform; rewrite Forall_map.
  eapply Forall_impl; [|exact H]; intros row Hr; cbv beta in Hr.
  rewrite zip_with_length; unfold FeatTypes, vec in *; lia.
Qed.

(** X4.  [normalize] returns a result exactly when the feature list is not
    empty, every row has one cell per feature, the batch-norm layer was
    built for that many features, and the batch is not a training batch of
    exactly one row. *)
Theorem normalize_succeeds_iff :
  forall (self : t) (bn : BatchNorm1d) (x : raw),
    (exists r, fst (fst (normalize self bn x)) = Ok r) <->
    (feat_types self <> [] /\
     Forall (fun row => length row = length (feat_types self)) x /\
     Forall (fun row => length row = num_features bn) x /\
     (training bn = true -> length x <> 1%nat)).
Proof.
  intros self bn x; unfold normalize.
  destruct (feat_types self) as [|s0 ft0] eqn:Hft.
  { split; [intros (r & Hr); discriminate | intros (Hne & _); contradiction]. }
  rewrite <- Hft.
  set (ft := feat_types self).
  destruct (forallb (fun row => (length row =? length ft)%nat) (zero_fill x))
    eqn:Hw; cbn [negb].
  - apply forallb_length_iff in Hw.
    pose proof (proj1 (zero_fill_row_lengths x _) Hw) as Hwx.
    pose proof (log_transform_row_lengths ft _ Hw) as Hw1.
    unfold real_batch_norm, bn_forward.
    cbn [batch_norm_reset_hook training num_features].
    assert (Hnf : forallb (fun row => (length row =? num_features bn)%nat)
                          (log_transform ft (zero_fill x)) = true
                  <-> Forall (fun row => length row = num_features bn) x).
    { rewrite forallb_length_iff; split; intros H.
      - clear - H Hw1 Hwx.
        unfold log_transform, zero_fill in *.
        rewrite !Forall_map in *.
        rewrite Forall_forall in *; intros row Hr.
        specialize (H row Hr); specialize (Hw1 row Hr); specialize (Hwx row Hr).
        cbv beta in *; congruence.
      - clear - H Hw1 Hwx.
        unfold log_transform, zero_fill in *.
        rewrite !Forall_map in *.
        rewrite Forall_forall in *; intros row Hr.
        specialize (H row Hr); specialize (Hw1 row Hr); specialize (Hwx row Hr).
        cbv beta in *; congruence. }
    assert (Hlen : length (log_transform ft (zero_fill x)) = length x).
    { unfold log_transform, zero_fill; now rewrite !length_map. }
    rewrite Hlen.
    destruct (training bn) eqn:Htr.
    + destruct (length x =? 1)%nat eqn:H1.
      * apply Nat.eqb_eq in H1; cbn.
        split; [intros (r & Hr); discriminate|].
        intros (_ & _ & _ & Hn); exfalso; apply Hn; auto.
      * apply Nat.eqb_neq in H1.
        destruct (forallb _ (log_transform ft (zero_fill x))) eqn:Hs; cbn.
        -- split; [|eauto].
           intros _; split; [|split; [|split]].
           ++ subst ft; rewrite Hft; discriminate.
           ++ exact Hwx.
           ++ apply Hnf; reflexivity.
           ++ intros _; exact H1.
        -- split; [intros (r & Hr); discriminate|].
           intros (_ & _ & Hn & _); apply Hnf in Hn; congruence.
    + destruct (forallb _ (log_transform ft (zero_fill x))) eqn:Hs; cbn.
      * split; [|eauto].
        intros _; split; [|split; [|split]].
        -- subst ft; rewrite Hft; discriminate.
        -- exact Hwx.
        -- apply Hnf; reflexivity.
        -- discriminate.
      * split; [intros (r & Hr); discriminate|].
        intros (_ & _ & Hn & _); apply Hnf in Hn; congruence.
  - cbn; split; [intros (r & Hr); discriminate|].
    intros (_ & Hx & _).
    apply zero_fill_row_lengths, forallb_length_iff in Hx.
    unfold ft in *; rewrite Hx in Hw; discriminate.
Qed.

(** X5.  With a non-empty feature list, the tensor object holds no NaN
    after [normalize], whether the call returns or raises: the missing
    cells are overwritten before any of the checks that can fail. *)
Theorem normalize_always_overwrites_nan :
  forall (self : t) (bn : BatchNorm1d) (x : raw),
    feat_types self <> [] ->
    Forall (Forall (fun c : cell => c <> None))
           (snd (fst (normalize self bn x))).
Proof.
  intros self bn x Hne; unfold normalize.
  destruct (feat_types self) as [|s0 ft0] eqn:Hft; [contradiction|].
  assert (Hst : forall m, Forall (Forall (fun c : cell => c <> None)) (stored m)).
  { intros m; unfold stored; rewrite Forall_map.
    apply Forall_forall; intros row _; rewrite Forall_map.
    apply Forall_forall; intros v _; discriminate. }
  destruct (negb _); [apply Hst|].
  destruct (real_batch_norm bn _) as [r bn1]; apply Hst.
Qed.

End NormalizeMore.

(** A training batch of one row, with a missing cell: the call raises and
    the caller's tensor has lost the NaN. *)
Lemma normalize_always_overwrites_nan_witness :
  HIEncoder.normalize (Examples.encoder1 real 1) (Examples.bn_init 1 true)
                      [[None]]
  = (Raise ValueError, [[Some 0]],
     mkBN 1 [0] [1] (0 + 1) true) /\
  Forall (Forall (fun c : cell => c <> None))
         (snd (fst (HIEncoder.normalize (Examples.encoder1 real 1)
                      (Examples.bn_init 1 true) [[None]]))).
Proof.
  split; [reflexivity|].
  apply (normalize_always_overwrites_nan (Examples.encoder1 real 1)
           (Examples.bn_init 1 true) [[None]]).
  discriminate.
Defined.

(** Two rows over a real and a count feature in evaluation mode: all four
    conditions hold and [normalize] returns. *)
Lemma normalize_succeeds_iff_witness :
  exists r,
    fst (fst (HIEncoder.normalize
                (Examples.encoder_with_types
                   [mkSpec real None None; mkSpec count None None])
                (Examples.bn_init 2 false)
                [[Some 1; None]; [None; Some 3]])) = Ok r.
Proof.
  apply (proj2 (normalize_succeeds_iff
                  (Examples.encoder_with_types
                     [mkSpec real None None; mkSpec count None None])
                  (Examples.bn_init 2 false)
                  [[Some 1; None]; [None; Some 3]])).
  split; [discriminate|].
  split; [repeat constructor|].
  split; [repeat constructor | discriminate].
Defined.

Section NormalizeEntries.

Import HIEncoder.

(** X6.  When [normalize] returns, the mask has the shape of the input and
    an entry of the mask is false exactly where the input cell was NaN. *)
Theorem normalize_mask_marks_nan :
  forall (self : t) (bn : BatchNorm1d) (x : raw) normed mask obj bn',
    normalize self bn x = (Ok (normed, mask), obj, bn') ->
    length mask = length x /\
    Forall2 (fun mrow xrow => length mrow = length xrow) mask x /\
    forall i j xrow c,
      nth_error x i = Some xrow ->
      nth_error xrow j = Some c ->
      exists mrow b,
        nth_error mask i = Some mrow /\ nth_error mrow j = Some b /\
        (b = false <-> c = None).
Proof.
  intros self bn x normed mask obj bn' H.
  apply normalize_ok_inv in H as (_ & -> & _).
  unfold observed; split; [apply length_map|]; split.
  - induction x as [|row x IH]; cbn; constructor; [apply length_map | exact IH].
  - intros i j xrow c Hrow Hc.
    eexists; eexists.
    rewrite nth_error_map, Hrow; cbn [option_map].
    split; [reflexivity|].
    rewrite nth_error_map, Hc; cbn [option_map].
    split; [reflexivity|].
    destruct c; split; intros; congruence.
Qed.

(** X7.  In evaluation mode the running statistics are the reset ones when
    they are used, so [normalize] only rescales the real and positive_real
    columns by [1 / sqrt (1 + 1e-5)], whatever the layer saw in training,
    and it leaves the buffers reset. *)
Theorem normalize_eval_is_fixed_rescaling :
  forall (self : t) (bn : BatchNorm1d) (x : raw) normed mask obj bn',
    training bn = false ->
    normalize self bn x = (Ok (normed, mask), obj, bn') ->
    bn' = batch_norm_reset_hook bn /\
    forall i j row v s,
      nth_error normed i = Some row ->
      nth_error row j = Some v ->
      nth_error (feat_types self) j = Some s ->
      real_mask (feat_type s) = false ->
      exists xrow z,
        nth_error (log_transform (feat_types self) (zero_fill x)) i
        = Some xrow /\
        nth_error xrow j = Some z /\
        v = (z - 0) / sqrt (1 + bn_eps).
Proof.
  intros self bn x normed mask obj bn' Htr H.
  apply normalize_ok_inv in H as (_ & _ & y & Hy & ->).
  unfold real_batch_norm, bn_forward in Hy.
  cbn [batch_norm_reset_hook training num_features running_mean running_var]
    in Hy.
  rewrite Htr in Hy.
  destruct (negb _); [discriminate|].
  inversion Hy as [[Hyv Hbn]]; clear Hy.
  split; [reflexivity|].
  intros i j row v s Hrow Hv Hs Hmask.
  unfold restore in Hrow.
  apply nth_error_zip_with in Hrow as (nrow & xrow & Hn & Hx & ->).
  apply nth_error_zip_with in Hv as (s' & ni & Hs' & Hni & ->).
  rewrite Hs in Hs'; inversion Hs'; subst s'; rewrite Hmask.
  apply nth_error_combine in Hni as (Hnv & Hxv).
  exists xrow, (snd ni); split; [exact Hx|]; split; [exact Hxv|].
  unfold bn_apply in Hn; rewrite nth_error_map, Hx in Hn.
  cbn [option_map] in Hn; inversion Hn; subst nrow; clear Hn.
  apply nth_error_zip_with in Hnv as (z & mv & Hz & Hmv & ->).
  rewrite Hxv in Hz; inversion Hz; subst z.
  apply nth_error_repeat_pair_gen in Hmv; subst mv; reflexivity.
Qed.

End NormalizeEntries.

(* ------------------------------------------------------------------ *)
(** ** HIEncoder.forward: when it returns, and what it returns *)

Section EncoderForward.

Import HIEncoder.

Lemma linear_accepts (l : Linear) (x : mat) :
  Forall (fun r => length r = in_features l) x ->
  exists y, linear l x = Ok y.
Proof.
  unfold linear; induction 1 as [|r x Hr _ (y & Hy)]; cbn [mapM]; [eauto|].
  unfold linear_row at 1; rewrite Hr, Nat.eqb_refl; cbn [check bind].
  rewrite Hy; eauto.
Qed.

Lemma sequential_length (layers : list Linear) :
  forall x y, sequential layers x = Ok y -> length y = length x.
Proof.
  induction layers as [|l layers IH]; intros x y H; cbn in H.
  - inversion H; reflexivity.
  - apply bind_ok_inv in H as (z & Hz & H).
    apply linear_ok in Hz as (Hzl & _).
    apply IH in H; rewrite length_map in H; congruence.
Qed.

Lemma sequential_accepts (layers : list Linear) :
  forall (arch : list nat) (x : mat),
    arch <> [] ->
    Forall2 (fun l io => has_shape l (fst io) (snd io))
            layers (combine (removelast arch) (tl arch)) ->
    Forall (fun r => length r = hd 0%nat arch) x ->
    exists y, sequential layers x = Ok y.
Proof.
  induction layers as [|l layers IH]; intros arch x Hne Hsh Hx;
    cbn [sequential]; [eauto|].
  destruct arch as [|a [|b arch]]; [contradiction | inversion Hsh |].
  cbn [removelast tl combine] in Hsh.
  inversion Hsh as [|? ? ? ? (Hin & Hout & Hwf) Hrest]; subst.
  cbn [fst snd hd] in *.
  destruct (linear_accepts l x) as (z & Hz).
  { now rewrite Hin. }
  rewrite Hz; cbn [bind].
  apply linear_ok in Hz as (_ & _ & Hzw); specialize (Hzw Hwf).
  apply (IH (b :: arch)); [discriminate | exact Hrest |].
  apply Forall_forall; intros r Hr; apply in_map_iff in Hr as (r' & <- & Hr').
  rewrite length_map; cbn [hd].
  rewrite Forall_forall in Hzw; rewrite (Hzw r' Hr'); exact Hout.
Qed.

Lemma zmax_list_ge (l : list Z) (z : Z) : In z l -> (z <= zmax_list l)%Z.
Proof.
  induction l as [|a l IH]; cbn; [tauto|].
  intros [->|H]; [lia | specialize (IH H); unfold zmax_list in IH; lia].
Qed.

Lemma one_hot_row_widths (idx : list Z) (k : nat) :
  Forall (fun r => length r = k)
         (map (fun i => one_hot_row k (Z.to_nat i)) idx).
Proof.
  apply Forall_forall; intros r Hr; apply in_map_iff in Hr as (i & <- & _).
  apply one_hot_row_length.
Qed.

Lemma zip_app_widths (a b : mat) (wa wb : nat) :
  Forall (fun r => length r = wa) a ->
  Forall (fun r => length r = wb) b ->
  Forall (fun r => length r = (wa + wb)%nat) (zip_with (@app R) a b).
Proof.
  intros Ha; revert b; induction Ha as [|ra a Hra _ IH]; intros b Hb.
  - constructor.
  - destruct Hb as [|rb b Hrb Hb]; cbn [zip_with]; constructor.
    + rewrite length_app; lia.
    + apply IH; assumption.
Qed.

(** X8.  For an encoder with the layer shapes of [__init__], on a batch
    that got as far as the relaxed mixture sample, the rest of [forward]
    returns exactly when some sample's arg-max is the last mixture
    component. *)
Theorem forward_heads_ok_iff :
  forall hidden_sizes latent_dim (self : t) (encoded dists : mat) idx,
    init_shapes hidden_sizes latent_dim self ->
    sample_mix_components_ok self encoded dists ->
    argmax1 dists = Ok idx ->
    ((exists r, forward_heads self encoded dists = Ok r) <->
     In (n_mix_components self - 1)%nat idx).
Proof.
  intros hs ld self encoded dists idx Hsh Hs Hidx.
  split.
  - intros (r & Hr).
    destruct (in_dec Nat.eq_dec (n_mix_components self - 1)%nat idx)
      as [Hin|Hnin]; [exact Hin|].
    exfalso.
    destruct (forward_heads_raises hs ld self encoded dists idx Hsh Hs Hidx)
      as (_ & e & He); [|congruence].
    apply Forall_forall; intros i Hi ->; contradiction.
  - intros Hin.
    destruct Hsh as (sz & Hsz & Hmm & Hhid & Hmean & Hvar & _).
    cbv zeta in Hmm, Hhid, Hmean, Hvar.
    destruct Hs as (pi & g & Hpi & ->).
    destruct Hmm as (Hmi & Hmo & Hmwf).
    apply linear_ok in Hpi as (Hpl & Hpin & Hpout).
    specialize (Hpout Hmwf); rewrite Hmo in Hpout; rewrite Hmi in Hpin.
    pose proof (gumbel_softmax_width g pi _ Hpout) as Hdw.
    destruct (argmax1_bound _ idx _ Hidx Hdw) as (Hil & Hib).
    rewrite gumbel_softmax_length in Hil.
    set (n := n_mix_components self) in *.
    assert (Hn : (1 <= n)%nat).
    { rewrite Forall_forall in Hib; specialize (Hib _ Hin); lia. }
    assert (Hmax : zmax_list (map Z.of_nat idx) = (Z.of_nat n - 1)%Z).
    { apply Z.le_antisymm.
      - apply zmax_list_le; [lia|].
        apply Forall_forall; intros z Hz; apply in_map_iff in Hz as (i & <- & Hi).
        rewrite Forall_forall in Hib; specialize (Hib i Hi); lia.
      - replace (Z.of_nat n - 1)%Z with (Z.of_nat (n - 1)) by lia.
        apply zmax_list_ge, in_map; exact Hin. }
    unfold forward_heads, hard_one_hot; rewrite Hidx; cbn [bind].
    assert (Hoh : one_hot (map Z.of_nat idx) (-1)
                  = Ok (map (fun i => one_hot_row n (Z.to_nat i))
                            (map Z.of_nat idx))).
    { destruct idx as [|i0 idx]; [destruct Hin|].
      cbn [map] in *; unfold one_hot.
      replace (forallb (fun i => (0 <=? i)%Z)
                       (Z.of_nat i0 :: map Z.of_nat idx)) with true.
      - cbn [check bind]; rewrite Z.eqb_refl; cbn [bind]; rewrite Hmax.
        replace (Z.to_nat (Z.of_nat n - 1 + 1)) with n by lia.
        reflexivity.
      - symmetry; apply forallb_forall; intros z Hz.
        change (In z (map Z.of_nat (i0 :: idx))) in Hz.
        apply in_map_iff in Hz as (i & <- & _); apply Z.leb_le; lia. }
    rewrite Hoh; cbn [bind].
    destruct (sequential_accepts (hidden self)
                (architecture (Z.to_nat sz) hs) encoded) as (h & Hh);
      [discriminate | exact Hhid | exact Hpin |].
    rewrite Hh; cbn [bind].
    destruct (sequential_width (hidden self)
                (architecture (Z.to_nat sz) hs) encoded h)
      as (Hhl & Hhw); [discriminate | exact Hhid | exact Hpin | exact Hh |].
    unfold cat1.
    assert (Hcl : (length h =? length (map (fun i => one_hot_row n (Z.to_nat i))
                                           (map Z.of_nat idx)))%nat = true).
    { apply Nat.eqb_eq; rewrite !length_map.
      unfold vec, mat in *; congruence. }
    unfold vec, mat in *; rewrite Hcl; cbn [check bind].
    pose proof (zip_app_widths h _ _ n Hhw
                  (one_hot_row_widths (map Z.of_nat idx) n)) as Hw.
    destruct Hmean as (Hmin & _); destruct Hvar as (Hvin & _).
    destruct (linear_accepts (mean self) _ ltac:(rewrite Hmin; exact Hw))
      as (m & Hm).
    destruct (linear_accepts (var self) _ ltac:(rewrite Hvin; exact Hw))
      as (v & Hv).
    unfold vec, mat in *.
    rewrite Hm; cbn [bind]; rewrite Hv; cbn [bind]; eauto.
Qed.

End EncoderForward.

(** One mixture component: every arg-max is component 0, the last one, and
    the heads return. *)
Lemma forward_heads_ok_iff_witness :
  exists r,
    HIEncoder.forward_heads (Examples.encoder1 real 1) [[3]; [4]]
      (HIEncoder.gumbel_softmax Examples.no_noise
         [[0 * 3 + 0 + 0]; [0 * 4 + 0 + 0]]) = Ok r.
Proof.
  assert (Hsh : HIEncoder.init_shapes [] 1 (Examples.encoder1 real 1)).
  { exists 1%Z; split; [reflexivity|].
    cbv zeta; cbn.
    unfold HIEncoder.has_shape, wf_Linear; cbn.
    repeat split; repeat constructor. }
  assert (Hs : HIEncoder.sample_mix_components_ok (Examples.encoder1 real 1)
                 [[3]; [4]]
                 (HIEncoder.gumbel_softmax Examples.no_noise
                    [[0 * 3 + 0 + 0]; [0 * 4 + 0 + 0]])).
  { eexists; exists Examples.no_noise; split; reflexivity. }
  apply (proj2 (forward_heads_ok_iff [] 1%nat (Examples.encoder1 real 1)
                  [[3]; [4]]
                  (HIEncoder.gumbel_softmax Examples.no_noise
                     [[0 * 3 + 0 + 0]; [0 * 4 + 0 + 0]])
                  [0; 0]%nat Hsh Hs eq_refl)).
  left; reflexivity.
Defined.

Section EncoderForwardResult.

Import HIEncoder.

Lemma real_batch_norm_length (bn bn' : BatchNorm1d) (x y : mat) :
  real_batch_norm bn x = (Ok y, bn') -> length y = length x.
Proof.
  unfold real_batch_norm, bn_forward; intros H.
  destruct (training _).
  - destruct (length x =? 1)%nat; [discriminate|].
    destruct (negb _); [discriminate|].
    inversion H; unfold bn_apply; apply length_map.
  - destruct (negb _); [discriminate|].
    inversion H; unfold bn_apply; apply length_map.
Qed.

Lemma categorical_encode_from_length (ft : FeatTypes) :
  forall dim x enc encoded,
    categorical_encode_from ft dim x enc = Ok encoded ->
    length encoded = length enc.
Proof.
  induction ft as [|s ft IH]; intros dim x enc encoded H; cbn in H.
  - inversion H; reflexivity.
  - apply bind_ok_inv in H as (block & _ & H).
    apply bind_ok_inv in H as (enc' & Hc & H).
    apply IH in H; rewrite H.
    unfold cat1 in Hc; apply bind_ok_inv in Hc as (u & Hu & Hc).
    apply check_ok_inv, Nat.eqb_eq in Hu.
    inversion Hc; rewrite zip_with_length; lia.
Qed.

(** What a returning [forward] went through. *)
Lemma forward_inv (self : t) bn g (x : raw) mean std dists mask obj bn' :
  forward self bn g x = (Ok (mean, std, dists, mask), obj, bn') ->
  exists normed encoded,
    normalize self bn x = (Ok (normed, mask), obj, bn') /\
    categorical_encode self normed = Ok encoded /\
    sample_mix_components self g encoded = Ok dists /\
    forward_heads self encoded dists = Ok (mean, std).
Proof.
  unfold forward, forward_mix; intros H.
  destruct (normalize self bn x) as [[r o] b].
  inversion H as [[Hr Ho Hb]]; clear H.
  destruct r as [[normed m]|e]; [|discriminate].
  cbn [bind] in Hr.
  apply bind_ok_inv in Hr as (((enc & d) & m') & Hp & Hr).
  apply bind_ok_inv in Hp as (encoded & Henc & Hp).
  apply bind_ok_inv in Hp as (d' & Hd & Hp).
  inversion Hp; subst; clear Hp.
  apply bind_ok_inv in Hr as ((mu & sd) & Hh & Hr).
  inversion Hr; subst; clear Hr.
  exists normed, enc; auto.
Qed.

Lemma forward_heads_inv (self : t) (encoded dists mean std : mat) :
  forward_heads self encoded dists = Ok (mean, std) ->
  exists idx mix h v,
    argmax1 dists = Ok idx /\
    one_hot (map Z.of_nat idx) (-1) = Ok mix /\
    sequential (hidden self) encoded = Ok h /\
    length h = length mix /\
    linear (HIEncoder.mean self) (zip_with (@app R) h mix) = Ok mean /\
    linear (var self) (zip_with (@app R) h mix) = Ok v /\
    std = map (map (fun x => sqrt (softplus x))) v.
Proof.
  unfold forward_heads, hard_one_hot; intros H.
  apply bind_ok_inv in H as (mix & Hm & H).
  apply bind_ok_inv in Hm as (idx & Hidx & Hm).
  apply bind_ok_inv in H as (h & Hh & H).
  apply bind_ok_inv in H as (h' & Hc & H).
  apply bind_ok_inv in H as (mu & Hmu & H).
  apply bind_ok_inv in H as (v & Hv & H).
  inversion H; subst; clear H.
  unfold cat1 in Hc; apply bind_ok_inv in Hc as (u & Hu & Hc).
  apply check_ok_inv, Nat.eqb_eq in Hu.
  inversion Hc; subst h'; clear Hc.
  exists idx, mix, h, v; auto 10.
Qed.

(** X9.  When the encoder's [forward] returns, the batch is not empty and
    every returned tensor has one row per sample; with the layer shapes of
    [__init__], the mean and the standard deviation have [latent_dim]
    columns and the relaxed mixture sample has [n_mix_components]. *)
Theorem encoder_forward_shapes :
  forall hidden_sizes latent_dim (self : t) bn g (x : raw)
         mean std dists mask obj bn',
    init_shapes hidden_sizes latent_dim self ->
    forward self bn g x = (Ok (mean, std, dists, mask), obj, bn') ->
    x <> [] /\
    length mean = length x /\ length std = length x /\
    length dists = length x /\ length mask = length x /\
    Forall (fun r => length r = latent_dim) mean /\
    Forall (fun r => length r = latent_dim) std /\
    Forall (fun r => length r = n_mix_components self) dists.
Proof.
  intros hs ld self bn g x mean std dists mask obj bn' Hsh H.
  apply forward_inv in H as (normed & encoded & Hn & He & Hd & Hh).
  apply normalize_ok_inv in Hn as (_ & -> & y & Hy & ->).
  apply real_batch_norm_length in Hy.
  unfold categorical_encode in He.
  apply categorical_encode_from_length in He; rewrite length_map in He.
  assert (Hel : length encoded = length x).
  { rewrite He; unfold restore; rewrite zip_with_length, Hy.
    unfold log_transform, zero_fill; rewrite !length_map; lia. }
  unfold sample_mix_components in Hd.
  apply bind_ok_inv in Hd as (pi & Hpi & Hd); inversion Hd; subst dists.
  destruct Hsh as (sz & _ & Hmm & _ & Hmean & Hvar & _).
  cbv zeta in Hmm, Hmean, Hvar.
  destruct Hmm as (_ & Hmo & Hmwf).
  destruct Hmean as (_ & Hmeo & Hmewf); destruct Hvar as (_ & Hvo & Hvwf).
  apply linear_ok in Hpi as (Hpl & _ & Hpw); specialize (Hpw Hmwf).
  rewrite Hmo in Hpw.
  apply forward_heads_inv in Hh
    as (idx & mix & h & v & Hidx & Hoh & Hseq & Hhl & Hmu & Hv & ->).
  apply sequential_length in Hseq.
  apply linear_ok in Hmu as (Hmul & _ & Hmuw); specialize (Hmuw Hmewf).
  apply linear_ok in Hv as (Hvl & _ & Hvw); specialize (Hvw Hvwf).
  rewrite zip_with_length in Hmul, Hvl.
  rewrite gumbel_softmax_length.
  unfold vec, mat in *.
  assert (Hx : x <> []).
  { intros ->; cbn in Hel.
    destruct encoded; [|discriminate].
    destruct pi; [|discriminate].
    cbn in Hidx; inversion Hidx; subst idx; discriminate. }
  repeat split; try assumption.
  - lia.
  - rewrite length_map; lia.
  - lia.
  - unfold observed; apply length_map.
  - now rewrite <- Hmeo.
  - rewrite Forall_map; eapply Forall_impl; [|exact Hvw].
    intros r Hr; cbv beta in *; rewrite length_map; congruence.
  - apply gumbel_softmax_width; assumption.
Qed.

(** X10.  When the encoder's [forward] returns, no standard deviation is
    negative, and every row of the relaxed mixture sample is a probability
    vector: entries that are not negative and add up to 1. *)
Theorem encoder_forward_values :
  forall (self : t) bn g (x : raw) mean std dists mask obj bn',
    forward self bn g x = (Ok (mean, std, dists, mask), obj, bn') ->
    Forall (Forall (fun s => 0 <= s)) std /\
    Forall (fun row => rsum row = 1 /\ Forall (fun p => 0 <= p) row) dists.
Proof.
  intros self bn g x mean std dists mask obj bn' H.
  apply forward_inv in H as (normed & encoded & _ & _ & Hd & Hh).
  apply forward_heads_inv in Hh
    as (idx & mix & h & v & Hidx & _ & _ & _ & _ & _ & ->).
  split.
  - rewrite Forall_map; apply Forall_forall; intros row _.
    rewrite Forall_map; apply Forall_forall; intros z _.
    apply sqrt_pos.
  - unfold sample_mix_components in Hd.
    apply bind_ok_inv in Hd as (pi & _ & Hd); inversion Hd; subst dists.
    clear Hd; apply mapM_ok_Forall2 in Hidx.
    unfold gumbel_softmax in *.
    remember (combine (seq 0 (length pi)) pi) as ipi eqn:E; clear E.
    revert idx Hidx; induction ipi as [|ir ipi IH]; intros idx Hidx;
      cbn [map] in *; [constructor|].
    inversion Hidx as [|? i ? idx' Hrow Hrest]; subst.
    constructor; [|apply (IH idx'); assumption].
    match goal with
    | |- rsum ?r = 1 /\ _ =>
        assert (Hs : rsum r = 1 /\ Forall (fun p => 0 < p) r)
    end.
    { apply softmax_simplex; intros E.
      unfold softmax in Hrow; rewrite E in Hrow; discriminate. }
    destruct Hs as (Hsum & Hpos); split; [exact Hsum|].
    eapply Forall_impl; [|exact Hpos]; cbv beta; intros; lra.
Qed.

End EncoderForwardResult.

Lemma encoder1_count_shapes :
  HIEncoder.init_shapes [] 1 (Examples.encoder1 count 1).
Proof.
  exists 1%Z; split; [reflexivity|].
  cbv zeta; cbn.
  unfold HIEncoder.has_shape, wf_Linear; cbn.
  repeat split; repeat constructor.
Qed.

(** A count feature, one observed and one missing cell, training mode. *)
Lemma encoder_forward_shapes_witness :
  exists mean std dists mask obj bn',
    HIEncoder.forward (Examples.encoder1 count 1) (Examples.bn_init 1 true)
                      Examples.no_noise [[Some 3]; [None]]
    = (Ok (mean, std, dists, mask), obj, bn') /\
    length mean = 2%nat /\ length std = 2%nat /\ length dists = 2%nat /\
    Forall (fun r => length r = 1%nat) mean /\
    Forall (fun r => length r = 1%nat) dists.
Proof.
  do 6 eexists; split; [reflexivity|].
  destruct (encoder_forward_shapes [] 1%nat (Examples.encoder1 count 1)
              (Examples.bn_init 1 true) Examples.no_noise [[Some 3]; [None]]
              _ _ _ _ _ _ encoder1_count_shapes eq_refl)
    as (_ & Hm & Hs & Hd & _ & Hmw & _ & Hdw).
  repeat split; assumption.
Defined.

Lemma encoder_forward_values_witness :
  exists mean std dists mask obj bn',
    HIEncoder.forward (Examples.encoder1 count 1) (Examples.bn_init 1 true)
                      Examples.no_noise [[Some 3]; [None]]
    = (Ok (mean, std, dists, mask), obj, bn') /\
    Forall (Forall (fun s => 0 <= s)) std /\
    Forall (fun row => rsum row = 1 /\ Forall (fun p => 0 <= p) row) dists.
Proof.
  do 6 eexists; split; [reflexivity|].
  apply (encoder_forward_values (Examples.encoder1 count 1)
           (Examples.bn_init 1 true) Examples.no_noise [[Some 3]; [None]]
           _ _ _ _ _ _ eq_refl).
Defined.

(** The mask of a two-by-two input with two missing cells. *)
Lemma normalize_mask_marks_nan_witness :
  exists normed mask obj bn',
    HIEncoder.normalize
      (Examples.encoder_with_types
         [mkSpec real None None; mkSpec count None None])
      (Examples.bn_init 2 false) [[Some 1; None]; [None; Some 3]]
    = (Ok (normed, mask), obj, bn') /\
    mask = [[true; false]; [false; true]] /\
    length mask = 2%nat.
Proof.
  do 4 eexists; split; [reflexivity|].
  split; [reflexivity|].
  apply (normalize_mask_marks_nan
           (Examples.encoder_with_types
              [mkSpec real None None; mkSpec count None None])
           (Examples.bn_init 2 false) [[Some 1; None]; [None; Some 3]]
           _ _ _ _ eq_refl).
Defined.

(** Evaluation mode after the layer has seen data: the real entry 5 leaves
    [normalize] as [(5 - 0) / sqrt (1 + 1e-5)] and the buffers are reset. *)
Lemma normalize_eval_is_fixed_rescaling_witness :
  exists normed mask obj bn',
    HIEncoder.normalize (Examples.encoder1 real 1) (mkBN 1 [40] [9] 7 false)
                        [[Some 5]]
    = (Ok (normed, mask), obj, bn') /\
    normed = [[(5 - 0) / sqrt (1 + bn_eps)]] /\
    bn' = mkBN 1 [0] [1] 0 false.
Proof.
  do 4 eexists; split; [reflexivity|].
  split; [reflexivity|].
  apply (normalize_eval_is_fixed_rescaling (Examples.encoder1 real 1)
           (mkBN 1 [40] [9] 7 false) [[Some 5]] _ _ _ _ eq_refl eq_refl).
Defined.

(* ------------------------------------------------------------------ *)
(** ** HIDecoder.reconstruction_error: shape and fully unobserved rows *)

Lemma broadcast1_length (n : nat) (t : tensor01) (c : vec) :
  broadcast1 n t = Ok c -> length c = n.
Proof.
  destruct t as [r|v]; cbn [broadcast1].
  - intros H; inversion H; apply repeat_length.
  - destruct v as [|a [|b v]].
    + intros H; apply bind_ok_inv in H as (u & Hu & H).
      apply check_ok_inv, Nat.eqb_eq in Hu.
      injection H as <-; exact Hu.
    + intros H; inversion H; apply repeat_length.
    + intros H; apply bind_ok_inv in H as (u & Hu & H).
      apply check_ok_inv, Nat.eqb_eq in Hu.
      injection H as <-; exact Hu.
Qed.

Lemma fill_losses_length (models : list VarDecoder) :
  forall feat_num bn (x h loss out : mat),
    length loss = length x ->
    HIDecoder.fill_losses models feat_num bn x h loss = Ok out ->
    length out = length x.
Proof.
  induction models as [|d models IH]; intros k bn x h loss out Hl H;
    cbn [HIDecoder.fill_losses] in H.
  - inversion H; subst; exact Hl.
  - apply bind_ok_inv in H as (col & _ & H).
    apply bind_ok_inv in H as (err & _ & H).
    apply bind_ok_inv in H as (c & Hc & H).
    apply broadcast1_length in Hc.
    apply IH in H; [exact H|].
    unfold HIDecoder.set_column; rewrite zip_with_length.
    unfold vec, mat in *; lia.
Qed.

Lemma rsum_suppressed_row (lrow : vec) (mrow : list bool) :
  Forall (fun o => o = false) mrow ->
  rsum (zip_with (fun l (o : bool) => if o then l else 0) lrow mrow) = 0.
Proof.
  intros Hm; revert lrow; induction Hm as [|o mrow Ho _ IH]; intros [|l lrow];
    cbn; try reflexivity.
  subst o; fold (rsum (zip_with (fun l (o : bool) => if o then l else 0)
                                lrow mrow)).
  rewrite IH; lra.
Qed.

(** X11.  When [HIDecoder.reconstruction_error] returns, it returns one
    loss per sample, and the loss of a sample none of whose cells was
    observed is exactly 0. *)
Theorem reconstruction_error_unobserved_row :
  forall (self : HIDecoder.t) bn (x latent mix : mat) (mask : bmask) losses,
    HIDecoder.reconstruction_error self bn x latent mix mask = Ok losses ->
    length losses = length x /\
    forall i mrow,
      nth_error mask i = Some mrow ->
      Forall (fun o => o = false) mrow ->
      nth_error losses i = Some 0.
Proof.
  intros self bn x latent mix mask losses H.
  unfold HIDecoder.reconstruction_error in H.
  apply bind_ok_inv in H as (h & _ & H).
  apply bind_ok_inv in H as (h' & _ & H).
  apply bind_ok_inv in H as (loss & Hf & H).
  apply bind_ok_inv in H as (sup & Hs & H).
  inversion H; subst losses; clear H.
  apply fill_losses_length in Hf; [|now rewrite length_map].
  unfold HIDecoder.suppress in Hs.
  apply bind_ok_inv in Hs as (u & Hu & Hs).
  apply check_ok_inv, andb_prop in Hu as (Hlen & _).
  apply Nat.eqb_eq in Hlen.
  inversion Hs; subst sup; clear Hs.
  split.
  - rewrite length_map, zip_with_length; unfold vec, mat in *; lia.
  - intros i mrow Hm Hall.
    rewrite nth_error_map.
    assert (Hi : (i < length loss)%nat).
    { rewrite Hlen; apply nth_error_Some; congruence. }
    destruct (nth_error loss i) as [lrow|] eqn:Hl;
      [|apply nth_error_None in Hl; lia].
    assert (Hz : nth_error
                   (zip_with (fun lrow mrow =>
                                zip_with (fun l (o : bool) => if o then l else 0)
                                         lrow mrow) loss mask) i
                 = Some (zip_with (fun l (o : bool) => if o then l else 0)
                                  lrow mrow)).
    { clear - Hl Hm; revert i mask Hl Hm.
      induction loss as [|l0 loss IH]; intros [|i] [|m0 mask] Hl Hm;
        cbn in *; try discriminate.
      - inversion Hl; inversion Hm; reflexivity.
      - apply IH; assumption. }
    rewrite Hz; cbn [option_map]; f_equal.
    apply rsum_suppressed_row; assumption.
Qed.

(** The two-sample batch of the categorical decoder, none of whose cells
    is observed in the second sample. *)
Lemma reconstruction_error_unobserved_row_witness :
  exists losses,
    HIDecoder.reconstruction_error Examples.binary_decoder
      (Examples.bn_init 1 false) [[1]; [0]]
      Examples.latent2 Examples.mix2 Examples.second_unobserved
    = Ok losses /\
    length losses = 2%nat /\ nth_error losses 1 = Some 0.
Proof.
  assert (H : exists losses,
             HIDecoder.reconstruction_error Examples.binary_decoder
               (Examples.bn_init 1 false) [[1]; [0]]
               Examples.latent2 Examples.mix2 Examples.second_unobserved
             = Ok losses).
  { unfold HIDecoder.reconstruction_error.
    cbn -[trunc]; rewrite (trunc_IZR 1), (trunc_IZR 0); cbn.
    eexists; reflexivity. }
  destruct H as (losses & H); exists losses.
  destruct (reconstruction_error_unobserved_row _ _ _ _ _ _ _ H) as (Hl & Hz).
  split; [exact H|]; split; [exact Hl|].
  apply (Hz 1%nat [false]); [reflexivity | repeat constructor].
Defined.

(* ------------------------------------------------------------------ *)
(** ** The latent KL term is bounded below by the latent dimension *)

Lemma kl_summand_ge_1 (m s pm pv : R) :
  0 < pv ->
  1 <= exp (ln (s ^ 2) - ln pv) + (pm - m) ^ 2 / pv - ln (s ^ 2) + ln pv.
Proof.
  intros Hpv.
  set (u := ln (s ^ 2) - ln pv).
  assert (Hexp : 1 + u <= exp u).
  { destruct (Req_dec u 0) as [->|Hu]; [rewrite exp_0; lra|].
    left; apply exp_ineq1; exact Hu. }
  assert (Hsq : 0 <= (pm - m) ^ 2 / pv).
  { apply Rmult_le_pos; [apply pow2_ge_0 | left; apply Rinv_0_lt_compat, Hpv]. }
  unfold u in *; lra.
Qed.

(** X12.  For tensors of the latent width and a positive prior variance,
    the latent KL term that [forward] computes is at least [latent_dim]:
    it cannot reach 0, even when posterior and prior coincide. *)
Theorem kl_row_lower_bound :
  forall (mean std p_mean p_var : vec),
    length mean = length std ->
    length mean = length p_mean ->
    length mean = length p_var ->
    Forall (fun s => 0 < s) std ->
    Forall (fun v => 0 < v) p_var ->
    INR (length mean)
    <= HIVAEModule.kl_row (length mean) mean std p_mean p_var.
Proof.
  intros mean std pm pv Hs Hm Hv _ Hpv.
  unfold HIVAEModule.kl_row.
  cut (INR (length mean)
       <= rsum (map (fun q : (R * R) * (R * R) =>
                       let '((m, s), (pm, pv)) := q in
                       let log_p_var := ln pv in
                       let log_var := ln (s ^ 2) in
                       exp (log_var - log_p_var) + (pm - m) ^ 2 / pv
                       - log_var + log_p_var)
                    (combine (combine mean std) (combine pm pv)))).
  { intros H; lra. }
  revert std pm pv Hs Hm Hv Hpv.
  induction mean as [|m mean IH]; intros [|s std] [|p pm] [|v pv] Hs Hm Hv Hpv;
    try discriminate.
  - cbn; lra.
  - injection Hs as Hs; injection Hm as Hm; injection Hv as Hv.
    inversion Hpv as [|? ? Hv0 Hpv']; subst.
    change (length (m :: mean)) with (S (length mean)); rewrite S_INR.
    cbn [combine map rsum fold_right]; cbv zeta.
    match goal with
    | |- _ <= _ + fold_right Rplus 0 ?l =>
        change (fold_right Rplus 0 l) with (rsum l)
    end.
    pose proof (IH std pm pv Hs Hm Hv Hpv') as H1; cbv zeta in H1.
    pose proof (kl_summand_ge_1 m s p v Hv0).
    lra.
Qed.

(** Posterior equal to the prior, one latent dimension. *)
Lemma kl_row_lower_bound_witness :
  1 <= HIVAEModule.kl_row 1 [0] [1] [0] [1].
Proof.
  apply (kl_row_lower_bound [0] [1] [0] [1]); try reflexivity;
    repeat constructor; lra.
Defined.

(* ------------------------------------------------------------------ *)
(** ** The categorical decoder's loss is confined to a band *)

Lemma rsum_nonneg (l : vec) : Forall (fun v => 0 <= v) l -> 0 <= rsum l.
Proof.
  induction 1 as [|v l Hv _ IH]; cbn; [lra|]; fold (rsum l); lra.
Qed.

Lemma exp_le_rsum_exp (row : vec) (x : R) :
  In x row -> exp x <= rsum (map exp row).
Proof.
  induction row as [|a row IH]; [intros []|].
  cbn [map rsum fold_right]; fold (rsum (map exp row)).
  assert (Hrest : 0 <= rsum (map exp row)).
  { apply rsum_nonneg, Forall_forall; intros v Hv.
    apply in_map_iff in Hv as (z & <- & _); left; apply exp_pos. }
  intros [->|Hin]; [lra|].
  specialize (IH Hin); pose proof (exp_pos a); lra.
Qed.

Lemma softmax_le_1 (row : vec) :
  row <> [] -> Forall (fun p => 0 < p <= 1) (softmax row).
Proof.
  intros Hne; pose proof (rsum_exp_pos row Hne) as Hs.
  unfold softmax; apply Forall_forall; intros p Hp.
  apply in_map_iff in Hp as (x & <- & Hx).
  split; [apply Rdiv_lt_0_compat; [apply exp_pos | assumption]|].
  apply exp_le_rsum_exp in Hx.
  apply (Rmult_le_reg_r (rsum (map exp row))); [assumption|].
  unfold Rdiv; rewrite Rmult_assoc, Rinv_l by lra; lra.
Qed.

Lemma rsum_strict_bounds (l : vec) (lo hi : R) :
  l <> [] ->
  Forall (fun v => lo < v <= hi) l ->
  INR (length l) * lo < rsum l <= INR (length l) * hi.
Proof.
  intros Hne Hall; destruct l as [|a l]; [contradiction|]; clear Hne.
  revert a Hall; induction l as [|b l IH]; intros a Hall.
  - inversion Hall; subst; cbn; lra.
  - inversion Hall as [|? ? Ha Hrest]; subst.
    specialize (IH b Hrest).
    change (length (a :: b :: l)) with (S (length (b :: l))).
    rewrite S_INR.
    change (rsum (a :: b :: l)) with (a + rsum (b :: l)).
    lra.
Qed.

Lemma rmean_strict_bounds (l : vec) (lo hi : R) :
  l <> [] ->
  Forall (fun v => lo < v < hi) l ->
  lo < rmean l < hi.
Proof.
  intros Hne Hall.
  assert (Hn : 0 < INR (length l)).
  { destruct l; [contradiction|]; apply lt_0_INR; cbn; lia. }
  assert (Hs : INR (length l) * lo < rsum l < INR (length l) * hi).
  { destruct l as [|a l]; [contradiction|]; clear Hne Hn.
    revert a Hall; induction l as [|b l IH]; intros a Hall.
    - inversion Hall; subst; cbn; lra.
    - inversion Hall as [|? ? Ha Hrest]; subst.
      specialize (IH b Hrest).
      change (length (a :: b :: l)) with (S (length (b :: l))).
      rewrite S_INR.
      change (rsum (a :: b :: l)) with (a + rsum (b :: l)).
      lra. }
  unfold rmean; split.
  - apply (Rmult_lt_reg_r (INR (length l))); [assumption|].
    unfold Rdiv; rewrite Rmult_assoc, Rinv_l by lra; lra.
  - apply (Rmult_lt_reg_r (INR (length l))); [assumption|].
    unfold Rdiv; rewrite Rmult_assoc, Rinv_l by lra; lra.
Qed.

(** One cross-entropy term on logits that are themselves a softmax. *)
Lemma nll_term_of_softmax (z : vec) (t : Z) (v : R) :
  nll_term (softmax z) t = Ok (Some v) ->
  ln (INR (length z)) - 1 < v < ln (INR (length z)) + 1.
Proof.
  unfold nll_term; intros H.
  destruct (t =? -100)%Z; [discriminate|].
  apply bind_ok_inv in H as (u & Hu & H).
  apply check_ok_inv, andb_prop in Hu as (H0 & H1).
  apply Z.leb_le in H0; apply Z.ltb_lt in H1.
  rewrite softmax_length in H1.
  inversion H; subst v; clear H.
  assert (Hne : z <> []) by (intros ->; cbn in H1; lia).
  set (logits := softmax z) in *.
  assert (Hk : (Z.to_nat t < length logits)%nat).
  { unfold logits; rewrite softmax_length; lia. }
  pose proof (softmax_le_1 z Hne) as Hp; fold logits in Hp.
  assert (Hlog : nth (Z.to_nat t) (log_softmax logits) 0
                 = nth (Z.to_nat t) logits 0 - ln (rsum (map exp logits))).
  { unfold log_softmax.
    rewrite (nth_indep _ 0 (0 - ln (rsum (map exp logits))))
      by (now rewrite length_map).
    apply (map_nth (fun x => x - ln (rsum (map exp logits)))). }
  rewrite Hlog.
  pose proof (nth_In logits 0 Hk) as Hin.
  rewrite Forall_forall in Hp; specialize (Hp _ Hin).
  assert (Hc : 0 < INR (length z)).
  { destruct z; [contradiction|]; apply lt_0_INR; cbn; lia. }
  assert (Hs : INR (length z) * 1 < rsum (map exp logits)
               <= INR (length z) * exp 1).
  { rewrite <- (softmax_length z); fold logits.
    rewrite <- (length_map exp logits).
    apply rsum_strict_bounds.
    - unfold logits, softmax; destruct z; [contradiction | discriminate].
    - apply Forall_forall; intros e He.
      apply in_map_iff in He as (p & <- & Hp').
      assert (Hpp : 0 < p <= 1).
      { unfold logits in Hp'.
        pose proof (softmax_le_1 z Hne) as Hq.
        rewrite Forall_forall in Hq; exact (Hq _ Hp'). }
      split.
      + rewrite <- exp_0; apply exp_increasing; lra.
      + destruct (proj2 Hpp) as [Hlt | ->]; [left; apply exp_increasing|]; lra. }
  assert (Hln : ln (INR (length z)) < ln (rsum (map exp logits))
                <= ln (INR (length z)) + 1).
  { split.
    - apply ln_increasing; lra.
    - replace (ln (INR (length z)) + 1) with (ln (INR (length z) * exp 1))
        by (rewrite ln_mult by (assumption || apply exp_pos);
            now rewrite ln_exp).
      destruct (proj2 Hs) as [Hlt | ->]; [left; apply ln_increasing; lra | lra]. }
  lra.
Qed.

Lemma cross_entropy_terms_bounded (dists : mat) (target : list Z)
  (terms : list (option R)) (c : nat) :
  Forall (fun row => exists z, row = softmax z /\ length z = c) dists ->
  Forall (fun t => t <> (-100)%Z) target ->
  mapM (fun p => nll_term (fst p) (snd p)) (combine dists target) = Ok terms ->
  length (keep_some terms) = length (combine dists target) /\
  Forall (fun v => ln (INR c) - 1 < v < ln (INR c) + 1) (keep_some terms).
Proof.
  intros Hd Ht H; apply mapM_ok_Forall2 in H.
  assert (Hc : Forall (fun p : list R * Z =>
                         (exists z, fst p = softmax z /\ length z = c) /\
                         snd p <> (-100)%Z) (combine dists target)).
  { apply Forall_forall; intros (row & t) Hin.
    pose proof (in_combine_l _ _ _ _ Hin) as Hl.
    pose proof (in_combine_r _ _ _ _ Hin) as Hr.
    rewrite Forall_forall in Hd, Ht; split; [apply Hd | apply Ht]; assumption. }
  clear Hd Ht.
  induction H as [|p o ps terms' Hpo _ IH]; [split; constructor|].
  inversion Hc as [|? ? ((z & Hz & Hzl) & Hn) Hrest]; subst.
  destruct (IH Hrest) as (IHl & IHb).
  cbv beta in Hpo.
  destruct o as [v|].
  - cbn [keep_some length]; split; [now rewrite IHl|].
    constructor; [|exact IHb].
    unfold vec in *; rewrite Hz in Hpo.
    apply nll_term_of_softmax in Hpo; exact Hpo.
  - exfalso; unfold nll_term in Hpo.
    destruct (snd p =? -100)%Z eqn:E; [apply Z.eqb_eq in E; contradiction|].
    apply bind_ok_inv in Hpo as (u & _ & Hpo); discriminate.
Qed.

(** X13.  The categorical decoder applies softmax to its logits and then
    [F.cross_entropy], which applies a log-softmax again.  Whatever the
    logits and the labels, the value it returns on a non-empty batch lies
    strictly between [-(ln C + 1)] and [-(ln C - 1)], [C] being the number
    of classes: it cannot come closer to 0 than [ln C - 1]. *)
Theorem categorical_loss_band :
  forall (linear_l : Linear) (input_tensor : vec) (hidden : mat) dim t,
    wf_Linear linear_l ->
    hidden <> [] ->
    Forall (fun v => trunc v <> (-100)%Z) input_tensor ->
    CategoricalDecoder.reconstruction_error linear_l input_tensor hidden dim
    = Ok t ->
    exists r,
      t = T0 r /\
      - (ln (INR (out_features linear_l)) + 1) < r
      < - (ln (INR (out_features linear_l)) - 1).
Proof.
  intros l x h dim t Hwf Hne Hlab H.
  unfold CategoricalDecoder.reconstruction_error in H.
  apply bind_ok_inv in H as (d & Hd & H).
  apply bind_ok_inv in H as (ce & Hce & H).
  inversion H; subst t; clear H.
  eexists; split; [reflexivity|].
  apply linear_ok in Hd as (Hdl & _ & Hdw); specialize (Hdw Hwf).
  unfold cross_entropy in Hce.
  apply bind_ok_inv in Hce as (u & Hu & Hce).
  apply check_ok_inv, Nat.eqb_eq in Hu; rewrite !length_map in Hu.
  apply bind_ok_inv in Hce as (terms & Hterms & Hce).
  inversion Hce; subst ce; clear Hce.
  destruct (cross_entropy_terms_bounded (map softmax d) (map trunc x) terms
              (out_features l)) as (Hkl & Hkb).
  - rewrite Forall_map; eapply Forall_impl; [|exact Hdw].
    intros row Hr; exists row; auto.
  - rewrite Forall_map; exact Hlab.
  - exact Hterms.
  - assert (Hkne : keep_some terms <> []).
    { intros E; rewrite E in Hkl; cbn in Hkl.
      rewrite length_combine, !length_map in Hkl.
      destruct h; [contradiction|].
      unfold vec, mat in *; cbn in *; lia. }
    pose proof (rmean_strict_bounds _ _ _ Hkne Hkb); lra.
Qed.

(** Two classes, two samples with labels 1 and 0. *)
Lemma categorical_loss_band_witness :
  exists r,
    CategoricalDecoder.reconstruction_error Examples.binary_head [1; 0]
      [[0; 1]; [0; 1]] 0 = Ok (T0 r) /\
    - (ln 2 + 1) < r < - (ln 2 - 1).
Proof.
  assert (H : exists t,
             CategoricalDecoder.reconstruction_error Examples.binary_head
               [1; 0] [[0; 1]; [0; 1]] 0 = Ok t).
  { cbn -[trunc]; rewrite (trunc_IZR 1), (trunc_IZR 0); cbn.
    eexists; reflexivity. }
  destruct H as (t & Ht).
  destruct (categorical_loss_band Examples.binary_head [1; 0]
              [[0; 1]; [0; 1]] 0%nat t) as (r & -> & Hr).
  - repeat split; repeat constructor.
  - discriminate.
  - repeat constructor; rewrite ?(trunc_IZR 1), ?(trunc_IZR 0); discriminate.
  - exact Ht.
  - exists r; split; [exact Ht|].
    cbn [Examples.binary_head out_features INR] in Hr.
    replace (1 + 1) with 2 in Hr by lra; exact Hr.
Defined.

(* ------------------------------------------------------------------ *)
(** ** The ordinal decoder scores an imputed 0 as the lowest code *)

(** X14.  For an ordinal feature whose lowest code [feat_min] is positive,
    [reconstruction_error] gives the same result on a label column and on
    that column with every 0 replaced by [feat_min]: a 0 (as [normalize]
    writes into a missing cell) is scored as the lowest code. *)
Theorem ordinal_zero_label_is_min :
  forall (ft : FeatureSpec) (thresholds region : Linear) (mn : Z)
         (input_tensor : vec) (hidden : mat) dim,
    feat_min ft = Some mn ->
    (0 < mn)%Z ->
    OrdinalDecoder.reconstruction_error ft thresholds region input_tensor
                                        hidden dim
    = OrdinalDecoder.reconstruction_error ft thresholds region
        (map (fun x => if Req_dec_T x 0 then IZR mn else x) input_tensor)
        hidden dim.
Proof.
  intros ft th rg mn x h dim Hmn Hpos.
  unfold OrdinalDecoder.reconstruction_error.
  rewrite Hmn; cbn [py_num bind].
  replace (0 <? mn)%Z with true by (symmetry; apply Z.ltb_lt; exact Hpos).
  assert (Heq :
    map (fun x0 => (if Req_dec_T x0 0 then IZR mn else x0) - IZR mn)
        (map (fun x0 => if Req_dec_T x0 0 then IZR mn else x0) x)
    = map (fun x0 => (if Req_dec_T x0 0 then IZR mn else x0) - IZR mn) x);
    [|unfold vec in *; rewrite Heq; reflexivity].
  rewrite map_map.
  apply map_ext; intros v.
  assert (Hne : IZR mn <> 0) by (apply not_0_IZR; lia).
  destruct (Req_dec_T v 0) as [Hv|Hv].
  - destruct (Req_dec_T (IZR mn) 0); [contradiction | reflexivity].
  - destruct (Req_dec_T v 0); [contradiction | reflexivity].
Qed.

(** Codes 1..3 with labels 0 and 2: the same result as with labels 1, 2. *)
Lemma ordinal_zero_label_is_min_witness :
  OrdinalDecoder.reconstruction_error Examples.ordinal_spec
    Examples.ordinal_thresholds Examples.ordinal_region [0; 2]
    [[0; 1]; [0; 1]] 0
  = OrdinalDecoder.reconstruction_error Examples.ordinal_spec
      Examples.ordinal_thresholds Examples.ordinal_region
      (map (fun x => if Req_dec_T x 0 then IZR 1 else x) [0; 2])
      [[0; 1]; [0; 1]] 0.
Proof.
  apply (ordinal_zero_label_is_min Examples.ordinal_spec
           Examples.ordinal_thresholds Examples.ordinal_region 1%Z
           [0; 2] [[0; 1]; [0; 1]] 0%nat); [reflexivity | lia].
Defined.

(* ------------------------------------------------------------------ *)
(** ** The thermometer encoding saturates *)

(** X15.  The thermometer row of an ordinal value [v] marks the positions
    [k] in [0, max - min] with [k <= v]; the value is not shifted by
    [feat_min].  So all values from [max - min] upwards get the same row
    (all ones): with [feat_min >= 1] the highest codes of the feature are
    encoded identically. *)
Theorem thermometer_saturates :
  forall (s : FeatureSpec) (mn mx : Z) (v w : R),
    feat_type s = ordinal ->
    feat_min s = Some mn ->
    feat_max s = Some mx ->
    (mn <= mx)%Z ->
    IZR (mx - mn) <= v ->
    IZR (mx - mn) <= w ->
    HIEncoder.encode_feature s 0 [[v]]
    = Ok [repeat 1 (Z.to_nat (mx - mn + 1))] /\
    HIEncoder.encode_feature s 0 [[v]] = HIEncoder.encode_feature s 0 [[w]].
Proof.
  intros s mn mx v w Hk Hmn Hmx Hle Hv Hw.
  assert (H : forall u, IZR (mx - mn) <= u ->
              HIEncoder.encode_feature s 0 [[u]]
              = Ok [repeat 1 (Z.to_nat (mx - mn + 1))]).
  { intros u Hu; unfold HIEncoder.encode_feature.
    rewrite Hk, Hmx, Hmn; cbn [py_num bind].
    replace (0 <=? mx - mn + 1)%Z with true by (symmetry; apply Z.leb_le; lia).
    cbn [check bind length Nat.eqb negb column mapM nth_error map].
    do 2 f_equal.
    assert (Hall : forall k, (k < 0 + Z.to_nat (mx - mn + 1))%nat ->
                             INR k <= u).
    { intros k Hk'.
      apply Rle_trans with (IZR (mx - mn)); [|exact Hu].
      rewrite INR_IZR_INZ; apply IZR_le; lia. }
    revert Hall; generalize (Z.to_nat (mx - mn + 1)) as n; intros n.
    generalize 0%nat as start.
    induction n as [|n IH]; intros start Hall; cbn [seq map repeat];
      [reflexivity|].
    destruct (Rle_dec (INR start) u) as [_|Hn];
      [|exfalso; apply Hn, Hall; lia].
    f_equal; apply IH; intros k Hk'; apply Hall; lia. }
  split; [apply H; exact Hv|].
  rewrite (H v Hv), (H w Hw); reflexivity.
Qed.

(** Codes 1..3: the values 2 and 3 are both encoded as [1; 1; 1]. *)
Lemma thermometer_saturates_witness :
  HIEncoder.encode_feature Examples.ordinal_spec 0 [[2]]
  = Ok [repeat 1 (Z.to_nat (3 - 1 + 1))] /\
  HIEncoder.encode_feature Examples.ordinal_spec 0 [[2]]
  = HIEncoder.encode_feature Examples.ordinal_spec 0 [[3]].
Proof.
  apply (thermometer_saturates Examples.ordinal_spec 1%Z 3%Z 2 3);
    try reflexivity; try lia; cbn; lra.
Defined.

(* ------------------------------------------------------------------ *)
(** ** infer_types *)

Lemma np_min_spec (l : list R) (m : R) :
  np_min l = Ok m -> In m l /\ Forall (fun v => m <= v) l.
Proof.
  destruct l as [|x t]; [discriminate|].
  cbn [np_min]; intros H; injection H as <-.
  induction t as [|y t [IHin IHall]]; cbn [fold_right].
  - split; [left; reflexivity | constructor; [lra | constructor]].
  - inversion IHall as [|? ? Hx Ht]; subst.
    split.
    + destruct (Rle_dec y (fold_right Rmin x t)) as [Hle|Hgt].
      * rewrite Rmin_left by exact Hle; right; left; reflexivity.
      * rewrite Rmin_right by lra.
        destruct IHin as [Hin|Hin]; [left; exact Hin | right; right; exact Hin].
    + pose proof (Rmin_l y (fold_right Rmin x t)) as Hl.
      pose proof (Rmin_r y (fold_right Rmin x t)) as Hr.
      constructor; [lra|]; constructor; [lra|].
      eapply Forall_impl; [|exact Ht]; cbv beta; intros; lra.
Qed.

Lemma np_max_spec (l : list R) (m : R) :
  np_max l = Ok m -> In m l /\ Forall (fun v => v <= m) l.
Proof.
  destruct l as [|x t]; [discriminate|].
  cbn [np_max]; intros H; injection H as <-.
  induction t as [|y t [IHin IHall]]; cbn [fold_right].
  - split; [left; reflexivity | constructor; [lra | constructor]].
  - inversion IHall as [|? ? Hx Ht]; subst.
    split.
    + destruct (Rle_dec y (fold_right Rmax x t)) as [Hle|Hgt].
      * rewrite Rmax_right by exact Hle.
        destruct IHin as [Hin|Hin]; [left; exact Hin | right; right; exact Hin].
      * rewrite Rmax_left by lra; right; left; reflexivity.
    + pose proof (Rmax_l y (fold_right Rmax x t)) as Hl.
      pose proof (Rmax_r y (fold_right Rmax x t)) as Hr.
      constructor; [lra|]; constructor; [lra|].
      eapply Forall_impl; [|exact Ht]; cbv beta; intros; lra.
Qed.

Lemma In_keep_some {A : Type} (l : list (option A)) (a : A) :
  In a (keep_some l) <-> In (Some a) l.
Proof.
  induction l as [|[b|] l IH]; cbn [keep_some In].
  - tauto.
  - rewrite IH; split; intros [H|H]; auto; left; congruence.
  - rewrite IH; split; [auto | intros [H|H]; [discriminate | exact H]].
Qed.

Lemma take_column_holds (X : ndarray) (dim : nat) (col : list cell) :
  take_column X dim = Ok col ->
  length col = length (rows X) /\
  forall v, In v (keep_some col) <-> holds_value X dim v.
Proof.
  unfold take_column; intros H.
  apply bind_ok_inv in H as ([] & _ & H).
  split; [eapply mapM_ok_length; exact H|].
  apply mapM_ok_Forall2 in H.
  intros v; rewrite In_keep_some; unfold holds_value.
  induction H as [|row c rs cs Hrc _ IH]; cbn [In].
  - split; [tauto | intros (? & [] & _)].
  - destruct (nth_error row dim) as [c'|] eqn:Hn; [|discriminate].
    injection Hrc as ->.
    rewrite IH; split.
    + intros [->|(r & Hr & Hv)]; [exists row; auto | exists r; auto].
    + intros (r & [<-|Hr] & Hv); [left; congruence | right; exists r; auto].
Qed.

Lemma take_column_wf (X : ndarray) (dim : nat) :
  wf_ndarray X -> (dim < shape1 X)%nat ->
  exists col, take_column X dim = Ok col.
Proof.
  unfold wf_ndarray, take_column; intros Hwf Hd.
  replace (dim <? shape1 X)%nat with true by (symmetry; apply Nat.ltb_lt; exact Hd).
  cbn [check bind].
  induction Hwf as [|row rs Hrow _ [col IH]]; cbn [mapM]; [eauto|].
  destruct (nth_error row dim) as [c|] eqn:Hn.
  - rewrite IH; eauto.
  - apply nth_error_None in Hn; lia.
Qed.

Lemma infer_type_inv (X : ndarray) thr ck ok (dim : nat) (name : string)
  (k : feat_kind) (mn mx : R) :
  infer_type X thr ck ok dim name = Ok (k, mn, mx) ->
  exists col,
    take_column X dim = Ok col /\
    np_min (keep_some col) = Ok mn /\
    np_max (keep_some col) = Ok mx /\
    k = (if forallb is_integral (keep_some col) then
           if existsb (fun kw => contains kw name) ck then count
           else if existsb (fun kw => contains kw name) ok then ordinal
           else if (Z.of_nat (n_unique (keep_some col)) <=? thr)%Z
                then categorical
           else real
         else if forallb is_positive (keep_some col) then positive_real
              else real).
Proof.
  unfold infer_type; intros H.
  apply bind_ok_inv in H as (col & Hc & H); cbv zeta in H.
  apply bind_ok_inv in H as (mn' & Hmn & H).
  apply bind_ok_inv in H as (mx' & Hmx & H).
  injection H as <- <- <-.
  exists col; auto.
Qed.

Lemma infer_types_entry (X : ndarray) (names : list string) thr ck ok
  (ft : list InferredType) (dim : nat) (e : InferredType) :
  infer_types X names thr ck ok = Ok ft ->
  nth_error ft dim = Some e ->
  exists name, nth_error names dim = Some name /\
               infer_type X thr ck ok dim name = Ok e.
Proof.
  unfold infer_types; intros H He.
  apply mapM_ok_Forall2 in H.
  assert (Hgen : forall start l (r : list InferredType) i,
            Forall2 (fun p b => infer_type X thr ck ok (fst p) (snd p) = Ok b)
                    (combine (seq start (length l)) l) r ->
            nth_error r i = Some e ->
            exists name, nth_error l i = Some name /\
                         infer_type X thr ck ok (start + i) name = Ok e).
  { intros start l; revert start.
    induction l as [|n l IH]; intros start r i HF Hi; cbn in HF.
    - inversion HF; subst; destruct i; discriminate.
    - inversion HF as [|? b ? r' Hb HF']; subst.
      destruct i as [|i]; cbn in Hi |- *.
      + injection Hi as ->; exists n; split; [reflexivity|].
        rewrite Nat.add_0_r; exact Hb.
      + destruct (IH (S start) r' i HF' Hi) as (name & Hn & Hi').
        exists name; split; [exact Hn|].
        replace (start + S i)%nat with (S start + i)%nat by lia; exact Hi'. }
  exact (Hgen 0%nat names ft dim H He).
Qed.

(** X16.  When [infer_types] returns, it returns one entry per feature
    name, and the two bounds of entry [dim] are the least and the largest
    observed (non-NaN) value of column [dim]: both occur in the column and
    every observed value lies between them. *)
Theorem infer_types_bounds :
  forall (X : ndarray) (feat_names : list string) unique_thresh
         count_kws ordinal_kws (ft : list InferredType),
    infer_types X feat_names unique_thresh count_kws ordinal_kws = Ok ft ->
    length ft = length feat_names /\
    forall dim k mn mx,
      nth_error ft dim = Some (k, mn, mx) ->
      holds_value X dim mn /\ holds_value X dim mx /\
      forall v, holds_value X dim v -> mn <= v <= mx.
Proof.
  intros X names thr ck ok ft H; split.
  - unfold infer_types in H; apply mapM_ok_length in H.
    rewrite H; apply combine_seq_length.
  - intros dim k mn mx He.
    destruct (infer_types_entry _ _ _ _ _ _ _ _ H He) as (name & _ & Hi).
    apply infer_type_inv in Hi as (col & Hc & Hmn & Hmx & _).
    apply take_column_holds in Hc as [_ Hc].
    apply np_min_spec in Hmn as [Hmn1 Hmn2].
    apply np_max_spec in Hmx as [Hmx1 Hmx2].
    rewrite Forall_forall in Hmn2, Hmx2.
    split; [apply Hc; exact Hmn1|].
    split; [apply Hc; exact Hmx1|].
    intros v Hv; apply Hc in Hv; split; [apply Hmn2 | apply Hmx2]; exact Hv.
Qed.

Lemma mapM_ok_iff {A B : Type} (f : A -> result B) (l : list A) :
  (exists r, mapM f l = Ok r) <-> Forall (fun a => exists b, f a = Ok b) l.
Proof.
  induction l as [|a l IH]; cbn [mapM].
  - split; [constructor | eauto].
  - split.
    + intros (r & H).
      destruct (f a) as [b|e] eqn:Hf; [|discriminate].
      destruct (mapM f l) as [bs|e]; [|discriminate].
      constructor; [eauto | apply IH; eauto].
    + intros H; inversion H as [|? ? (b & Hb) Hl]; subst.
      apply IH in Hl as (bs & Hbs); rewrite Hb, Hbs; eauto.
Qed.

Lemma mapM_raise_inv {A B : Type} (f : A -> result B) (l : list A) (e : error) :
  mapM f l = Raise e -> exists a, In a l /\ f a = Raise e.
Proof.
  induction l as [|a l IH]; cbn [mapM]; [discriminate|].
  destruct (f a) as [b|e'] eqn:Hf.
  - destruct (mapM f l) as [bs|e'']; [discriminate|].
    intros H; injection H as ->.
    destruct (IH eq_refl) as (a' & Hin & Ha'); exists a'; split; [right|]; auto.
  - intros H; injection H as ->; exists a; split; [left|]; auto.
Qed.

Lemma In_combine_seq {A : Type} (l : list A) (start i : nat) (a : A) :
  nth_error l i = Some a ->
  In ((start + i)%nat, a) (combine (seq start (length l)) l).
Proof.
  revert start i; induction l as [|b l IH]; intros start [|i] H;
    cbn in H |- *; try discriminate.
  - injection H as ->; left; f_equal; lia.
  - right; replace (start + S i)%nat with (S start + i)%nat by lia.
    apply IH; exact H.
Qed.

(** With [dim] a column of a well-formed array, the loop body returns when
    the column has an observed value and raises ValueError otherwise. *)
Lemma infer_type_wf (X : ndarray) thr ck ok (dim : nat) (name : string) :
  wf_ndarray X -> (dim < shape1 X)%nat ->
  ((exists e, infer_type X thr ck ok dim name = Ok e) /\
   exists v, holds_value X dim v) \/
  (infer_type X thr ck ok dim name = Raise ValueError /\
   forall v, ~ holds_value X dim v).
Proof.
  intros Hwf Hd.
  destruct (take_column_wf X dim Hwf Hd) as (col & Hc).
  pose proof (take_column_holds _ _ _ Hc) as [_ Hh].
  unfold infer_type; rewrite Hc; cbn [bind]; cbv zeta.
  destruct (keep_some col) as [|x t] eqn:Hk.
  - right; split; [reflexivity|].
    intros v Hv; apply Hh in Hv; exact Hv.
  - left; split; [cbn [np_min np_max bind]; eauto|].
    exists x; apply Hh; left; reflexivity.
Qed.

(** X17.  On a well-formed array with at least as many columns as there
    are feature names, [infer_types] returns exactly when each named column
    has an observed (non-NaN) value; otherwise it raises ValueError (from
    [np.min] of an empty selection). *)
Theorem infer_types_returns_iff :
  forall (X : ndarray) (feat_names : list string) unique_thresh
         count_kws ordinal_kws,
    wf_ndarray X ->
    (length feat_names <= shape1 X)%nat ->
    ((exists ft,
        infer_types X feat_names unique_thresh count_kws ordinal_kws = Ok ft)
     <-> (forall dim, (dim < length feat_names)%nat ->
                      exists v, holds_value X dim v)) /\
    ((forall ft,
        infer_types X feat_names unique_thresh count_kws ordinal_kws <> Ok ft)
     -> infer_types X feat_names unique_thresh count_kws ordinal_kws
        = Raise ValueError).
Proof.
  intros X names thr ck ok Hwf Hlen.
  assert (Hdim : forall p, In p (combine (seq 0 (length names)) names) ->
                           (fst p < shape1 X)%nat).
  { intros [d n] Hp; apply in_combine_l in Hp; apply in_seq in Hp; cbn; lia. }
  split; [split|].
  - intros Hex dim Hd.
    unfold infer_types in Hex; apply mapM_ok_iff in Hex.
    rewrite Forall_forall in Hex.
    destruct (nth_error names dim) as [name|] eqn:Hn;
      [|apply nth_error_None in Hn; lia].
    pose proof (In_combine_seq names 0 dim name Hn) as Hin; cbn in Hin.
    specialize (Hex _ Hin); cbn [fst snd] in Hex.
    destruct (infer_type_wf X thr ck ok dim name Hwf ltac:(lia))
      as [[_ Hv]|[Hr _]]; [exact Hv|].
    destruct Hex as (e & He); rewrite He in Hr; discriminate.
  - intros Hall; unfold infer_types; apply mapM_ok_iff.
    apply Forall_forall; intros [d n] Hp.
    pose proof (Hdim _ Hp) as Hd; cbn [fst snd] in *.
    destruct (infer_type_wf X thr ck ok d n Hwf Hd) as [[He _]|[_ Hno]];
      [exact He|].
    apply in_combine_l in Hp; apply in_seq in Hp.
    destruct (Hall d ltac:(lia)) as (v & Hv); exfalso; exact (Hno v Hv).
  - intros Hno.
    destruct (infer_types X names thr ck ok) as [ft|e] eqn:H;
      [exfalso; exact (Hno ft eq_refl)|].
    unfold infer_types in H; apply mapM_raise_inv in H as ([d n] & Hp & Hr).
    pose proof (Hdim _ Hp) as Hd; cbn [fst snd] in *.
    destruct (infer_type_wf X thr ck ok d n Hwf Hd) as [[(e' & He) _]|[Hv _]];
      congruence.
Qed.

(** A value passes the test exactly when it is a whole number in the
    range of int64. *)
Lemma is_integral_true (v : R) :
  is_integral v = true <->
  IZR (trunc v) = v /\ (int64_min <= trunc v <= int64_max)%Z.
Proof.
  unfold is_integral, astype_int.
  destruct ((int64_min <=? trunc v) && (trunc v <=? int64_max))%Z eqn:Hr.
  - apply andb_true_iff in Hr as (H1 & H2).
    apply Z.leb_le in H1, H2.
    destruct (Req_dec_T (IZR (trunc v)) v); split;
      [auto | auto | discriminate | intros (Heq & _); contradiction].
  - assert (Hout : ~ (int64_min <= trunc v <= int64_max)%Z).
    { intros (H1 & H2); apply Z.leb_le in H1, H2.
      rewrite H1, H2 in Hr; discriminate. }
    destruct (Req_dec_T (IZR int64_min) v) as [Heq|Hne]; split;
      try discriminate; try (intros (_ & Hin); contradiction).
    intros _; exfalso; apply Hout.
    rewrite <- Heq, trunc_IZR; unfold int64_min, int64_max; lia.
Qed.

Lemma is_positive_true (v : R) : is_positive v = true <-> 0 < v.
Proof.
  unfold is_positive; destruct (Rlt_dec 0 v); split; congruence || auto.
Qed.

Lemma forallb_false_exists {A : Type} (f : A -> bool) (l : list A) :
  forallb f l = false -> exists a, In a l /\ f a = false.
Proof.
  induction l as [|a l IH]; cbn [forallb]; [discriminate|].
  destruct (f a) eqn:Hf; cbn [andb].
  - intros H; destruct (IH H) as (b & Hb & Hfb); exists b; split; [right|]; auto.
  - intros _; exists a; split; [left|]; auto.
Qed.

(** X18.  What the inferred type says about the data: a column typed
    count, ordinal or categorical holds only whole numbers in the range of
    int64; a column typed positive_real holds only positive values, one of
    them not a whole number or beyond the range of int64 (so a column of
    positive whole numbers below 2^63 is never typed positive_real). *)
Theorem infer_types_typing :
  forall (X : ndarray) (feat_names : list string) unique_thresh
         count_kws ordinal_kws (ft : list InferredType) dim k mn mx,
    infer_types X feat_names unique_thresh count_kws ordinal_kws = Ok ft ->
    nth_error ft dim = Some (k, mn, mx) ->
    match k with
    | count | ordinal | categorical =>
        forall v, holds_value X dim v ->
                  IZR (trunc v) = v /\ (int64_min <= trunc v <= int64_max)%Z
    | positive_real =>
        (forall v, holds_value X dim v -> 0 < v) /\
        exists v, holds_value X dim v /\
                  (IZR (trunc v) <> v \/ (int64_max < trunc v)%Z)
    | real => True
    end.
Proof.
  intros X names thr ck ok ft dim k mn mx H He.
  destruct (infer_types_entry _ _ _ _ _ _ _ _ H He) as (name & _ & Hi).
  apply infer_type_inv in Hi as (col & Hc & _ & _ & Hk).
  apply take_column_holds in Hc as [_ Hc].
  destruct (forallb is_integral (keep_some col)) eqn:Hint.
  - assert (Hall : forall v, holds_value X dim v ->
                             IZR (trunc v) = v /\
                             (int64_min <= trunc v <= int64_max)%Z).
    { intros v Hv; apply Hc in Hv.
      rewrite forallb_forall in Hint; apply is_integral_true, Hint, Hv. }
    destruct (existsb (fun kw => contains kw name) ck); [subst k; exact Hall|].
    destruct (existsb (fun kw => contains kw name) ok); [subst k; exact Hall|].
    destruct (Z.of_nat (n_unique (keep_some col)) <=? thr)%Z; subst k;
      [exact Hall | exact I].
  - destruct (forallb is_positive (keep_some col)) eqn:Hpos; subst k;
      [|exact I].
    split.
    + intros v Hv; apply Hc in Hv.
      rewrite forallb_forall in Hpos; apply is_positive_true, Hpos, Hv.
    + apply forallb_false_exists in Hint as (v & Hv & Hf).
      exists v; split; [apply Hc; exact Hv|].
      rewrite forallb_forall in Hpos.
      pose proof (proj1 (is_positive_true v) (Hpos v Hv)) as Hv0.
      destruct (Req_dec_T (IZR (trunc v)) v) as [Heq|Hne]; [|left; exact Hne].
      right; apply Z.lt_nge; intros Hle.
      assert (Hin : is_integral v = true).
      { apply is_integral_true; split; [exact Heq|]; split; [|exact Hle].
        pose proof (trunc_nonneg v ltac:(lra)); unfold int64_min; lia. }
      congruence.
Qed.

Lemma is_integral_IZR (z : Z) :
  (int64_min <= z <= int64_max)%Z -> is_integral (IZR z) = true.
Proof.
  intros Hz; apply is_integral_true; rewrite trunc_IZR; split;
    [reflexivity | exact Hz].
Qed.

Lemma n_unique_le_length (l : list R) : (n_unique l <= length l)%nat.
Proof.
  unfold n_unique; induction l as [|x l IH]; cbn [nodup length]; [lia|].
  destruct (in_dec Req_dec_T x l); cbn [length]; lia.
Qed.

Example infer_types_array1 :
  infer_types Examples.array1 Examples.names1 unique_thresh_default
              count_kws_default ordinal_kws_default
  = Ok [(count, 1, 3); (categorical, 0, 2)].
Proof.
  unfold infer_types, Examples.names1.
  cbn [length seq combine mapM fst snd].
  assert (H0 : infer_type Examples.array1 unique_thresh_default
                 count_kws_default ordinal_kws_default 0 "num_visits"
               = Ok (count, 1, 3)).
  { unfold infer_type, take_column, Examples.array1.
    cbn [shape1 rows Nat.ltb Nat.leb check bind mapM nth_error keep_some].
    cbv zeta.
    cbn [forallb].
    rewrite (is_integral_IZR 1), (is_integral_IZR 3)
      by (unfold int64_min, int64_max; lia).
    cbn [andb np_min np_max fold_right bind].
    rewrite (Rmin_right 3 1) by lra; rewrite (Rmax_left 3 1) by lra.
    reflexivity. }
  assert (H1 : infer_type Examples.array1 unique_thresh_default
                 count_kws_default ordinal_kws_default 1 "sex"
               = Ok (categorical, 0, 2)).
  { unfold infer_type, take_column, Examples.array1.
    cbn [shape1 rows Nat.ltb Nat.leb check bind mapM nth_error keep_some].
    cbv zeta.
    pose proof (n_unique_le_length [0; 2; 1]) as Hu; cbn [length] in Hu.
    assert (Hz : (Z.of_nat (n_unique [0%R; 2%R; 1%R])
                  <=? unique_thresh_default)%Z = true)
      by (apply Z.leb_le; unfold unique_thresh_default; lia).
    rewrite Hz; cbn [forallb].
    rewrite (is_integral_IZR 0), (is_integral_IZR 2), (is_integral_IZR 1)
      by (unfold int64_min, int64_max; lia).
    cbn [andb np_min np_max fold_right bind].
    rewrite (Rmin_right 1 0) by lra; rewrite (Rmin_right 2 0) by lra.
    rewrite (Rmax_left 1 0) by lra; rewrite (Rmax_left 2 1) by lra.
    reflexivity. }
  rewrite H0, H1; reflexivity.
Qed.

Lemma infer_types_bounds_witness :
  length [(count, 1, 3); (categorical, 0, 2)] = length Examples.names1 /\
  forall dim k mn mx,
    nth_error [(count, 1, 3); (categorical, 0, 2)] dim = Some (k, mn, mx) ->
    holds_value Examples.array1 dim mn /\ holds_value Examples.array1 dim mx /\
    forall v, holds_value Examples.array1 dim v -> mn <= v <= mx.
Proof.
  exact (infer_types_bounds Examples.array1 Examples.names1
           unique_thresh_default count_kws_default ordinal_kws_default
           [(count, 1, 3); (categorical, 0, 2)] infer_types_array1).
Defined.

Lemma array1_wf : wf_ndarray Examples.array1.
Proof. repeat constructor. Qed.

Lemma infer_types_returns_iff_witness :
  ((exists ft,
      infer_types Examples.array1 Examples.names1 unique_thresh_default
                  count_kws_default ordinal_kws_default = Ok ft)
   <-> (forall dim, (dim < length Examples.names1)%nat ->
                    exists v, holds_value Examples.array1 dim v)) /\
  ((forall ft,
      infer_types Examples.array1 Examples.names1 unique_thresh_default
                  count_kws_default ordinal_kws_default <> Ok ft)
   -> infer_types Examples.array1 Examples.names1 unique_thresh_default
                  count_kws_default ordinal_kws_default = Raise ValueError).
Proof.
  apply (infer_types_returns_iff Examples.array1 Examples.names1
           unique_thresh_default count_kws_default ordinal_kws_default).
  - exact array1_wf.
  - cbn; lia.
Defined.

Lemma infer_types_typing_witness :
  nth_error [(count, 1, 3); (categorical, 0, 2)] 1
  = Some (categorical, 0, 2) /\
  forall v, holds_value Examples.array1 1 v ->
            IZR (trunc v) = v /\ (int64_min <= trunc v <= int64_max)%Z.
Proof.
  split; [reflexivity|].
  exact (infer_types_typing Examples.array1 Examples.names1
           unique_thresh_default count_kws_default ordinal_kws_default
           [(count, 1, 3); (categorical, 0, 2)] 1%nat categorical 0 2
           infer_types_array1 eq_refl).
Defined.

(* ------------------------------------------------------------------ *)
(** ** infer_types followed by the encoder *)

Lemma column_zero_fill (X : ndarray) (dim : nat) (col : list cell) :
  take_column X dim = Ok col ->
  column dim (HIEncoder.zero_fill (rows X))
  = Ok (map (fun c : cell => match c with Some v => v | None => 0 end) col).
Proof.
  unfold take_column, column, HIEncoder.zero_fill; intros H.
  apply bind_ok_inv in H as ([] & _ & H).
  revert col H; induction (rows X) as [|row rs IH]; intros col H;
    cbn [mapM map] in H |- *.
  - injection H as <-; reflexivity.
  - rewrite nth_error_map.
    destruct (nth_error row dim) as [c|]; [|discriminate].
    destruct (mapM _ rs) as [cs|] eqn:Hcs; [|discriminate].
    injection H as <-.
    cbn [option_map]; rewrite (IH cs eq_refl); reflexivity.
Qed.

Lemma IZR_trunc_bounds (a v b : R) :
  IZR (trunc a) = a -> IZR (trunc v) = v -> IZR (trunc b) = b ->
  a <= v <= b -> (trunc a <= trunc v <= trunc b)%Z.
Proof.
  intros Ha Hv Hb [H1 H2].
  rewrite <- Ha, <- Hv in H1; rewrite <- Hv, <- Hb in H2.
  apply le_IZR in H1, H2; lia.
Qed.

(** X19.  A column that [infer_types] typed categorical can be one-hot
    encoded by the encoder (its NaN cells zero-filled as [normalize] does,
    the width being [int(feat_max) + 1]) exactly when its least observed
    value is not negative; a column of whole numbers with a negative value
    is typed categorical all the same and then makes [F.one_hot] raise. *)
Theorem inferred_categorical_encodes_iff :
  forall (X : ndarray) (feat_names : list string) unique_thresh
         count_kws ordinal_kws (ft : list InferredType) dim mn mx
         (s : FeatureSpec),
    infer_types X feat_names unique_thresh count_kws ordinal_kws = Ok ft ->
    nth_error ft dim = Some (categorical, mn, mx) ->
    feat_type s = categorical ->
    feat_max s = Some (trunc mx) ->
    ((exists enc,
        HIEncoder.encode_feature s dim (HIEncoder.zero_fill (rows X)) = Ok enc)
     <-> 0 <= mn).
Proof.
  intros X names thr ck ok ft dim mn mx s H He Hk Hmax.
  destruct (infer_types_entry _ _ _ _ _ _ _ _ H He) as (name & _ & Hi).
  apply infer_type_inv in Hi as (col & Hc & Hmn & Hmx & Hkind).
  pose proof (column_zero_fill _ _ _ Hc) as Hcol.
  pose proof (take_column_holds _ _ _ Hc) as [_ Hh].
  assert (Hint : forall v, holds_value X dim v -> IZR (trunc v) = v).
  { intros v Hv; apply Hh in Hv.
    destruct (forallb is_integral (keep_some col)) eqn:Hall.
    - rewrite forallb_forall in Hall.
      apply (proj1 (is_integral_true v)), Hall, Hv.
    - destruct (forallb is_positive (keep_some col)); discriminate. }
  clear Hkind.
  apply np_min_spec in Hmn as [Hmn1 Hmn2].
  apply np_max_spec in Hmx as [Hmx1 Hmx2].
  rewrite Forall_forall in Hmn2, Hmx2.
  assert (Hmn_int : IZR (trunc mn) = mn) by (apply Hint, Hh, Hmn1).
  assert (Hmx_int : IZR (trunc mx) = mx) by (apply Hint, Hh, Hmx1).
  assert (Hin : In (trunc mn)
                   (map trunc (map (fun c : cell => match c with
                                                    | Some v => v
                                                    | None => 0
                                                    end) col))).
  { apply in_map, in_map_iff; exists (Some mn); split; [reflexivity|].
    apply In_keep_some; exact Hmn1. }
  unfold HIEncoder.encode_feature; rewrite Hk, Hmax; cbn [py_num bind].
  unfold vec, mat in *; rewrite Hcol; cbn [bind].
  split.
  - intros (enc & Henc).
    destruct (map trunc _) as [|i0 idx] eqn:Hidx in Henc, Hin; [destruct Hin|].
    unfold one_hot in Henc.
    apply bind_ok_inv in Henc as ([] & Hchk & _).
    apply check_ok_inv in Hchk; rewrite forallb_forall in Hchk.
    specialize (Hchk _ Hin); apply Z.leb_le in Hchk.
    rewrite <- Hmn_int; apply IZR_le; exact Hchk.
  - intros Hpos.
    assert (Hmn_mx : mn <= mx) by (apply Hmx2; exact Hmn1).
    assert (Hz : (0 <= trunc mn <= trunc mx)%Z).
    { split.
      - apply le_IZR; rewrite Hmn_int; exact Hpos.
      - apply le_IZR; rewrite Hmn_int, Hmx_int; exact Hmn_mx. }
    rewrite one_hot_in_range; [eauto | |].
    + intros Hnil; rewrite Hnil in Hin; destruct Hin.
    + apply Forall_forall; intros i Hi.
      apply in_map_iff in Hi as (v & <- & Hv).
      apply in_map_iff in Hv as ([w|] & <- & Hw).
      * apply In_keep_some in Hw.
        assert (Hw_int : IZR (trunc w) = w) by (apply Hint, Hh, Hw).
        pose proof (IZR_trunc_bounds mn w mx Hmn_int Hw_int Hmx_int
                      (conj (Hmn2 _ Hw) (Hmx2 _ Hw))) as Hb.
        lia.
      * rewrite (trunc_IZR 0); lia.
Qed.

(** The second column of the example array, values 0, 2, 1, is typed
    categorical with bounds 0 and 2 and can be encoded. *)
Lemma inferred_categorical_encodes_iff_witness :
  (exists enc,
     HIEncoder.encode_feature (Examples.categorical_upto (trunc 2)) 1
       (HIEncoder.zero_fill (rows Examples.array1)) = Ok enc)
  <-> 0 <= 0.
Proof.
  exact (inferred_categorical_encodes_iff Examples.array1 Examples.names1
           unique_thresh_default count_kws_default ordinal_kws_default
           [(count, 1, 3); (categorical, 0, 2)] 1%nat 0 2
           (Examples.categorical_upto (trunc 2))
           infer_types_array1 eq_refl eq_refl eq_refl).
Defined.

(* ------------------------------------------------------------------ *)
(** ** NoveltyEstimator: training, then scoring *)

Lemma key_eqb_eq (a b : string * string) :
  novelty_estimator.key_eqb a b = true -> a = b.
Proof.
  destruct a as [a1 a2], b as [b1 b2]; unfold novelty_estimator.key_eqb.
  cbn [fst snd]; intros H; apply andb_true_iff in H as [H1 H2].
  apply String.eqb_eq in H1, H2; congruence.
Qed.

Lemma dict_get_In {V : Type} (k : string * string)
  (d : list ((string * string) * V)) (v : V) :
  novelty_estimator.dict_get k d = Some v -> In (k, v) d.
Proof.
  unfold novelty_estimator.dict_get.
  destruct (find _ d) as [[k' v']|] eqn:Hf; [|discriminate].
  intros H; injection H as <-.
  apply find_some in Hf as [Hin Hk]; cbn [fst snd] in *.
  apply key_eqb_eq in Hk; subst k'; exact Hin.
Qed.

(** Two keys of [SCORING_FUNCS] with the same scoring function name hold
    the same lambda body. *)
Lemma scoring_funcs_by_name (n1 n2 f : string)
  (l1 l2 : novelty_estimator.scoring_lambda) :
  In ((n1, f), l1) novelty_estimator.SCORING_FUNCS ->
  In ((n2, f), l2) novelty_estimator.SCORING_FUNCS ->
  l1 = l2.
Proof.
  unfold novelty_estimator.SCORING_FUNCS; cbn [In]; intros H1 H2.
  repeat (destruct H1 as [H1|H1]; [injection H1 as <- <- <- |]);
    try contradiction;
    repeat (destruct H2 as [H2|H2];
            [first [discriminate H2 | injection H2 as <- <-; reflexivity]|]);
    contradiction.
Qed.

Section Estimator.

Import novelty_estimator.
Import novelty_estimator.NoveltyEstimator.

Variables AVAILABLE_MODELS AUTOENCODERS DENSITY_BASELINES
          DISCRIMINATOR_BASELINES ENSEMBLE_MODELS NEURAL_PREDICTORS
  : list string.
Variables ModelType Params Model X Y Data Score : Type.
Variable instantiate : ModelType -> Params -> result Model.
Variable invoke : Model -> method_call Params X Y -> result unit * Model.
Variable call : scoring_lambda -> Model -> Data -> result Score.

Lemma get_novelty_score_ok_iff (self : t Model) (data : Data)
  (scoring_func : string) (s : Score) :
  get_novelty_score AVAILABLE_MODELS call self data scoring_func = Ok s <->
  set_mem (name self) AVAILABLE_MODELS = true /\
  exists l m, dict_get (name self, scoring_func) SCORING_FUNCS = Some l /\
              model self = Some m /\ call l m data = Ok s.
Proof.
  unfold get_novelty_score, guards.
  destruct (set_mem (name self) AVAILABLE_MODELS);
    destruct (dict_mem (name self, scoring_func) SCORING_FUNCS) eqn:Hk;
    cbv [bind py_assert];
    try (split; [discriminate | intros [Hm _]; discriminate]).
  - destruct (dict_get (name self, scoring_func) SCORING_FUNCS) as [l|];
      [|split; [discriminate | intros (_ & l & m & Hl & _); discriminate]].
    destruct (model self) as [m|];
      [|split; [discriminate | intros (_ & l' & m & _ & Hm & _); discriminate]].
    split.
    + intros H; split; [reflexivity | exists l, m; auto].
    + intros (_ & l' & m' & Hl & Hm & Hc); congruence.
  - apply dict_mem_get in Hk.
    split; [discriminate | intros (_ & l & m & Hl & _); congruence].
Qed.

(** X20.  An estimator on which [train] has not run has no [model]
    attribute: [get_novelty_score] never returns a score for it, whatever
    its name, the data and the scoring function. *)
Theorem untrained_estimator_never_scores :
  forall (model_type : ModelType) (model_params train_params : Params)
         (method_name : string) (data : Data) (scoring_func : string)
         (s : Score),
    get_novelty_score AVAILABLE_MODELS call
      (base (init Model model_type model_params train_params method_name))
      data scoring_func <> Ok s.
Proof.
  intros mt mp tp nm data f s H.
  apply get_novelty_score_ok_iff in H as (_ & l & m & _ & Hm & _).
  discriminate.
Qed.

(** X21.  When [train] returns normally, the estimator keeps its name
    and holds the model that was built from [model_type] and [model_params]
    and then fitted; a later [get_novelty_score] returns a score exactly
    when the name is available, the pair (name, scoring function) is
    registered, and the registered lambda returns that score on this model. *)
Theorem train_then_score :
  forall (self self' : obj ModelType Params Model) (X_train X_val : X)
         (y_train y_val : Y),
    train AUTOENCODERS DENSITY_BASELINES DISCRIMINATOR_BASELINES
          ENSEMBLE_MODELS NEURAL_PREDICTORS instantiate invoke
          self X_train y_train X_val y_val = (Ok tt, self') ->
    name (base self') = name (base self) /\
    exists m0 c m,
      instantiate (model_type self) (model_params self) = Ok m0 /\
      invoke m0 c = (Ok tt, m) /\
      model (base self') = Some m /\
      forall (data : Data) (scoring_func : string) (s : Score),
        get_novelty_score AVAILABLE_MODELS call (base self') data scoring_func
        = Ok s
        <-> (set_mem (name (base self)) AVAILABLE_MODELS = true /\
             exists l,
               dict_get (name (base self), scoring_func) SCORING_FUNCS
               = Some l /\
               call l m data = Ok s).
Proof.
  intros self self' Xt Xv yt yv H.
  assert (Hb : exists c, build_and_call instantiate invoke self c
                         = (Ok tt, self')).
  { unfold train in H.
    repeat match type of H with
           | (if ?b then _ else _) = _ => destruct b; [eauto|]
           end.
    discriminate. }
  destruct Hb as (c & Hb); unfold build_and_call in Hb.
  destruct (instantiate (model_type self) (model_params self)) as [m0|e];
    [|discriminate].
  destruct (invoke m0 c) as [r m] eqn:Hi.
  injection Hb as -> <-; cbn [base name model].
  split; [reflexivity|].
  exists m0, c, m.
  split; [reflexivity|]; split; [exact Hi|]; split; [reflexivity|].
  intros data f s; rewrite get_novelty_score_ok_iff; cbn [name model].
  split.
  - intros (Ha & l & m' & Hl & Hm & Hc); injection Hm as <-; eauto.
  - intros (Ha & l & Hl & Hc); split; [exact Ha | exists l, m; auto].
Qed.

(** X22.  In [SCORING_FUNCS] the body of the lambda depends on the
    scoring function name alone: for two model names registered with the
    same scoring function, the look-up [SCORING_FUNCS[(name, scoring_func)]]
    of [get_novelty_score] finds lambdas with the same body (what the body
    returns when it is called is a matter of the model's methods). *)
Theorem scoring_func_determines_lambda :
  forall (name1 name2 scoring_func : string) (l1 l2 : scoring_lambda),
    dict_get (name1, scoring_func) SCORING_FUNCS = Some l1 ->
    dict_get (name2, scoring_func) SCORING_FUNCS = Some l2 ->
    l1 = l2.
Proof.
  intros n1 n2 f l1 l2 Hl1 Hl2.
  apply dict_get_In in Hl1, Hl2.
  exact (scoring_funcs_by_name _ _ _ _ _ Hl1 Hl2).
Qed.

End Estimator.

(** An estimator named "AE", trained as an autoencoder on the toy model. *)
Lemma train_then_score_witness :
  novelty_estimator.NoveltyEstimator.name
    (novelty_estimator.NoveltyEstimator.base Examples.ae_trained)
  = novelty_estimator.NoveltyEstimator.name
      (novelty_estimator.NoveltyEstimator.base Examples.ae_estimator) /\
  exists m0 c m,
    Examples.toy_instantiate
      (novelty_estimator.NoveltyEstimator.model_type Examples.ae_estimator)
      (novelty_estimator.NoveltyEstimator.model_params Examples.ae_estimator)
    = Ok m0 /\
    Examples.toy_invoke m0 c = (Ok tt, m) /\
    novelty_estimator.NoveltyEstimator.model
      (novelty_estimator.NoveltyEstimator.base Examples.ae_trained) = Some m /\
    forall (data : nat) (scoring_func : string)
           (s : novelty_estimator.scoring_lambda * nat),
      novelty_estimator.NoveltyEstimator.get_novelty_score
        ["AE"]%string Examples.toy_call
        (novelty_estimator.NoveltyEstimator.base Examples.ae_trained)
        data scoring_func = Ok s
      <-> (novelty_estimator.set_mem
             (novelty_estimator.NoveltyEstimator.name
                (novelty_estimator.NoveltyEstimator.base Examples.ae_estimator))
             ["AE"]%string = true /\
           exists l,
             novelty_estimator.dict_get
               (novelty_estimator.NoveltyEstimator.name
                  (novelty_estimator.NoveltyEstimator.base
                     Examples.ae_estimator), scoring_func)
               novelty_estimator.SCORING_FUNCS = Some l /\
             Examples.toy_call l m data = Ok s).
Proof.
  apply (train_then_score ["AE"]%string ["AE"]%string [] [] [] []
           unit unit nat unit unit nat
           (novelty_estimator.scoring_lambda * nat)%type
           Examples.toy_instantiate Examples.toy_invoke Examples.toy_call
           Examples.ae_estimator Examples.ae_trained tt tt tt tt).
  reflexivity.
Defined.

(** "AE" and "VAE" are both registered with "reconstr_err", with the
    lambda that calls [get_reconstr_error]. *)
Lemma scoring_func_determines_lambda_witness :
  novelty_estimator.dict_get ("AE", "reconstr_err")%string
    novelty_estimator.SCORING_FUNCS
  = Some novelty_estimator.get_reconstr_error /\
  novelty_estimator.dict_get ("VAE", "reconstr_err")%string
    novelty_estimator.SCORING_FUNCS
  = Some novelty_estimator.get_reconstr_error /\
  novelty_estimator.get_reconstr_error = novelty_estimator.get_reconstr_error.
Proof.
  split; [reflexivity|]; split; [reflexivity|].
  apply (scoring_func_determines_lambda "AE"%string "VAE"%string
           "reconstr_err"%string); reflexivity.
Defined.

(* ------------------------------------------------------------------ *)
(** ** init_models *)

Lemma set_mem_In (x : string) (s : list string) :
  novelty_estimator.set_mem x s = true <-> In x s.
Proof.
  unfold novelty_estimator.set_mem; rewrite existsb_exists; split.
  - intros (y & Hy & He); apply String.eqb_eq in He; subst; exact Hy.
  - intros H; exists x; split; [exact H | apply String.eqb_refl].
Qed.

(** The length test of the assertion is a subset test. *)
Lemma intersection_length_iff (a sel : list string) :
  length (model_init.intersection a (model_init.py_set sel))
  = length (model_init.py_set sel)
  <-> forall x, In x sel -> In x a.
Proof.
  unfold model_init.intersection, model_init.py_set.
  set (S := nodup string_dec sel); set (A := nodup string_dec a).
  assert (HS : NoDup S) by apply NoDup_nodup.
  assert (HA : NoDup A) by apply NoDup_nodup.
  set (I := filter (fun x => novelty_estimator.set_mem x S) A).
  assert (HI : NoDup I) by (apply NoDup_filter; exact HA).
  assert (HIS : incl I S).
  { intros x Hx; apply filter_In in Hx as [_ Hx]; apply set_mem_In, Hx. }
  split.
  - intros Hlen x Hx.
    assert (HSI : incl S I).
    { apply (NoDup_length_incl HI); [lia | exact HIS]. }
    assert (Hs : In x S) by (apply nodup_In; exact Hx).
    apply HSI, filter_In in Hs as [Hs _].
    apply nodup_In in Hs; exact Hs.
  - intros Hsub.
    assert (HSI : incl S I).
    { intros x Hx; apply filter_In; split.
      - apply nodup_In, Hsub; apply nodup_In in Hx; exact Hx.
      - apply set_mem_In; exact Hx. }
    apply Nat.le_antisymm; apply NoDup_incl_length; assumption.
Qed.

Lemma lookup_ok_In {V : Type} (k : string) (d : list (string * V)) (v : V) :
  model_init.lookup k d = Ok v -> In (k, v) d.
Proof.
  unfold model_init.lookup.
  destruct (find _ d) as [[k' v']|] eqn:Hf; [|discriminate].
  intros H; injection H as <-.
  apply find_some in Hf as [Hin Hk]; cbn [fst snd] in *.
  apply String.eqb_eq in Hk; subst k'; exact Hin.
Qed.

Section InitModels.

Import novelty_estimator model_init.

Variables AVAILABLE_MODELS NEURAL_MODELS : list string.
Variables Params ScoringFuncs Model : Type.
Variables MODEL_PARAMS TRAIN_PARAMS : list (string * Params).
Variable with_input_dim : Z -> Params -> Params.
Variable set_iter : list string -> list string.

(** X23.  The assertion of [init_models] compares two lengths; it fails
    exactly when some selected name is not a member of [AVAILABLE_MODELS],
    and then [init_models] raises the AssertionError; every other exception
    it raises is a KeyError of one of the dict look-ups. *)
Theorem init_models_assertion_iff :
  forall (input_dim : Z) (selection : list string)
         (scoring_funcs : list (string * ScoringFuncs)),
    ((exists msg,
        init_models AVAILABLE_MODELS NEURAL_MODELS Model MODEL_PARAMS
                    TRAIN_PARAMS with_input_dim set_iter
                    input_dim selection scoring_funcs
        = Raise (AssertionError msg))
     <-> exists x, In x selection /\ ~ In x AVAILABLE_MODELS) /\
    (forall e,
        init_models AVAILABLE_MODELS NEURAL_MODELS Model MODEL_PARAMS
                    TRAIN_PARAMS with_input_dim set_iter
                    input_dim selection scoring_funcs = Raise e ->
        (exists msg, e = AssertionError msg) \/ e = KeyError).
Proof.
  intros input_dim sel sf; unfold init_models; cbv zeta.
  pose proof (intersection_length_iff AVAILABLE_MODELS sel) as Hiff.
  assert (Hkey : forall e,
            mapM (init_model NEURAL_MODELS Model MODEL_PARAMS TRAIN_PARAMS
                             with_input_dim input_dim sf)
                 (set_iter (py_set sel)) = Raise e -> e = KeyError).
  { intros e He; apply mapM_raise_inv in He as (n & _ & He).
    unfold init_model, lookup in He.
    repeat match type of He with
           | context [find ?f ?d] => destruct (find f d); cbn [bind] in He
           | context [if ?b then _ else _] => destruct b; cbn [bind] in He
           end; congruence. }
  destruct (length (intersection AVAILABLE_MODELS (py_set sel))
            =? length (py_set sel))%nat eqn:Hlen; cbv [py_assert bind].
  - apply Nat.eqb_eq in Hlen; pose proof (proj1 Hiff Hlen) as Hsub.
    split; [split|].
    + intros (msg & Hm); apply Hkey in Hm; discriminate.
    + intros (x & Hx & Hn); exfalso; exact (Hn (Hsub x Hx)).
    + intros e He; right; exact (Hkey e He).
  - apply Nat.eqb_neq in Hlen.
    split; [split|].
    + intros _.
      destruct (Forall_Exists_dec (fun x => In x AVAILABLE_MODELS)
                  (fun x => in_dec string_dec x AVAILABLE_MODELS) sel)
        as [Hall|Hex].
      * exfalso; apply Hlen, (proj2 Hiff); rewrite Forall_forall in Hall;
        exact Hall.
      * apply Exists_exists in Hex; exact Hex.
    + intros _; eexists; reflexivity.
    + intros e He; left; injection He as <-; eexists; reflexivity.
Qed.

Hypothesis set_iter_perm : forall l, Permutation (set_iter l) l.

(** X24.  When [init_models] returns, the result names each selected
    model once (duplicates of the selection collapsed), every selected name
    is available and a key of [model_classes], and each estimator carries
    the name of its entry, the class [model_classes] gives for it, and no
    trained model. *)
Theorem init_models_result :
  forall (input_dim : Z) (selection : list string)
         (scoring_funcs : list (string * ScoringFuncs))
         (infos : list (ModelInfo Params ScoringFuncs Model)),
    init_models AVAILABLE_MODELS NEURAL_MODELS Model MODEL_PARAMS
                TRAIN_PARAMS with_input_dim set_iter
                input_dim selection scoring_funcs = Ok infos ->
    NoDup (map snd infos) /\
    (forall x, In x (map snd infos) <-> In x selection) /\
    (forall x, In x selection ->
               In x AVAILABLE_MODELS /\ In x (map fst model_classes)) /\
    Forall (fun info : ModelInfo Params ScoringFuncs Model =>
              let estimator := fst (fst info) in
              NoveltyEstimator.name (NoveltyEstimator.base estimator)
              = snd info /\
              NoveltyEstimator.model (NoveltyEstimator.base estimator)
              = None /\
              In (snd info, NoveltyEstimator.model_type estimator)
                 model_classes)
           infos.
Proof.
  intros input_dim sel sf infos H; unfold init_models in H; cbv zeta in H.
  apply bind_ok_inv in H as ([] & Hassert & H).
  assert (Hsub : forall x, In x sel -> In x AVAILABLE_MODELS).
  { apply (proj1 (intersection_length_iff AVAILABLE_MODELS sel)).
    apply Nat.eqb_eq.
    unfold py_assert in Hassert.
    destruct (length _ =? length _)%nat; [reflexivity | discriminate]. }
  apply mapM_ok_Forall2 in H.
  assert (Hnames : map snd infos = set_iter (py_set sel)).
  { clear -H; induction H as [|n info ns infos' Hn _ IH];
      cbn [map]; [reflexivity|].
    rewrite IH; f_equal.
    unfold init_model in Hn.
    apply bind_ok_inv in Hn as (cls & _ & Hn).
    apply bind_ok_inv in Hn as (mp & _ & Hn).
    apply bind_ok_inv in Hn as (tp & _ & Hn); cbv zeta in Hn.
    apply bind_ok_inv in Hn as (fs & _ & Hn).
    injection Hn as <-; reflexivity. }
  assert (Hentries :
    Forall (fun info : ModelInfo Params ScoringFuncs Model =>
              NoveltyEstimator.name (NoveltyEstimator.base (fst (fst info)))
              = snd info /\
              NoveltyEstimator.model (NoveltyEstimator.base (fst (fst info)))
              = None /\
              In (snd info, NoveltyEstimator.model_type (fst (fst info)))
                 model_classes) infos).
  { clear -H; induction H as [|n info ns infos' Hn _ IH]; constructor;
      [|exact IH].
    unfold init_model in Hn.
    apply bind_ok_inv in Hn as (cls & Hcls & Hn).
    apply bind_ok_inv in Hn as (mp & _ & Hn).
    apply bind_ok_inv in Hn as (tp & _ & Hn); cbv zeta in Hn.
    apply bind_ok_inv in Hn as (fs & _ & Hn).
    injection Hn as <-; unfold NoveltyEstimator.init.
    cbn [fst snd NoveltyEstimator.base NoveltyEstimator.name
         NoveltyEstimator.model NoveltyEstimator.model_type].
    split; [reflexivity|]; split; [reflexivity|].
    apply lookup_ok_In; exact Hcls. }
  assert (Hmem : forall x, In x (map snd infos) <-> In x sel).
  { intros x; rewrite Hnames; split; intros Hx.
    - apply (Permutation_in _ (set_iter_perm _)) in Hx.
      unfold py_set in Hx; apply nodup_In in Hx; exact Hx.
    - apply (Permutation_in _ (Permutation_sym (set_iter_perm _))).
      unfold py_set; apply nodup_In; exact Hx. }
  split; [|split; [exact Hmem|split; [|exact Hentries]]].
  - rewrite Hnames.
    eapply Permutation_NoDup; [apply Permutation_sym, set_iter_perm|].
    apply NoDup_nodup.
  - intros x Hx; split; [apply Hsub; exact Hx|].
    apply Hmem in Hx; apply in_map_iff in Hx as (info & <- & Hin).
    rewrite Forall_forall in Hentries.
    destruct (Hentries info Hin) as (_ & _ & Hc).
    apply in_map_iff; eexists; split; [|exact Hc]; reflexivity.
Qed.

End InitModels.

(** The selection "AE", "AE", "PPCA": two entries, "AE" with the input
    dimension put in front of its parameters. *)
Lemma init_models_result_witness :
  NoDup (map snd Examples.infos1) /\
  (forall x, In x (map snd Examples.infos1) <-> In x Examples.selection1) /\
  (forall x, In x Examples.selection1 ->
             In x ["PPCA"; "AE"]%string /\
             In x (map fst model_init.model_classes)) /\
  Forall (fun info : model_init.ModelInfo Z (list string) unit =>
            let estimator := fst (fst info) in
            novelty_estimator.NoveltyEstimator.name
              (novelty_estimator.NoveltyEstimator.base estimator)
            = snd info /\
            novelty_estimator.NoveltyEstimator.model
              (novelty_estimator.NoveltyEstimator.base estimator)
            = None /\
            In (snd info,
                novelty_estimator.NoveltyEstimator.model_type estimator)
               model_init.model_classes)
         Examples.infos1.
Proof.
  apply (init_models_result ["PPCA"; "AE"]%string ["AE"]%string
           Z (list string) unit Examples.params1 Examples.params1
           Z.add (fun l => l) (fun l => Permutation_refl l)
           5%Z Examples.selection1 Examples.scoring_funcs1 Examples.infos1).
  reflexivity.
Defined.

(* ------------------------------------------------------------------ *)
(** ** HIDecoder.forward: the reconstruction matrix *)

Lemma decoder_forward_length (d : VarDecoder) (noise : Noise) (h : mat)
  (dim : nat) (mode : string) (v : vec) :
  decoder_forward d noise h dim mode = Ok v -> length v = length h.
Proof.
  intros H.
  assert (Hnormal : forall m s eps y,
             NormalDecoder.forward m s eps h dim mode = Ok y ->
             length y = length h).
  { intros m s eps y Hy; unfold NormalDecoder.forward in Hy.
    apply bind_ok_inv in Hy as (mu & Hmu & Hy).
    destruct (String.eqb mode "mode"); [discriminate|].
    apply bind_ok_inv in Hy as (vv & Hvv & Hy).
    inversion Hy; subst y; clear Hy.
    apply head1_length in Hmu; apply head1_length in Hvv.
    rewrite length_map, !length_combine, length_seq, length_map.
    unfold vec, mat in *; lia. }
  destruct d as [ft m s|ft m s|ft l|ft l|ft th rg]; cbn [decoder_forward] in H.
  - eapply Hnormal; eassumption.
  - unfold LogNormalDecoder.forward in H.
    apply bind_ok_inv in H as (y & Hy & H); inversion H; subst v.
    rewrite length_map; eapply Hnormal; eassumption.
  - unfold PoissonDecoder.forward in H.
    apply bind_ok_inv in H as (lam & Hlam & H).
    apply head1_length in Hlam.
    destruct (String.eqb mode "mode"); inversion H; subst v; clear H.
    + rewrite !length_map; assumption.
    + rewrite length_map, combine_seq_length, length_map; assumption.
  - apply bind_ok_inv in H as (idx & Hi & H); inversion H; subst v; clear H.
    unfold CategoricalDecoder.forward in Hi.
    apply bind_ok_inv in Hi as (dist & Hd & Hi).
    apply linear_ok in Hd as (Hdl & _).
    rewrite length_map.
    destruct (String.eqb mode "mode"); apply mapM_ok_length in Hi;
      try rewrite gumbel_softmax_length in Hi;
      unfold vec, mat in *; congruence.
  - apply bind_ok_inv in H as (idx & Hi & H); inversion H; subst v; clear H.
    unfold OrdinalDecoder.forward in Hi.
    apply bind_ok_inv in Hi as (probs & Hp & Hi).
    apply get_ordinal_probs_shape in Hp as (Hpl & _).
    rewrite length_map.
    destruct (String.eqb mode "mode"); apply mapM_ok_length in Hi;
      try rewrite gumbel_softmax_length in Hi;
      unfold vec, mat in *; congruence.
Qed.

(** A 1-D tensor of the batch length is assigned to a column as it is. *)
Lemma broadcast1_same (n : nat) (v c : vec) :
  length v = n -> broadcast1 n (T1 v) = Ok c -> c = v.
Proof.
  intros Hl; cbn [broadcast1].
  destruct v as [|a [|b v]].
  - intros H; apply bind_ok_inv in H as (u & _ & H); congruence.
  - cbn in Hl; subst n; cbn; congruence.
  - intros H; apply bind_ok_inv in H as (u & _ & H); congruence.
Qed.

Lemma set_entry_nth_error (row : vec) (j i : nat) (v : R) :
  nth_error (if (j <? length row)%nat
             then firstn j row ++ v :: skipn (S j) row
             else row) i
  = if ((i =? j)%nat && (j <? length row)%nat)%bool then Some v
    else nth_error row i.
Proof.
  revert j i; induction row as [|a row IH]; intros j i.
  - cbn [length]; replace (j <? 0)%nat with false
      by (symmetry; apply Nat.ltb_ge; lia).
    rewrite andb_false_r; reflexivity.
  - destruct j as [|j].
    + cbn [length firstn skipn app]; cbn [Nat.ltb Nat.leb].
      destruct i as [|i]; reflexivity.
    + change (S j <? length (a :: row))%nat with (j <? length row)%nat.
      cbn [firstn skipn].
      destruct i as [|i].
      * cbn [Nat.eqb andb]; destruct (j <? length row)%nat; reflexivity.
      * change (S i =? S j)%nat with (i =? j)%nat.
        rewrite <- IH.
        destruct (j <? length row)%nat; reflexivity.
Qed.

Lemma set_column_shape (j : nat) (c : vec) (m : mat) (w : nat) :
  length c = length m ->
  Forall (fun row => length row = w) m ->
  length (HIDecoder.set_column j c m) = length m /\
  Forall (fun row => length row = w) (HIDecoder.set_column j c m).
Proof.
  unfold HIDecoder.set_column; intros Hl Hw; split.
  - rewrite zip_with_length; lia.
  - clear Hl; revert c; induction Hw as [|row m Hrow _ IH]; intros [|v c];
      cbn [zip_with]; constructor; [|apply IH].
    destruct (j <? length row)%nat eqn:Hj; [|exact Hrow].
    apply Nat.ltb_lt in Hj.
    rewrite length_app, length_firstn; cbn [length]; rewrite length_skipn; lia.
Qed.

Lemma column_set_column (i j : nat) (c : vec) (m : mat) (w : nat) :
  length c = length m ->
  Forall (fun row => length row = w) m ->
  (j < w)%nat ->
  column i (HIDecoder.set_column j c m)
  = if (i =? j)%nat then Ok c else column i m.
Proof.
  unfold HIDecoder.set_column, column; intros Hl Hw Hj.
  revert c Hl; induction Hw as [|row m Hrow _ IH]; intros [|v c] Hl;
    cbn [length] in Hl; try discriminate; cbn [zip_with mapM].
  - destruct (i =? j)%nat; reflexivity.
  - rewrite set_entry_nth_error, (IH c ltac:(lia)).
    replace (j <? length row)%nat with true
      by (symmetry; apply Nat.ltb_lt; lia).
    rewrite andb_true_r.
    destruct (i =? j)%nat; [reflexivity|].
    destruct (nth_error row i); reflexivity.
Qed.

Lemma fill_reconstruction_columns (models : list VarDecoder) :
  forall (dim : nat) noise (h : mat) mode (rec out : mat) (w : nat),
    length rec = length h ->
    Forall (fun row => length row = w) rec ->
    (dim + length models <= w)%nat ->
    HIDecoder.fill_reconstruction models dim noise h mode rec = Ok out ->
    length out = length h /\
    Forall (fun row => length row = w) out /\
    (forall i, (i < dim)%nat -> column i out = column i rec) /\
    (forall k d, nth_error models k = Some d ->
                 exists v, decoder_forward d noise h (dim + k) mode = Ok v /\
                           column (dim + k) out = Ok v).
Proof.
  induction models as [|d0 models IH];
    intros dim noise h mode rec out w Hl Hw Hdim H;
    cbn [HIDecoder.fill_reconstruction] in H.
  - injection H as <-.
    split; [exact Hl|]; split; [exact Hw|]; split; [reflexivity|].
    intros [|k] d Hk; discriminate.
  - cbn [length] in Hdim.
    apply bind_ok_inv in H as (v & Hv & H).
    apply bind_ok_inv in H as (c & Hc & H).
    pose proof (decoder_forward_length _ _ _ _ _ _ Hv) as Hvl.
    apply broadcast1_same in Hc; [subst c | unfold vec, mat in *; lia].
    assert (Hvr : length v = length rec) by (unfold vec, mat in *; lia).
    destruct (set_column_shape dim v rec w Hvr Hw) as (Hsl & Hsw).
    assert (Hsh : length (HIDecoder.set_column dim v rec) = length h)
      by (unfold vec, mat in *; lia).
    assert (Hdim' : (S dim + length models <= w)%nat) by lia.
    destruct (IH (S dim) noise h mode _ out w Hsh Hsw Hdim' H)
      as (Hol & How & Hkeep & Hcols).
    split; [exact Hol|]; split; [exact How|]; split.
    + intros i Hi; rewrite (Hkeep i ltac:(lia)).
      rewrite (column_set_column i dim v rec w Hvr Hw ltac:(lia)).
      replace (i =? dim)%nat with false
        by (symmetry; apply Nat.eqb_neq; lia).
      reflexivity.
    + intros [|k] d Hk; cbn [nth_error] in Hk.
      * injection Hk as <-; rewrite Nat.add_0_r.
        exists v; split; [exact Hv|].
        rewrite (Hkeep dim ltac:(lia)).
        rewrite (column_set_column dim dim v rec w Hvr Hw ltac:(lia)).
        rewrite Nat.eqb_refl; reflexivity.
      * replace (dim + S k)%nat with (S dim + k)%nat by lia.
        apply Hcols; exact Hk.
Qed.

(** X25.  When [HIDecoder.forward] returns, the reconstruction has one
    row per latent sample and one column per feature, and column [k] holds,
    sample by sample, what the decoder of feature [k] returned on the
    decoder's hidden state: no column is left at its initial zero or
    overwritten by a later feature. *)
Theorem hidecoder_forward_columns :
  forall (self : HIDecoder.t) noise (latent_tensor mix_components : mat)
         mode (reconstruction : mat),
    HIDecoder.forward self noise latent_tensor mix_components mode
    = Ok reconstruction ->
    length reconstruction = length latent_tensor /\
    Forall (fun row => length row = length (HIDecoder.decoding_models self))
           reconstruction /\
    exists h0 h,
      sequential (HIDecoder.hidden self) latent_tensor = Ok h0 /\
      cat1 h0 mix_components = Ok h /\
      forall k d,
        nth_error (HIDecoder.decoding_models self) k = Some d ->
        exists v, decoder_forward d noise h k mode = Ok v /\
                  column k reconstruction = Ok v.
Proof.
  intros self noise lat mix mode out H; unfold HIDecoder.forward in H.
  apply bind_ok_inv in H as (h0 & Hh0 & H).
  apply bind_ok_inv in H as (h & Hh & H); cbv zeta in H.
  pose proof (sequential_length _ _ _ Hh0) as Hl0.
  assert (Hhl : length h = length lat).
  { unfold cat1 in Hh; apply bind_ok_inv in Hh as (u & Hu & Hh).
    apply check_ok_inv, Nat.eqb_eq in Hu.
    injection Hh as <-; rewrite zip_with_length.
    unfold vec, mat in *; lia. }
  set (zeros := map (fun _ : list R =>
                       repeat 0 (length (HIDecoder.decoding_models self)))
                    lat) in *.
  assert (Hzl : length zeros = length h)
    by (unfold zeros; rewrite length_map; unfold vec, mat in *; lia).
  assert (Hzw : Forall (fun row => length row
                                   = length (HIDecoder.decoding_models self))
                       zeros).
  { apply Forall_forall; intros row Hr.
    apply in_map_iff in Hr as (x & <- & _); apply repeat_length. }
  destruct (fill_reconstruction_columns (HIDecoder.decoding_models self)
              0 noise h mode zeros out
              (length (HIDecoder.decoding_models self))
              Hzl Hzw (Nat.le_refl _) H)
    as (Hol & How & _ & Hcols).
  split; [unfold vec, mat in *; lia|]; split; [exact How|].
  exists h0, h; split; [exact Hh0|]; split; [exact Hh|].
  intros k d Hk; exact (Hcols k d Hk).
Qed.

(** The two-class categorical decoder on two samples, mode "sample" with
    no noise: a 2 x 1 reconstruction whose column is the decoder's output. *)
Lemma hidecoder_forward_columns_witness :
  exists reconstruction,
    HIDecoder.forward Examples.binary_decoder Examples.zero_noise
                      Examples.latent2 Examples.mix2 "sample"
    = Ok reconstruction /\
    length reconstruction = length Examples.latent2 /\
    Forall (fun row => length row = 1%nat) reconstruction.
Proof.
  eexists; split; [reflexivity|].
  destruct (hidecoder_forward_columns Examples.binary_decoder
              Examples.zero_noise Examples.latent2 Examples.mix2
              "sample"%string _ eq_refl) as (Hl & Hw & _).
  split; [exact Hl | exact Hw].
Defined.
